(** * The stargazer acquisition pipeline of github-stargazers.js

    A shallow embedding of the fetcher script: the HTTP request executor with
    its rate-limit and SAML handling ([makeRequest]), the pagination driver
    ([getStargazers]), command-line option parsing, the filter and sort stage
    ([filterAndSortStargazers]), the enrichment batcher
    ([enrichStargazersData]) and the report assembler
    ([generateStargazersReport]).

    JavaScript values are an inductive type, objects are finite maps from
    property names to values, promises are their eventual outcome, and the
    network is the sequence of exchanges the process meets. *)

From stdpp Require Import base strings list gmap pretty sorting.
From Stdlib Require Import ZArith Lia Ascii.

Set Warnings "-register-all".
Open Scope Z_scope.

(** ** JavaScript values and the runtime primitives the script relies on *)

Module JS.

(** Values as [JSON.parse] builds them, with [undefined] added for missing
    properties.  Numbers are the integers of the API payloads (ids, counts,
    epoch milliseconds); strings are sequences of code units. *)
Inductive value : Type :=
| VUndefined
| VNull
| VBool (b : bool)
| VNum (n : Z)
| VStr (s : string)
| VArr (l : list value)
| VObj (o : gmap string value).

(** [ToBoolean]. *)
Definition truthy (v : value) : bool :=
  match v with
  | VUndefined | VNull => false
  | VBool b => b
  | VNum n => negb (n =? 0)
  | VStr s => negb (String.eqb s EmptyString)
  | VArr _ | VObj _ => true
  end.

(** [a || b]. *)
Definition or_else (a b : value) : value := if truthy a then a else b.

(** [ToString], as template literals and property keys apply it. *)
Fixpoint ToString (v : value) : string :=
  match v with
  | VUndefined => "undefined"
  | VNull => "null"
  | VBool b => if b then "true" else "false"
  | VNum n => pretty n
  | VStr s => s
  | VArr l =>
      String.concat ","
        (List.map (fun x => match x with
                            | VUndefined | VNull => EmptyString
                            | _ => ToString x
                            end) l)
  | VObj _ => "[object Object]"
  end.

Definition chars (s : string) : list value :=
  List.map (fun c => VStr (String c EmptyString)) (String.list_ascii_of_string s).

Definition indexed (l : list value) : gmap string value :=
  list_to_map (imap (fun i x => (pretty i, x)) l).

(** The own enumerable properties that object spread copies
    ([CopyDataProperties]): nothing for null, undefined, numbers and
    booleans; the indexed elements of arrays and strings. *)
Definition ownProps (v : value) : gmap string value :=
  match v with
  | VObj o => o
  | VArr l => indexed l
  | VStr s => indexed (chars s)
  | _ => ∅
  end.

(** [{...target, ...v}]: later properties win. *)
Definition spread (target : gmap string value) (v : value) : gmap string value :=
  ownProps v ∪ target.

(** Property read [v.k] of a data property; [None] is the TypeError of
    reading a property of null or undefined.  Inherited methods are not
    data and are not read through [get]. *)
Definition get (v : value) (k : string) : option value :=
  match v with
  | VUndefined | VNull => None
  | VObj o => Some (default VUndefined (o !! k))
  | VArr l =>
      Some (if decide (k = "length") then VNum (Z.of_nat (length l))
            else default VUndefined (indexed l !! k))
  | VStr s =>
      Some (if decide (k = "length") then VNum (Z.of_nat (String.length s))
            else default VUndefined (indexed (chars s) !! k))
  | _ => Some VUndefined
  end.

(** A record is a plain object.  Every element of the stargazer lists is
    one: [getStargazers] builds each with an object literal, and the later
    stages build theirs from those. *)
Abbreviation record := (gmap string value).

(** [r.k] on a record. *)
Definition prop (r : record) (k : string) : value := default VUndefined (r !! k).

(** [Array.prototype.slice(0, e)]. *)
Definition slice0 {A} (e : Z) (l : list A) : list A :=
  let len := Z.of_nat (length l) in
  take (Z.to_nat (if e <? 0 then Z.max (len + e) 0 else Z.min e len)) l.

(** [Array.prototype.slice(-n)] for a positive [n]. *)
Definition slice_last {A} (n : nat) (l : list A) : list A :=
  drop (length l - n)%nat l.

(** [String.prototype.includes]. *)
Fixpoint includes_from (needle : string) (hay : string) : bool :=
  String.prefix needle hay ||
  match hay with
  | EmptyString => false
  | String _ hay' => includes_from needle hay'
  end.

Definition includes (hay needle : string) : bool := includes_from needle hay.

(** *** parseInt *)

Definition is_white (c : ascii) : bool :=
  let n := nat_of_ascii c in
  ((9 <=? n) && (n <=? 13))%nat || (n =? 32)%nat.

Definition digit_of (radix : Z) (c : ascii) : option Z :=
  let n := Z.of_nat (nat_of_ascii c) in
  let d := if (48 <=? n) && (n <=? 57) then Some (n - 48)
           else if (97 <=? n) && (n <=? 122) then Some (n - 87)
           else if (65 <=? n) && (n <=? 90) then Some (n - 55)
           else None in
  match d with
  | Some d => if d <? radix then Some d else None
  | None => None
  end.

(** The longest prefix of digits, read in the radix; [acc] is [None] until
    a digit has been seen. *)
Fixpoint digits (radix : Z) (acc : option Z) (cs : list ascii) : option Z :=
  match cs with
  | [] => acc
  | c :: cs' =>
      match digit_of radix c with
      | Some d => digits radix (Some (default 0 acc * radix + d)) cs'
      | None => acc
      end
  end.

Definition strip_hex (cs : list ascii) : option (list ascii) :=
  match cs with
  | "0"%char :: ("x"%char | "X"%char) :: r => Some r
  | _ => None
  end.

Fixpoint skip_white (cs : list ascii) : list ascii :=
  match cs with
  | c :: cs' => if is_white c then skip_white cs' else cs
  | [] => []
  end.

(** [parseInt(s, radix)]; [radix = None] is the one-argument call.  [None]
    as a result is NaN. *)
Definition parseInt (s : string) (radix : option Z) : option Z :=
  let cs := skip_white (String.list_ascii_of_string s) in
  let '(sign, cs) := match cs with
                     | "-"%char :: r => (-1, r)
                     | "+"%char :: r => (1, r)
                     | _ => (1, cs)
                     end in
  let r := default 0 radix in
  if (r =? 0) || (r =? 16) then
    match strip_hex cs with
    | Some cs' => Z.mul sign <$> digits 16 None cs'
    | None => Z.mul sign <$> digits (if r =? 0 then 10 else 16) None cs
    end
  else if (r <? 2) || (36 <? r) then None
  else Z.mul sign <$> digits r None cs.

(** *** Dates *)

Definition msPerDay : Z := 86400000.
Definition maxTime : Z := 8640000000000000.

(** The host: how date strings parse, the machine's local zone and the
    zones [Intl.DateTimeFormat] knows. *)
Record Runtime := {
  (** [Date.parse]: milliseconds since the epoch, [None] for NaN. *)
  Date_parse : string -> option Z;
  (** Local time is UTC plus this many milliseconds (a zone of constant
      offset). *)
  tzOffset : Z;
  (** Whether [new Intl.DateTimeFormat('en-US', {timeZone, ...})] accepts
      the zone. *)
  Intl_supported : string -> bool;
  (** The hour, minute and second parts [formatToParts] gives for an
      instant in a zone, read with [parseInt(_, 10)]; [None] when it
      throws. *)
  Intl_hms : string -> Z -> option (Z * Z * Z)
}.

Definition TimeClip (n : Z) : option Z :=
  if Z.abs n <=? maxTime then Some n else None.

(** [new Date(v)]: the time value, [None] for an invalid date. *)
Definition new_Date (rt : Runtime) (v : value) : option Z :=
  match v with
  | VUndefined => None
  | VNull => Some 0
  | VBool b => Some (if b then 1 else 0)
  | VNum n => TimeClip n
  | VStr s => Date_parse rt s
  | VArr _ | VObj _ => Date_parse rt (ToString v)
  end.

(** [d.setHours(0, 0, 0, 0)]: the start of the local day of [t]. *)
Definition setHours0 (rt : Runtime) (t : Z) : Z :=
  let l := t + tzOffset rt in
  l - l mod msPerDay - tzOffset rt.

(** [d.setDate(d.getDate() + 1)]. *)
Definition nextDay (t : Z) : Z := t + msPerDay.

Definition getHours (rt : Runtime) (t : Z) : Z :=
  ((t + tzOffset rt) mod msPerDay) / 3600000.
Definition getMinutes (rt : Runtime) (t : Z) : Z :=
  ((t + tzOffset rt) mod 3600000) / 60000.
Definition getSeconds (rt : Runtime) (t : Z) : Z :=
  ((t + tzOffset rt) mod 60000) / 1000.

(** [Math.ceil(a / 1000)] on integers. *)
Definition ceil_div1000 (a : Z) : Z := - ((- a) / 1000).

(** The stable sort the language prescribes for [Array.prototype.sort]:
    [cmp a b] is the comparator's result, [None] for NaN, which counts as
    zero.  An element moves behind another only when it compares greater.
    Where a comparator is not consistent (dates that do not parse), engines
    may order differently; only the fact that the result is a permutation is
    used of such sorts. *)
Fixpoint sort_insert {A} (cmp : A -> A -> option Z) (x : A) (l : list A) : list A :=
  match l with
  | [] => [x]
  | y :: l' =>
      if 0 <? default 0 (cmp x y) then y :: sort_insert cmp x l'
      else x :: l
  end.

Fixpoint sort {A} (cmp : A -> A -> option Z) (l : list A) : list A :=
  match l with
  | [] => []
  | x :: l' => sort_insert cmp x (sort cmp l')
  end.

(** The outcome of a promise: [Pending] is a promise that never settles
    within the exchanges the network offers. *)
Inductive JsError :=
| Error (message : string)
| TypeError
| SystemError (e : string).

Inductive Outcome (A : Type) :=
| Resolved (a : A)
| Rejected (e : JsError)
| Pending.
Arguments Resolved {A} a.
Arguments Rejected {A} e.
Arguments Pending {A}.

(** *** What a plain object inherits *)

(** The members every object literal inherits from [Object.prototype]:
    built-in functions, and the accessor [__proto__]. *)
Inductive Inherited :=
| NativeFunction (name : string)
| ProtoAccessor.

Definition Object_prototype (key : string) : option Inherited :=
  if String.eqb key "constructor" then Some (NativeFunction "Object")
  else if String.eqb key "__proto__" then Some ProtoAccessor
  else if bool_decide (key ∈ ["__defineGetter__"; "__defineSetter__"; "hasOwnProperty";
                               "__lookupGetter__"; "__lookupSetter__"; "isPrototypeOf";
                               "propertyIsEnumerable"; "toString"; "valueOf";
                               "toLocaleString"])
  then Some (NativeFunction key)
  else None.

(** [String(f)] for a built-in function [f], as Node prints it. *)
Definition nativeSource (name : string) : string :=
  "function " +:+ name +:+ "() { [native code] }".

End JS.
Import JS.

(** ** The HTTP request executor and its rate-limit and SAML handling *)

Module Http.

(** The process environment the script reads at start-up. *)
Record Config := {
  GITHUB_TOKEN : option string;
  STARGAZERS_REPO_OWNER : option string;
  STARGAZERS_REPO_NAME : option string
}.

(** [process.env.X || fallback]. *)
Definition env_or (x : option string) (fallback : string) : string :=
  match x with
  | Some s => if String.eqb s EmptyString then fallback else s
  | None => fallback
  end.

Definition STARGAZERS_REO_OWNER (cfg : Config) : string :=
  env_or (STARGAZERS_REPO_OWNER cfg) "SolaceLabs".
Definition STARGAZERS_REO_NAME (cfg : Config) : string :=
  env_or (STARGAZERS_REPO_NAME cfg) "solace-agent-mesh".
Definition GITHUB_API_URL (cfg : Config) : string :=
  "https://api.github.com/repos/" +:+ STARGAZERS_REO_OWNER cfg +:+ "/"
    +:+ STARGAZERS_REO_NAME cfg +:+ "/stargazers".

(** What goes on the wire: the URL and the request headers. *)
Record Request := {
  url : string;
  reqHeaders : gmap string string
}.

(** What the ['end'] handler sees of a response: status, headers, the
    collected body, what [JSON.parse] makes of that body, and the clock at
    that moment (milliseconds since the epoch). *)
Inductive ParseResult :=
| ParseOk (v : value)
| ParseFail (message : string).

Record Response := {
  statusCode : Z;
  headers : gmap string string;
  body : string;
  parsed : ParseResult;
  now : Z
}.

(** One request meets either a transport error or a response. *)
Inductive Exchange :=
| NetError (e : string)
| Replied (res : Response).

(** What the process does to the outside world, in order. *)
Inductive Event :=
| Sent (r : Request)
| Timer (ms : option Z).

(** The value [makeRequest] resolves with. *)
Record Reply := {
  data : value;
  replyHeaders : gmap string string;
  replyStatus : Z
}.

(** [options] is [options.headers], [None] when the caller passes none.
    The headers object is built first and then overridden by the spread of
    [options] into [requestOptions]. *)
Definition requestHeaders (cfg : Config) (options : option (gmap string string))
  : gmap string string :=
  let headers0 : gmap string string :=
    default ∅ options ∪
    <["User-Agent" := "Node.js GitHub Stargazers Script"]>
      (<["Accept" := "application/vnd.github.v3.star+json"]> ∅) in
  let headers1 :=
    match GITHUB_TOKEN cfg with
    | Some t => if String.eqb t EmptyString then headers0
                else <["Authorization" := "token " +:+ t]> headers0
    | None => headers0
    end in
  match options with
  | Some h => h
  | None => headers1
  end.

Definition request (cfg : Config) (u : string) (options : option (gmap string string))
  : Request :=
  {| url := u; reqHeaders := requestHeaders cfg options |}.

Definition HttpError (status : Z) (data : string) : JsError :=
  Error ("HTTP " +:+ pretty status +:+ ": " +:+ data).

Definition SamlEnforcementError (message : string) : JsError :=
  Error ("SAML enforcement: " +:+ message).

Definition ParseError (message : string) : JsError :=
  Error ("Failed to parse JSON response: " +:+ message).

(** [new Date(parseInt(rateLimitReset) * 1000)]; a missing header reads as
    the string undefined. *)
Definition resetTime (res : Response) : option Z :=
  parseInt (default "undefined" (headers res !! "x-ratelimit-reset")) None
    ≫= fun secs => TimeClip (secs * 1000).

(** [Math.ceil((resetTime - new Date()) / 1000) + 60]. *)
Definition waitTime (res : Response) : option Z :=
  (fun reset => ceil_div1000 (reset - now res) + 60) <$> resetTime res.

(** [errorData.message && errorData.message.includes('SAML enforcement')]
    inside the try block: [Some m] when the test is true, with [m] the
    message as the template literal prints it; [None] when it is false or
    throws. *)
Definition samlMessage (p : ParseResult) : option string :=
  match p with
  | ParseFail _ => None
  | ParseOk errorData =>
      match get errorData "message" with
      | None => None
      | Some m =>
          if truthy m then
            match m with
            | VStr s => if includes s "SAML enforcement" then Some s else None
            | VArr l =>
                if existsb (fun x => match x with
                                     | VStr s => String.eqb s "SAML enforcement"
                                     | _ => false
                                     end) l
                then Some (ToString m) else None
            | _ => None
            end
          else None
      end
  end.

Definition rateLimited (res : Response) : bool :=
  (statusCode res =? 403) &&
  bool_decide (headers res !! "x-ratelimit-remaining" = Some "0").

(** [makeRequest(url, options)] against the exchanges the network offers:
    the outcome of the promise, what was sent and which timers were set,
    and the exchanges left over. *)
Fixpoint makeRequest (cfg : Config) (u : string) (options : option (gmap string string))
    (net : list Exchange) : Outcome Reply * list Event * list Exchange :=
  let req := request cfg u options in
  match net with
  | [] => (Pending, [Sent req], [])
  | NetError e :: rest => (Rejected (SystemError e), [Sent req], rest)
  | Replied res :: rest =>
      if (200 <=? statusCode res) && (statusCode res <? 300) then
        match parsed res with
        | ParseOk jsonData =>
            (Resolved {| data := jsonData;
                         replyHeaders := headers res;
                         replyStatus := statusCode res |},
             [Sent req], rest)
        | ParseFail m => (Rejected (ParseError m), [Sent req], rest)
        end
      else if statusCode res =? 403 then
        if bool_decide (headers res !! "x-ratelimit-remaining" = Some "0") then
          let '(o, tr, rest') := makeRequest cfg u options rest in
          (o, Sent req :: Timer (Z.mul 1000 <$> waitTime res) :: tr, rest')
        else
          match samlMessage (parsed res) with
          | Some m => (Rejected (SamlEnforcementError m), [Sent req], rest)
          | None => (Rejected (HttpError (statusCode res) (body res)), [Sent req], rest)
          end
      else (Rejected (HttpError (statusCode res) (body res)), [Sent req], rest)
  end.

(** An exchange that settles a request: anything but a rate-limited reply. *)
Definition settling (x : Exchange) : bool :=
  match x with
  | NetError _ => true
  | Replied res => negb (rateLimited res)
  end.

(** The network as it would be had the quota never run out. *)
Definition withoutRateLimits (net : list Exchange) : list Exchange :=
  List.filter settling net.

End Http.
Import Http.

(** ** The pagination driver *)

Module Pagination.

(** [{...item.user, starred_at: item.starred_at}]; [None] is the TypeError
    of a null item. *)
Definition flatten (item : value) : option record :=
  user ← get item "user";
  starred_at ← get item "starred_at";
  Some (<["starred_at" := starred_at]> (spread ∅ user)).

(** [stargazersData.map(flatten)]: only arrays have [map]. *)
Definition flattenPage (stargazersData : value) : option (list record) :=
  match stargazersData with
  | VArr items => mapM flatten items
  | _ => None
  end.

Definition pageUrl (cfg : Config) (page : Z) : string :=
  GITHUB_API_URL cfg +:+ "?page=" +:+ pretty page +:+ "&per_page=100".

(** [limit && allStargazers.length >= limit], [limit] being null or a
    number. *)
Definition limitReached (limit : option Z) (all : list record) : bool :=
  match limit with
  | Some n => negb (n =? 0) && (n <=? Z.of_nat (length all))
  | None => false
  end.

(** The [while (hasMorePages)] loop; [fuel] bounds the iterations. *)
Fixpoint pages (fuel : nat) (cfg : Config) (limit : option Z)
    (allStargazers : list record) (page : Z) (net : list Exchange)
  : Outcome (list record) * list Event * list Exchange :=
  match fuel with
  | O => (Pending, [], net)
  | S fuel' =>
      match makeRequest cfg (pageUrl cfg page) None net with
      | (Pending, tr, rest) => (Pending, tr, rest)
      | (Rejected e, tr, rest) => (Rejected e, tr, rest)
      | (Resolved response, tr, rest) =>
          let stargazersData := data response in
          match get stargazersData "length" with
          | None => (Rejected TypeError, tr, rest)
          | Some (VNum 0) => (Resolved allStargazers, tr, rest)
          | Some _ =>
              match flattenPage stargazersData with
              | None => (Rejected TypeError, tr, rest)
              | Some stargazers =>
                  let all' := allStargazers ++ stargazers in
                  if limitReached limit all' then
                    (Resolved
                       (if default 0 limit <? Z.of_nat (length all')
                        then slice0 (default 0 limit) all' else all'),
                     tr, rest)
                  else
                    let '(o, tr', rest') :=
                      pages fuel' cfg limit all' (page + 1) rest in
                    (o, tr ++ Timer (Some 1000) :: tr', rest')
              end
          end
      end
  end.

(** [getStargazers(limit)].  Every iteration that goes on has used up an
    exchange, so one more iteration than there are exchanges is enough. *)
Definition getStargazers (cfg : Config) (limit : option Z) (net : list Exchange)
  : Outcome (list record) * list Event * list Exchange :=
  pages (S (length net)) cfg limit [] 1 net.

(** A page that makes the loop go on: a 2xx reply whose body parses to a
    non-empty array of items, with the records the items flatten to. *)
Definition goodPage (res : Response) (stargazers : list record) : Prop :=
  200 <= statusCode res < 300 ∧
  ∃ items, parsed res = ParseOk (VArr items) ∧ items ≠ []
           ∧ mapM flatten items = Some stargazers.

(** The page that ends the collection: a 2xx reply with an empty array. *)
Definition emptyPage (res : Response) : Prop :=
  200 <= statusCode res < 300 ∧ parsed res = ParseOk (VArr []).

(** There is no limit, or it lies above [total] records. *)
Definition unlimited (limit : option Z) (total : nat) : Prop :=
  limit = None ∨ ∃ n, limit = Some n ∧ Z.of_nat total < n.

(** The requests for [n] consecutive pages from [page] on, each for 100
    items, one second apart. *)
Fixpoint pageRequests (cfg : Config) (page : Z) (n : nat) : list Event :=
  match n with
  | O => []
  | S n' =>
      Sent (request cfg (pageUrl cfg page) None) ::
      match n' with
      | O => []
      | S _ => Timer (Some 1000) :: pageRequests cfg (page + 1) n'
      end
  end.

(** The key of a record. *)
Definition login (r : record) : value := prop r "login".
Definition logins (l : list record) : list value := login <$> l.

(** A record that comes from the network: the flattening of an item of a
    2xx reply found there. *)
Definition fromPage (net : list Exchange) (r : record) : Prop :=
  ∃ res items item,
    Replied res ∈ net ∧ 200 <= statusCode res < 300
    ∧ parsed res = ParseOk (VArr items) ∧ item ∈ items ∧ flatten item = Some r.

(** What a run leaves for its caller: the outcome alone. *)
Definition outcome {A} (run : Outcome A * list Event * list Exchange) : Outcome A :=
  run.1.1.

(** The requests among the events, in order. *)
Definition requestsOf (events : list Event) : list Request :=
  omap (fun e => match e with Sent r => Some r | Timer _ => None end) events.

End Pagination.
Import Pagination.

(** ** Command-line options *)

Module Cli.

Record Options := {
  optSort : string;
  optDate : option string;
  optFrom : option string;
  optTo : option string;
  optTimezone : option string;
  optLimit : option Z;
  optHelp : bool
}.

(** The [options] object before any argument is read. *)
Definition defaults : Options :=
  {| optSort := "desc"; optDate := None; optFrom := None; optTo := None;
     optTimezone := None; optLimit := None; optHelp := false |}.

Definition withHelp (o : Options) : Options :=
  {| optSort := optSort o; optDate := optDate o; optFrom := optFrom o;
     optTo := optTo o; optTimezone := optTimezone o; optLimit := optLimit o;
     optHelp := true |}.
Definition withSort (v : string) (o : Options) : Options :=
  {| optSort := v; optDate := optDate o; optFrom := optFrom o;
     optTo := optTo o; optTimezone := optTimezone o; optLimit := optLimit o;
     optHelp := optHelp o |}.
Definition withDate (v : string) (o : Options) : Options :=
  {| optSort := optSort o; optDate := Some v; optFrom := optFrom o;
     optTo := optTo o; optTimezone := optTimezone o; optLimit := optLimit o;
     optHelp := optHelp o |}.
Definition withFrom (v : string) (o : Options) : Options :=
  {| optSort := optSort o; optDate := optDate o; optFrom := Some v;
     optTo := optTo o; optTimezone := optTimezone o; optLimit := optLimit o;
     optHelp := optHelp o |}.
Definition withTo (v : string) (o : Options) : Options :=
  {| optSort := optSort o; optDate := optDate o; optFrom := optFrom o;
     optTo := Some v; optTimezone := optTimezone o; optLimit := optLimit o;
     optHelp := optHelp o |}.
Definition withTimezone (v : string) (o : Options) : Options :=
  {| optSort := optSort o; optDate := optDate o; optFrom := optFrom o;
     optTo := optTo o; optTimezone := Some v; optLimit := optLimit o;
     optHelp := optHelp o |}.
Definition withLimit (v : Z) (o : Options) : Options :=
  {| optSort := optSort o; optDate := optDate o; optFrom := optFrom o;
     optTo := optTo o; optTimezone := optTimezone o; optLimit := Some v;
     optHelp := optHelp o |}.

(** Truthiness of an option that is null or a string. *)
Definition given (x : option string) : bool :=
  match x with
  | Some s => negb (String.eqb s EmptyString)
  | None => false
  end.

(** What the script prints, by kind; [v] is the offending argument,
    [None] when the command line ended before it. *)
Inductive Line :=
| UnknownOption (arg : string)
| InvalidSort (v : option string)
| InvalidDate (v : option string)
| InvalidFrom (v : option string)
| InvalidTo (v : option string)
| TimezoneRequired
| InvalidLimit (v : option string)
| FromToNeedDate
| FromToTogether
| Usage.

Definition validOptions : list string :=
  ["--help"; "-h"; "--sort"; "-s"; "--date"; "-d"; "--from"; "-f";
   "--to"; "-t"; "--timezone"; "-z"; "--limit"; "-l"].

Definition is_digit (c : ascii) : bool :=
  let n := nat_of_ascii c in ((48 <=? n) && (n <=? 57))%nat.
Definition between (lo hi : ascii) (c : ascii) : bool :=
  ((nat_of_ascii lo <=? nat_of_ascii c) && (nat_of_ascii c <=? nat_of_ascii hi))%nat.

(** [/^\d{4}-\d{2}-\d{2}$/]. *)
Definition dateRe (s : string) : bool :=
  match String.list_ascii_of_string s with
  | [y1; y2; y3; y4; "-"%char; m1; m2; "-"%char; d1; d2] =>
      forallb is_digit [y1; y2; y3; y4; m1; m2; d1; d2]
  | _ => false
  end.

(** [:[0-5][0-9](:[0-5][0-9])?$]. *)
Definition minSecRe (cs : list ascii) : bool :=
  match cs with
  | [":"%char; m1; m2] => between "0" "5" m1 && is_digit m2
  | [":"%char; m1; m2; ":"%char; s1; s2] =>
      between "0" "5" m1 && is_digit m2 && between "0" "5" s1 && is_digit s2
  | _ => false
  end.

(** [/^([0-1]?[0-9]|2[0-3]):[0-5][0-9](:[0-5][0-9])?$/]. *)
Definition timeRe (s : string) : bool :=
  match String.list_ascii_of_string s with
  | h :: (":"%char :: _) as r => is_digit h && minSecRe r
  | h1 :: h2 :: r =>
      ((between "0" "1" h1 && is_digit h2) ||
       (Ascii.eqb h1 "2" && between "0" "3" h2)) && minSecRe r
  | _ => false
  end.

Definition startsWithDash (arg : string) : bool := String.prefix "-" arg.

Definition isOpt (arg long short : string) : bool :=
  String.eqb arg long || String.eqb arg short.

(** The [for] loop over [args]; an option that takes a value skips it with
    [i++], an invalid value sets [help] and breaks. *)
Fixpoint parseArgs (args : list string) (options : Options) : Options * list Line :=
  match args with
  | [] => (options, [])
  | arg :: rest =>
      if startsWithDash arg && negb (bool_decide (arg ∈ validOptions)) then
        (withHelp options, [UnknownOption arg])
      else if isOpt arg "--help" "-h" then parseArgs rest (withHelp options)
      else if isOpt arg "--sort" "-s" then
        match rest with
        | sortValue :: rest' =>
            if String.eqb sortValue "asc" || String.eqb sortValue "desc"
            then parseArgs rest' (withSort sortValue options)
            else (withHelp options, [InvalidSort (Some sortValue)])
        | [] => (withHelp options, [InvalidSort None])
        end
      else if isOpt arg "--date" "-d" then
        match rest with
        | dateValue :: rest' =>
            if given (Some dateValue) && dateRe dateValue
            then parseArgs rest' (withDate dateValue options)
            else (withHelp options, [InvalidDate (Some dateValue)])
        | [] => (withHelp options, [InvalidDate None])
        end
      else if isOpt arg "--from" "-f" then
        match rest with
        | fromValue :: rest' =>
            if given (Some fromValue) && timeRe fromValue
            then parseArgs rest' (withFrom fromValue options)
            else (withHelp options, [InvalidFrom (Some fromValue)])
        | [] => (withHelp options, [InvalidFrom None])
        end
      else if isOpt arg "--to" "-t" then
        match rest with
        | toValue :: rest' =>
            if given (Some toValue) && timeRe toValue
            then parseArgs rest' (withTo toValue options)
            else (withHelp options, [InvalidTo (Some toValue)])
        | [] => (withHelp options, [InvalidTo None])
        end
      else if isOpt arg "--timezone" "-z" then
        match rest with
        | timezoneValue :: rest' =>
            if given (Some timezoneValue)
            then parseArgs rest' (withTimezone timezoneValue options)
            else (withHelp options, [TimezoneRequired])
        | [] => (withHelp options, [TimezoneRequired])
        end
      else if isOpt arg "--limit" "-l" then
        match rest with
        | v :: rest' =>
            match parseInt v None with
            | Some limitValue =>
                if negb (limitValue =? 0) && (0 <? limitValue)
                then parseArgs rest' (withLimit limitValue options)
                else (withHelp options, [InvalidLimit (Some v)])
            | None => (withHelp options, [InvalidLimit (Some v)])
            end
        | [] => (withHelp options, [InvalidLimit None])
        end
      else parseArgs rest options
  end.

(** The two checks after the loop. *)
Definition validate (parsed : Options * list Line) : Options * list Line :=
  let '(o, out) := parsed in
  let '(o, out) :=
    if (given (optFrom o) || given (optTo o)) && negb (given (optDate o))
    then (withHelp o, out ++ [FromToNeedDate]) else (o, out) in
  if (given (optFrom o) && negb (given (optTo o))) ||
     (negb (given (optFrom o)) && given (optTo o))
  then (withHelp o, out ++ [FromToTogether]) else (o, out).

Definition parseOptions (args : list string) : Options * list Line :=
  validate (parseArgs args defaults).

(** The limit of an options object is null or positive. *)
Definition limitIsPositive (o : Options) : Prop :=
  optLimit o = None ∨ ∃ n, optLimit o = Some n ∧ 0 < n.

(** What the loop lets into an options object: a sort order that is asc or
    desc, a date of the form YYYY-MM-DD, times of the form HH:MM or HH:MM:SS,
    a timezone that is not the empty string. *)
Definition wellFormed (o : Options) : Prop :=
  (optSort o = "asc" ∨ optSort o = "desc")
  ∧ (∀ d, optDate o = Some d → dateRe d = true)
  ∧ (∀ f, optFrom o = Some f → timeRe f = true)
  ∧ (∀ t, optTo o = Some t → timeRe t = true)
  ∧ (∀ z, optTimezone o = Some z → z ≠ EmptyString).

(** How the process goes on once the arguments are read: it exits, or
    [main] reaches [getStargazers(options.limit)]. *)
Inductive Launch :=
| Exit (code : Z) (printed : list Line)
| CallsGetStargazers (limit : option Z) (options : Options).

(** The script from its first line to the call of the pagination driver.
    [proceed] is the user's answer to the invalid-timezone prompt. *)
Definition script (rt : Runtime) (proceed : bool) (args : list string) : Launch :=
  let '(options, printed) := parseOptions args in
  if optHelp options then Exit 0 (printed ++ [Usage])
  else if given (optTimezone options) &&
          negb (Intl_supported rt (default EmptyString (optTimezone options))) &&
          negb proceed
  then Exit 1 printed
  else CallsGetStargazers (optLimit options) options.

End Cli.
Import Cli.

(** ** The filter and sort stage *)

Module Filter.

(** [s.split(':')]. *)
Fixpoint splitColon (cur : string) (cs : list ascii) : list string :=
  match cs with
  | [] => [String.rev cur]
  | c :: cs' =>
      if Ascii.eqb c ":" then String.rev cur :: splitColon EmptyString cs'
      else splitColon (String c cur) cs'
  end.

Definition split (s : string) : list string :=
  splitColon EmptyString (String.list_ascii_of_string s).

(** [parseTime(timeString)]: seconds since midnight, [None] for NaN. *)
Definition parseTime (timeString : string) : option Z :=
  let parts := split timeString in
  hours ← parseInt (default "undefined" (parts !! 0%nat)) (Some 10);
  minutes ← parseInt (default "undefined" (parts !! 1%nat)) (Some 10);
  seconds ← (if given (parts !! 2%nat)
             then parseInt (default "undefined" (parts !! 2%nat)) (Some 10)
             else Some 0);
  Some (hours * 3600 + minutes * 60 + seconds).

(** [validateTimezone(timezone)]. *)
Definition validateTimezone (rt : Runtime) (timezone : string) : bool :=
  Intl_supported rt timezone.

Record TimeInfo := {
  hours : option Z;
  minutes : option Z;
  seconds : option Z;
  totalSeconds : option Z
}.

(** The components of a date in the machine's zone; all NaN for an
    invalid date. *)
Definition localTime (rt : Runtime) (date : option Z) : TimeInfo :=
  {| hours := getHours rt <$> date;
     minutes := getMinutes rt <$> date;
     seconds := getSeconds rt <$> date;
     totalSeconds :=
       (fun t => getHours rt t * 3600 + getMinutes rt t * 60 + getSeconds rt t)
         <$> date |}.

(** [getTimeInTimezone(date, timezone)]. *)
Definition getTimeInTimezone (rt : Runtime) (date : option Z)
    (timezone : option string) : TimeInfo :=
  if given timezone then
    let tz := default EmptyString timezone in
    if negb (validateTimezone rt tz) then localTime rt date
    else
      match date ≫= Intl_hms rt tz with
      | Some (h, m, s) =>
          {| hours := Some h; minutes := Some m; seconds := Some s;
             totalSeconds := Some (h * 3600 + m * 60 + s) |}
      | None => localTime rt date
      end
  else localTime rt date.

(** Comparisons of numbers that may be NaN. *)
Definition num_ge (a b : option Z) : bool :=
  match a, b with Some x, Some y => y <=? x | _, _ => false end.
Definition num_lt (a b : option Z) : bool :=
  match a, b with Some x, Some y => x <? y | _, _ => false end.
Definition num_gt (a b : option Z) : bool := num_lt b a.
Definition num_sub (a b : option Z) : option Z :=
  match a, b with Some x, Some y => Some (x - y) | _, _ => None end.

Definition starredDate (rt : Runtime) (stargazer : record) : option Z :=
  new_Date rt (prop stargazer "starred_at").

(** The start of the day asked for: [new Date(options.date)] followed by
    [setHours(0, 0, 0, 0)]. *)
Definition targetDate (rt : Runtime) (date : string) : option Z :=
  setHours0 rt <$> new_Date rt (VStr date).

Definition nextDate (rt : Runtime) (date : string) : option Z :=
  nextDay <$> targetDate rt date.

(** The callback of the date filter. *)
Definition onDate (rt : Runtime) (date : string) (stargazer : record) : bool :=
  num_ge (starredDate rt stargazer) (targetDate rt date) &&
  num_lt (starredDate rt stargazer) (nextDate rt date).

(** [options.from ? parseTime(options.from) : null]: the outer [None] is
    null, the inner one NaN. *)
Definition bound (x : option string) : option (option Z) :=
  if given x then Some (parseTime (default EmptyString x)) else None.

Definition starredTime (rt : Runtime) (options : Options) (stargazer : record)
  : option Z :=
  totalSeconds (getTimeInTimezone rt (starredDate rt stargazer) (optTimezone options)).

(** The callback of the time-window filter. *)
Definition inWindow (rt : Runtime) (options : Options) (stargazer : record) : bool :=
  let fromTime := bound (optFrom options) in
  let toTime := bound (optTo options) in
  let t := starredTime rt options stargazer in
  negb (match fromTime with Some f => num_lt t f | None => false end) &&
  negb (match toTime with Some u => num_gt t u | None => false end).

(** The comparator of the final sort. *)
Definition byStarredAt (rt : Runtime) (options : Options) (a b : record) : option Z :=
  let dateA := starredDate rt a in
  let dateB := starredDate rt b in
  if String.eqb (optSort options) "asc" then num_sub dateA dateB
  else num_sub dateB dateA.

Definition filterAndSortStargazers (rt : Runtime) (stargazers : list record)
    (options : Options) : list record :=
  let filtered :=
    if given (optDate options) then
      let date := default EmptyString (optDate options) in
      let onDay := List.filter (onDate rt date) stargazers in
      if given (optFrom options) || given (optTo options)
      then List.filter (inWindow rt options) onDay
      else onDay
    else stargazers in
  JS.sort (byStarredAt rt options) filtered.

(** The records the two filters let through, as one test: on the day
    asked for, and with a time of day between the two bounds, both
    included. *)
Definition onDateInWindow (rt : Runtime) (options : Options) (date : string)
    (f u : Z) (stargazer : record) : bool :=
  onDate rt date stargazer &&
  match starredTime rt options stargazer with
  | Some t => (f <=? t) && (t <=? u)
  | None => false
  end.

(** Two records are in the order asked for: both have valid dates, the
    first not after the second when the order is asc, not before it
    otherwise. *)
Definition inOrder (rt : Runtime) (options : Options) (a b : record) : Prop :=
  ∃ ta tb, starredDate rt a = Some ta ∧ starredDate rt b = Some tb
           ∧ if String.eqb (optSort options) "asc" then ta <= tb else tb <= ta.

(** The records starred at one instant. *)
Definition starredAt (rt : Runtime) (t : Z) (stargazer : record) : bool :=
  bool_decide (starredDate rt stargazer = Some t).

(** The two filters as one test on a record. *)
Definition passes (rt : Runtime) (options : Options) (stargazer : record) : bool :=
  if given (optDate options) then
    onDate rt (default EmptyString (optDate options)) stargazer &&
    (if given (optFrom options) || given (optTo options)
     then inWindow rt options stargazer else true)
  else true.

End Filter.
Import Filter.

(** ** The enrichment batcher *)

Module Enrich.

Definition userUrl (username : value) : string :=
  "https://api.github.com/users/" +:+ ToString username.

(** [getDetailedUserInfo(username)]: the try block returns the data of the
    reply, the catch block returns null. *)
Definition getDetailedUserInfo (cfg : Config) (username : value) (net : list Exchange)
  : Outcome value :=
  match makeRequest cfg (userUrl username) None net with
  | (Resolved response, _, _) => Resolved (data response)
  | (Rejected error, _, _) => Resolved VNull
  | (Pending, _, _) => Pending
  end.

(** Which return statement of the per-item callback produced a result. *)
Inductive Branch := TryBlock | CatchBlock.

(** The async callback given to [batch.map]: its promise, and the branch
    that returned. *)
Definition enrichOne (cfg : Config) (stargazer : record) (net : list Exchange)
  : Outcome (record * Branch) :=
  match getDetailedUserInfo cfg (prop stargazer "login") net with
  | Resolved detailedInfo => Resolved (spread (spread ∅ (VObj stargazer)) detailedInfo, TryBlock)
  | Rejected error => Resolved (stargazer, CatchBlock)
  | Pending => Pending
  end.

(** [Promise.all]: the results in the order of the promises, once all have
    settled; a promise that rejects makes it reject, one that never
    settles makes it never settle. *)
Fixpoint Promise_all {A} (ps : list (Outcome A)) : Outcome (list A) :=
  match ps with
  | [] => Resolved []
  | p :: ps' =>
      match p, Promise_all ps' with
      | Rejected e, _ => Rejected e
      | _, Rejected e => Rejected e
      | Pending, _ => Pending
      | _, Pending => Pending
      | Resolved a, Resolved l => Resolved (a :: l)
      end
  end.

Definition batchSize : nat := 50.

(** [stargazers.slice(i, i + batchSize)]. *)
Definition batchAt (stargazers : list record) (i : nat) : list record :=
  take batchSize (drop i stargazers).

(** What the batcher does besides computing: the batches it issues and the
    pauses between them. *)
Inductive Step :=
| Batch (batch : list record)
| Pause (ms : Z).

(** The [for (i = 0; i < stargazers.length; i += batchSize)] loop.
    [net k] is the sequence of exchanges met by the requests made for the
    item at index [k]. *)
Fixpoint batches (fuel : nat) (cfg : Config) (stargazers : list record)
    (net : nat -> list Exchange) (i : nat) (enrichedStargazers : list record)
  : Outcome (list record) * list Step :=
  match fuel with
  | O => (Pending, [])
  | S fuel' =>
      if (i <? length stargazers)%nat then
        let batch := batchAt stargazers i in
        let promises := imap (fun batchIndex stargazer =>
                                enrichOne cfg stargazer (net (i + batchIndex)%nat)) batch in
        match Promise_all promises with
        | Resolved batchResults =>
            let enriched' := enrichedStargazers ++ (fst <$> batchResults) in
            let pause := if (i + batchSize <? length stargazers)%nat
                         then [Pause 2000] else [] in
            let '(o, steps) :=
              batches fuel' cfg stargazers net (i + batchSize)%nat enriched' in
            (o, Batch batch :: pause ++ steps)
        | Rejected e => (Rejected e, [Batch batch])
        | Pending => (Pending, [Batch batch])
        end
      else (Resolved enrichedStargazers, [])
  end.

(** [enrichStargazersData(stargazers)]: the loop runs at most once per
    item, and once more to find the end. *)
Definition enrichStargazersData (cfg : Config) (stargazers : list record)
    (net : nat -> list Exchange) : Outcome (list record) * list Step :=
  batches (S (length stargazers)) cfg stargazers net 0 [].

(** The record the callback resolves with, when it does. *)
Definition enrichedRecord (cfg : Config) (stargazer : record) (net : list Exchange)
  : record :=
  match enrichOne cfg stargazer net with
  | Resolved (r, _) => r
  | _ => stargazer
  end.

(** The request made for a record gets an answer, good or bad. *)
Definition settles (cfg : Config) (stargazer : record) (net : list Exchange) : Prop :=
  (makeRequest cfg (userUrl (prop stargazer "login")) None net).1.1 ≠ Pending.

(** The batches among the steps, in order. *)
Definition batchesOf (steps : list Step) : list (list record) :=
  omap (fun st => match st with Batch b => Some b | Pause _ => None end) steps.

(** The per-user fetch of a record fails: its request ends rejected. *)
Definition fetchFails (cfg : Config) (stargazer : record) (net : list Exchange) : Prop :=
  ∃ e tr rest,
    makeRequest cfg (userUrl (prop stargazer "login")) None net = (Rejected e, tr, rest).

Definition fetchGives (cfg : Config) (stargazer : record) (net : list Exchange)
    (info : value) : Prop :=
  ∃ r tr rest,
    makeRequest cfg (userUrl (prop stargazer "login")) None net = (Resolved r, tr, rest)
    ∧ data r = info.

(** Batches with a pause of two seconds between one and the next. *)
Fixpoint withPauses (bs : list (list record)) : list Step :=
  match bs with
  | [] => []
  | b :: bs' =>
      Batch b :: match bs' with [] => [] | _ :: _ => Pause 2000 :: withPauses bs' end
  end.

End Enrich.
Import Enrich.

(** ** The report assembler *)

Module Report.

Record Summary := {
  repository : string;
  total_stargazers : Z;
  (** The instant that [new Date().toISOString()] prints. *)
  report_generated_at : Z
}.

(** What a property of the [user_types] object holds: a number, or a
    string when the count was added to something that is no number. *)
Inductive Count :=
| Number (n : Z)
| Text (s : string).

Record Statistics := {
  user_types : gmap string Count;
  top_stargazers : list record;
  recent_stargazers : list record;
  oldest_stargazers : list record
}.

Record StargazersReport := {
  summary : Summary;
  statistics : Statistics;
  stargazers_list : list record
}.

Definition listEntry (s : record) : record :=
  list_to_map [("login", prop s "login"); ("id", prop s "id");
               ("profile_url", prop s "html_url");
               ("starred_at", prop s "starred_at");
               ("type", or_else (prop s "type") (VStr "User"))].

Definition topEntry (s : record) : record :=
  list_to_map [("login", prop s "login"); ("id", prop s "id");
               ("profile_url", prop s "html_url");
               ("starred_at", prop s "starred_at")].

Definition dateEntry (s : record) : record :=
  list_to_map [("login", prop s "login"); ("starred_at", prop s "starred_at")].

(** One step of the [forEach] that counts user types:
    [user_types[type] = (user_types[type] || 0) + 1] on an object that
    starts as [{}].  Where the object has no property of its own under the
    name, the read finds what [Object.prototype] supplies: a function, which
    is truthy and to which [+ 1] appends the character 1 after its source
    text, or, for [__proto__], the prototype object, which [+ 1] turns into
    a string that the setter of [__proto__] then ignores. *)
Definition countType (counts : gmap string Count) (stargazer : record)
  : gmap string Count :=
  let type := ToString (or_else (prop stargazer "type") (VStr "User")) in
  match counts !! type with
  | Some (Number n) => <[type := Number (n + 1)]> counts
  | Some (Text s) =>
      <[type := if String.eqb s EmptyString then Number 1 else Text (s +:+ "1")]> counts
  | None =>
      match Object_prototype type with
      | Some (NativeFunction name) => <[type := Text (nativeSource name +:+ "1")]> counts
      | Some ProtoAccessor => counts
      | None => <[type := Number 1]> counts
      end
  end.

(** The key under which a record is counted, and how many records of a
    list are counted under a key. *)
Definition typeName (stargazer : record) : string :=
  ToString (or_else (prop stargazer "type") (VStr "User")).

Definition countOf (type : string) (stargazers : list record) : Z :=
  Z.of_nat (length (List.filter (fun s => bool_decide (typeName s = type)) stargazers)).

(** The number a property of [user_types] stands for; a string stands for
    none. *)
Definition counted (c : Count) : Z :=
  match c with
  | Number n => n
  | Text _ => 0
  end.

(** One record is at least as recent as another; both have valid dates. *)
Definition notOlder (rt : Runtime) (a b : record) : Prop :=
  ∃ ta tb, starredDate rt a = Some ta ∧ starredDate rt b = Some tb ∧ tb <= ta.

(** Every record has a valid date, and no two different records have the
    same one. *)
Definition datedApart (rt : Runtime) (stargazers : list record) : Prop :=
  Forall (fun s => is_Some (starredDate rt s)) stargazers
  ∧ ∀ a b, a ∈ stargazers → b ∈ stargazers →
           starredDate rt a = starredDate rt b → a = b.

(** The comparator [new Date(b.starred_at) - new Date(a.starred_at)]. *)
Definition newestFirst (rt : Runtime) (a b : record) : option Z :=
  num_sub (starredDate rt b) (starredDate rt a).

(** [generateStargazersReport(stargazers)]; [clock] is the time
    [new Date()] reads. *)
Definition generateStargazersReport (rt : Runtime) (cfg : Config) (clock : Z)
    (stargazers : list record) : StargazersReport :=
  let sortedByDate := JS.sort (newestFirst rt) stargazers in
  {| summary :=
       {| repository := STARGAZERS_REO_OWNER cfg +:+ "/" +:+ STARGAZERS_REO_NAME cfg;
          total_stargazers := Z.of_nat (length stargazers);
          report_generated_at := clock |};
     statistics :=
       {| user_types := foldl countType ∅ stargazers;
          top_stargazers := topEntry <$> slice0 20 stargazers;
          recent_stargazers := dateEntry <$> slice0 10 sortedByDate;
          oldest_stargazers := dateEntry <$> reverse (slice_last 10 sortedByDate) |};
     stargazers_list := listEntry <$> stargazers |}.

End Report.
Import Report.

(** ** Concrete hosts, networks and records for the scenarios *)

Module Scenario.

(** Days from 1970-01-01 to a civil date. *)
Definition daysFromCivil (y m d : Z) : Z :=
  let y' := if m <=? 2 then y - 1 else y in
  let era := y' / 400 in
  let yoe := y' - era * 400 in
  let mp := (m + 9) mod 12 in
  let doy := (153 * mp + 2) / 5 + d - 1 in
  let doe := yoe * 365 + yoe / 4 - yoe / 100 + doy in
  era * 146097 + doe - 719468.

Definition num (cs : list ascii) : option Z :=
  if forallb is_digit cs then digits 10 None cs else None.

(** [Date.parse] on the two forms the script meets: a date alone, read as
    midnight UTC, and the timestamps of the API, which end in Z. *)
Definition isoParse (s : string) : option Z :=
  match String.list_ascii_of_string s with
  | [y1; y2; y3; y4; "-"; m1; m2; "-"; d1; d2]%char =>
      y ← num [y1; y2; y3; y4]; m ← num [m1; m2]; d ← num [d1; d2];
      if (1 <=? m) && (m <=? 12) && (1 <=? d) && (d <=? 31)
      then Some (daysFromCivil y m d * msPerDay) else None
  | [y1; y2; y3; y4; "-"; m1; m2; "-"; d1; d2; "T";
     h1; h2; ":"; i1; i2; ":"; s1; s2; "Z"]%char =>
      y ← num [y1; y2; y3; y4]; m ← num [m1; m2]; d ← num [d1; d2];
      h ← num [h1; h2]; i ← num [i1; i2]; sec ← num [s1; s2];
      if (1 <=? m) && (m <=? 12) && (1 <=? d) && (d <=? 31) &&
         (h <=? 23) && (i <=? 59) && (sec <=? 59)
      then Some (daysFromCivil y m d * msPerDay + h * 3600000 + i * 60000 + sec * 1000)
      else None
  | _ => None
  end.

Definition utcParts (t : Z) : option (Z * Z * Z) :=
  Some ((t mod msPerDay) / 3600000, (t mod 3600000) / 60000, (t mod 60000) / 1000).

(** A machine whose local zone is [offset] milliseconds ahead of UTC and
    whose formatter knows the zone UTC. *)
Definition host (offset : Z) : Runtime :=
  {| Date_parse := isoParse;
     tzOffset := offset;
     Intl_supported := fun tz => String.eqb tz "UTC";
     Intl_hms := fun tz t => if String.eqb tz "UTC" then utcParts t else None |}.

Definition hostUTC : Runtime := host 0.
(** America/Bogota, five hours behind UTC all year. *)
Definition hostBogota : Runtime := host (-18000000).
(** Asia/Kolkata, five and a half hours ahead of UTC all year. *)
Definition hostKolkata : Runtime := host 19800000.

Definition cfg0 : Config :=
  {| GITHUB_TOKEN := None; STARGAZERS_REPO_OWNER := None; STARGAZERS_REPO_NAME := None |}.

(** A user object of the API and the page item that wraps it. *)
Definition user (name : string) (id : Z) : value :=
  VObj (list_to_map [("login", VStr name); ("id", VNum id);
                     ("html_url", VStr ("https://github.com/" +:+ name));
                     ("type", VStr "User")]).

Definition item (name : string) (id : Z) (starred_at : string) : value :=
  VObj (list_to_map [("user", user name id); ("starred_at", VStr starred_at)]).

(** The record [getStargazers] makes of such an item. *)
Definition starRecord (name : string) (id : Z) (starred_at : string) : record :=
  list_to_map [("login", VStr name); ("id", VNum id);
               ("html_url", VStr ("https://github.com/" +:+ name));
               ("type", VStr "User"); ("starred_at", VStr starred_at)].

Definition ok (v : value) : Exchange :=
  Replied {| statusCode := 200; headers := ∅; body := "(json)";
             parsed := ParseOk v; now := 0 |}.

(** A page of [n] items, users numbered from [first]. *)
Definition numbered (first : nat) (n : nat) : list value :=
  (fun k => item ("user" +:+ pretty k) (Z.of_nat k) "2025-02-26T12:00:00Z")
    <$> seq first n.

Definition pageOf (first n : nat) : Response :=
  {| statusCode := 200; headers := ∅; body := "(json)";
     parsed := ParseOk (VArr (numbered first n)); now := 0 |}.

Definition page (first n : nat) : Exchange := Replied (pageOf first n).

(** Two pages on which the same user appears, as happens when the list
    shifts between two requests. *)
Definition shifted : list Exchange :=
  [ok (VArr [item "alice" 1 "2025-02-26T10:00:00Z"; item "octocat" 2 "2025-02-26T11:00:00Z"]);
   ok (VArr [item "octocat" 2 "2025-02-26T11:00:00Z"; item "bob" 3 "2025-02-26T12:00:00Z"]);
   ok (VArr [])].

(** A 403 that reports an exhausted quota, [ahead] milliseconds before the
    reset at epoch second 1740000000. *)
Definition quota403 (ahead : Z) : Response :=
  {| statusCode := 403;
     headers := list_to_map [("x-ratelimit-remaining", "0");
                             ("x-ratelimit-reset", "1740000000")];
     body := "API rate limit exceeded";
     parsed := ParseFail "Unexpected token A in JSON at position 0";
     now := 1740000000000 - ahead |}.

Definition samlText : string :=
  "Resource protected by organization SAML enforcement. You must grant your token access.".

Definition saml403 : Response :=
  {| statusCode := 403;
     headers := list_to_map [("x-ratelimit-remaining", "4999")];
     body := "(json with message)";
     parsed := ParseOk (VObj (list_to_map [("message", VStr samlText)]));
     now := 0 |}.

Definition plain403 : Response :=
  {| statusCode := 403;
     headers := list_to_map [("x-ratelimit-remaining", "4999")];
     body := "Forbidden";
     parsed := ParseFail "Unexpected token F in JSON at position 0";
     now := 0 |}.

Definition badCredentials403 : Response :=
  {| statusCode := 403;
     headers := list_to_map [("x-ratelimit-remaining", "4999")];
     body := "(json with message)";
     parsed := ParseOk (VObj (list_to_map [("message", VStr "Bad credentials")]));
     now := 0 |}.

Definition notFound : Exchange :=
  Replied {| statusCode := 404; headers := ∅; body := "Not Found";
             parsed := ParseFail "Unexpected token N in JSON at position 0";
             now := 0 |}.

(** Fifty records, and a network on which the fetches for the items at
    indices 3, 17 and 42 fail while every other one returns a profile with
    a name. *)
Definition numberedRecords (first n : nat) : list record :=
  (fun k => starRecord ("user" +:+ pretty k) (Z.of_nat k) "2025-02-26T12:00:00Z")
    <$> seq first n.

Definition fifty : list record := numberedRecords 0 50.

Definition profile (k : nat) : value :=
  VObj (list_to_map [("login", VStr ("user" +:+ pretty k)); ("id", VNum (Z.of_nat k));
                     ("name", VStr ("User " +:+ pretty k)); ("followers", VNum 7)]).

Definition fiftyNet (k : nat) : list Exchange :=
  if bool_decide (k ∈ [3; 17; 42]%nat) then [notFound] else [ok (profile k)].

(** The options of [--date 2025-02-26] and of
    [--date 2025-02-26 --from 09:00 --to 17:00 --timezone UTC]. *)
Definition onlyDate : Options := withDate "2025-02-26" defaults.
Definition officeHours : Options :=
  withTimezone "UTC" (withTo "17:00" (withFrom "09:00" (withDate "2025-02-26" defaults))).

(** Stars given at noon in Bogota on 25 and on 26 February 2025. *)
Definition noon25 : record := starRecord "carol" 5 "2025-02-25T17:00:00Z".
Definition noon26 : record := starRecord "dave" 6 "2025-02-26T17:00:00Z".

(** Stars at 09:00:00, 17:00:00 and 17:00:01 UTC on 26 February 2025 and
    at 10:00:00 UTC the day after. *)
Definition atNine : record := starRecord "erin" 7 "2025-02-26T09:00:00Z".
Definition atFive : record := starRecord "frank" 8 "2025-02-26T17:00:00Z".
Definition pastFive : record := starRecord "grace" 9 "2025-02-26T17:00:01Z".
Definition nextMorning : record := starRecord "heidi" 10 "2025-02-27T10:00:00Z".

End Scenario.

Import Scenario.

(** * Properties *)

(** ** Arithmetic and strings *)

Lemma ceil_div1000_spec (a : Z) :
  1000 * (ceil_div1000 a - 1) < a <= 1000 * ceil_div1000 a.
Proof.
  unfold ceil_div1000.
  pose proof (Z.div_mod (- a) 1000 ltac:(lia)) as Hdiv.
  pose proof (Z.mod_pos_bound (- a) 1000 ltac:(lia)) as Hmod.
  lia.
Qed.

Lemma prefix_app_l (n s : string) : String.prefix n (n +:+ s) = true.
Proof.
  induction n as [|c n IH]; [by destruct s|].
  change (String c n +:+ s) with (String c (n +:+ s)). simpl.
  by destruct (ascii_dec c c).
Qed.

Lemma includes_from_unfold (needle hay : string) :
  includes_from needle hay =
  String.prefix needle hay ||
  match hay with
  | EmptyString => false
  | String _ hay' => includes_from needle hay'
  end.
Proof. by destruct hay. Qed.

Lemma includes_from_app (needle a b : string) :
  includes_from needle (a +:+ needle +:+ b) = true.
Proof.
  induction a as [|c a IH]; rewrite includes_from_unfold.
  - change (EmptyString +:+ needle +:+ b) with (needle +:+ b).
    rewrite prefix_app_l. apply orb_true_l.
  - change (String c a +:+ needle +:+ b) with (String c (a +:+ needle +:+ b)).
    cbv iota. rewrite IH. apply orb_true_r.
Qed.

Lemma prefix_inv (n h : string) :
  String.prefix n h = true → ∃ b, h = n +:+ b.
Proof.
  revert h. induction n as [|c n IH]; intros h Hp.
  - by exists h.
  - destruct h as [|d h]; [done|]. simpl in Hp.
    destruct (ascii_dec c d) as [->|]; [|done].
    destruct (IH h Hp) as [b ->]. by exists b.
Qed.

Lemma includes_spec (hay needle : string) :
  includes hay needle = true ↔ ∃ a b, hay = a +:+ needle +:+ b.
Proof.
  unfold includes. split.
  - induction hay as [|c hay IH]; rewrite includes_from_unfold; intros H.
    + apply orb_true_iff in H as [H|H]; [|done].
      apply prefix_inv in H as [b Hb]. by exists EmptyString, b.
    + apply orb_true_iff in H as [H|H].
      * apply prefix_inv in H as [b Hb]. by exists EmptyString, b.
      * destruct (IH H) as (a & b & ->). by exists (String c a), b.
  - intros (a & b & ->). apply includes_from_app.
Qed.

Ltac split_ascii c := destruct c as [[] [] [] [] [] [] [] []]; try discriminate.

(** ** Decimal numerals *)

Lemma pretty_N_char_digit (d : N) :
  (d < 10)%N →
  is_digit (pretty_N_char d) = true ∧ digit_of 10 (pretty_N_char d) = Some (Z.of_N d).
Proof.
  intros Hd.
  assert (d = 0 ∨ d = 1 ∨ d = 2 ∨ d = 3 ∨ d = 4 ∨ d = 5 ∨ d = 6 ∨ d = 7 ∨ d = 8 ∨ d = 9)%N
    as Hcases by lia.
  repeat (destruct Hcases as [->|Hcases]; [by split|]). by subst.
Qed.

(** The numeral of a positive number, read digit by digit from the left,
    gives the number back. *)
Lemma digits_pretty_N_go (x : N) :
  (0 < x)%N →
  (∃ k, 0 <= k ∧ ∀ s acc,
     digits 10 acc (String.list_ascii_of_string (pretty_N_go x s))
     = digits 10 (Some (default 0 acc * 10 ^ k + Z.of_N x)) (String.list_ascii_of_string s))
  ∧ (∀ s, ∃ c s', pretty_N_go x s = String c s' ∧ is_digit c = true
                  ∧ (Forall (fun c => is_digit c = true) (String.list_ascii_of_string s) →
                     Forall (fun c => is_digit c = true) (String.list_ascii_of_string s'))).
Proof.
  induction (N.lt_wf_0 x) as [x _ IH]. intros Hx.
  pose proof (N.mod_lt x 10 ltac:(lia)) as Hmod.
  destruct (pretty_N_char_digit (x mod 10) Hmod) as [Hdig Hval].
  pose proof (N.div_mod x 10 ltac:(lia)) as Hdm.
  destruct (decide (x / 10 = 0)%N) as [Hz|Hnz].
  - split.
    + exists 1. split; [lia|]. intros s acc.
      rewrite pretty_N_go_step, Hz, pretty_N_go_0 by done. cbn [String.list_ascii_of_string digits].
      rewrite Hval. cbn [default from_option id]. do 2 f_equal. lia.
    + intros s. rewrite pretty_N_go_step, Hz, pretty_N_go_0 by done.
      by eexists _, _.
  - assert (Hlt : (x / 10 < x)%N) by (apply N.div_lt; lia).
    destruct (IH (x / 10)%N Hlt ltac:(lia)) as [(k & Hk & Hread) Hshape]. split.
    + exists (k + 1). split; [lia|]. intros s acc.
      rewrite pretty_N_go_step, Hread by done. cbn [String.list_ascii_of_string digits].
      rewrite Hval. cbn [default from_option id]. do 2 f_equal.
      rewrite Z.pow_add_r by lia. lia.
    + intros s. rewrite pretty_N_go_step by done.
      destruct (Hshape (String (pretty_N_char (x mod 10)) s)) as (c & s' & -> & Hc & Hall).
      exists c, s'. split_and!; [done|done|]. intros Hs. apply Hall. by constructor.
Qed.

(** [parseInt] of a string of digits, called with one argument. *)
Lemma parseInt_numeral (c : ascii) (s : string) :
  is_digit c = true →
  Forall (fun c => is_digit c = true) (String.list_ascii_of_string s) →
  parseInt (String c s) None
  = Z.mul 1 <$> digits 10 None (c :: String.list_ascii_of_string s).
Proof.
  intros Hc Hs. destruct s as [|c2 s2].
  - split_ascii c; reflexivity.
  - apply Forall_cons in Hs as [Hc2 _].
    split_ascii c; try reflexivity; split_ascii c2; reflexivity.
Qed.

Lemma parseInt_pretty (n : Z) : 0 <= n → parseInt (pretty n) None = Some n.
Proof.
  intros Hn. destruct n as [|p|p]; [reflexivity| |lia].
  change (pretty (Z.pos p)) with (pretty_N_go (N.pos p) EmptyString).
  destruct (digits_pretty_N_go (N.pos p) ltac:(lia)) as [(k & Hk & Hread) Hshape].
  destruct (Hshape EmptyString) as (c & s' & Heq & Hc & Hall).
  specialize (Hread EmptyString None). rewrite Heq in Hread |- *.
  rewrite parseInt_numeral by (done || by apply Hall).
  cbn [String.list_ascii_of_string] in Hread. rewrite Hread. cbn. by destruct p.
Qed.

(** ** The request executor *)

Section Executor.
Context (cfg : Config) (u : string) (options : option (gmap string string)).

Let req := request cfg u options.

Lemma rateLimited_inv res :
  rateLimited res = true ↔
  statusCode res = 403 ∧ headers res !! "x-ratelimit-remaining" = Some "0".
Proof.
  unfold rateLimited. rewrite andb_true_iff, bool_decide_eq_true, Z.eqb_eq. done.
Qed.

(** A rate-limited reply sets the timer and hands the promise over to a
    second call with the same arguments. *)
Lemma makeRequest_limited res net :
  rateLimited res = true →
  makeRequest cfg u options (Replied res :: net) =
  let '(o, tr, rest) := makeRequest cfg u options net in
  (o, Sent req :: Timer (Z.mul 1000 <$> waitTime res) :: tr, rest).
Proof.
  intros [Hs Hh]%rateLimited_inv. cbn [makeRequest].
  rewrite Hs. cbn. rewrite bool_decide_eq_true_2 by done. done.
Qed.

(** Any other exchange settles the promise at once. *)
Lemma makeRequest_settles x :
  (∀ res, x = Replied res → rateLimited res = false) →
  ∃ o, o ≠ Pending ∧ ∀ net', makeRequest cfg u options (x :: net') = (o, [Sent req], net').
Proof.
  intros Hx. destruct x as [e|res].
  - eexists. split; [|intros; reflexivity]. done.
  - specialize (Hx res eq_refl). unfold rateLimited in Hx. cbn [makeRequest].
    destruct ((200 <=? statusCode res) && (statusCode res <? 300)).
    { destruct (parsed res); eexists; (split; [|intros; reflexivity]); done. }
    destruct (statusCode res =? 403); simpl in Hx.
    + rewrite Hx. destruct (samlMessage (parsed res));
        eexists; (split; [|intros; reflexivity]); done.
    + eexists; (split; [|intros; reflexivity]); done.
Qed.

(** Every call starts by sending the request. *)
Lemma makeRequest_sends net :
  ∃ o tr rest, makeRequest cfg u options net = (o, Sent req :: tr, rest).
Proof.
  induction net as [|x net IH]; [by eexists _, _, _|].
  destruct x as [e|res]; [by eexists _, _, _|].
  destruct (rateLimited res) eqn:Hl.
  - rewrite makeRequest_limited by done.
    destruct IH as (o & tr & rest & ->). by eexists _, _, _.
  - destruct (makeRequest_settles (Replied res)) as (o & _ & Ho).
    { intros ? [= <-]. done. }
    rewrite Ho. by eexists _, _, _.
Qed.

(** A settled promise was settled by the first exchange that is not a
    rate-limited reply; all the exchanges before it were retried. *)
Lemma makeRequest_decided net o tr rest :
  makeRequest cfg u options net = (o, tr, rest) →
  o ≠ Pending →
  ∃ limited x,
    net = (Replied <$> limited) ++ x :: rest
    ∧ Forall (fun res => rateLimited res = true) limited
    ∧ (∀ res, x = Replied res → rateLimited res = false)
    ∧ makeRequest cfg u options [x] = (o, [Sent req], []).
Proof.
  revert o tr rest. induction net as [|x net IH]; intros o tr rest Hrun Ho.
  { cbn in Hrun. by simplify_eq. }
  assert (Hcase : (∃ res, x = Replied res ∧ rateLimited res = true)
                  ∨ ¬ (∃ res, x = Replied res ∧ rateLimited res = true)).
  { destruct x as [e|res]; [right; by intros (? & ? & ?)|].
    destruct (rateLimited res) eqn:E; [left; by exists res|].
    right. intros (? & [= <-] & ?). congruence. }
  destruct Hcase as [(res & -> & Hl)|Hn].
  - rewrite makeRequest_limited in Hrun by done.
    destruct (makeRequest cfg u options net) as [[o' tr'] rest'] eqn:Hnet.
    simplify_eq.
    destruct (IH _ _ _ eq_refl Ho) as (limited & x & -> & Hlim & Hx & Hone).
    exists (res :: limited), x. split_and!; [done| by constructor |done|done].
  - assert (Hx : ∀ res, x = Replied res → rateLimited res = false).
    { intros res ->. destruct (rateLimited res) eqn:E; [|done].
      exfalso. apply Hn. by exists res. }
    destruct (makeRequest_settles x Hx) as (o' & _ & Hall).
    rewrite Hall in Hrun. simplify_eq.
    exists [], x. split_and!; [done|constructor|done|apply Hall].
Qed.

(** Replies that are all rate-limited never settle the promise. *)
Lemma makeRequest_all_limited limited :
  Forall (fun res => rateLimited res = true) limited →
  (makeRequest cfg u options (Replied <$> limited)).1.1 = Pending.
Proof.
  induction 1 as [|res limited Hres _ IH]; [done|].
  rewrite fmap_cons, makeRequest_limited by done.
  destruct (makeRequest cfg u options (Replied <$> limited)) as [[o tr] rest].
  done.
Qed.

End Executor.

(** How long the retry waits, read off the reply. *)
Lemma waitTime_of_reset (res : Response) (s : string) (secs : Z) :
  headers res !! "x-ratelimit-reset" = Some s →
  parseInt s None = Some secs →
  Z.abs (secs * 1000) <= 8640000000000000 →
  ∃ w, waitTime res = Some w
       ∧ 1000 * (w - 61) < secs * 1000 - now res <= 1000 * (w - 60).
Proof.
  intros Hh Hp Hrange. unfold waitTime, resetTime. rewrite Hh. cbn [default from_option id].
  rewrite Hp. cbn [mbind option_bind]. unfold TimeClip, maxTime.
  replace (Z.abs (secs * 1000) <=? 8640000000000000) with true
    by (symmetry; by apply Z.leb_le).
  cbn [fmap option_fmap option_map]. eexists. split; [done|].
  pose proof (ceil_div1000_spec (secs * 1000 - now res)). lia.
Qed.

Lemma waitTime_without_reset (res : Response) :
  headers res !! "x-ratelimit-reset" = None → waitTime res = None.
Proof. intros Hh. unfold waitTime, resetTime. by rewrite Hh. Qed.

(** C2.  A 403 reply whose [x-ratelimit-remaining] header is the string 0
    is retried, not reported: [makeRequest] sets a timer and calls itself
    with the same url and options, so the same request goes out again and
    the promise settles exactly as that second call settles.  The timer is
    read off the [x-ratelimit-reset] header of the reply: when the header is
    the numeral of [secs] seconds since the epoch (or any string in which
    [parseInt] reads [secs]), the delay is [1000 * w] milliseconds, [w - 60]
    being the number of seconds from the clock to the reset, rounded up;
    without the header the delay is NaN.  Whatever settles the promise comes
    from the first exchange that is not such a reply, never from the
    rate-limited ones. *)
Theorem rate_limit_is_retried (cfg : Config) (u : string)
    (options : option (gmap string string)) (res : Response) (net : list Exchange) :
  statusCode res = 403 →
  headers res !! "x-ratelimit-remaining" = Some "0" →
  (∃ o tr rest delay,
     makeRequest cfg u options net = (o, Sent (request cfg u options) :: tr, rest)
     ∧ makeRequest cfg u options (Replied res :: net) =
         (o, Sent (request cfg u options) :: Timer delay
               :: Sent (request cfg u options) :: tr, rest)
     ∧ (∀ secs,
          headers res !! "x-ratelimit-reset" = Some (pretty secs) →
          0 <= secs → secs * 1000 <= 8640000000000000 →
          ∃ w, delay = Some (1000 * w)
               ∧ 1000 * (w - 61) < secs * 1000 - now res <= 1000 * (w - 60))
     ∧ (∀ s secs,
          headers res !! "x-ratelimit-reset" = Some s →
          parseInt s None = Some secs →
          Z.abs (secs * 1000) <= 8640000000000000 →
          ∃ w, delay = Some (1000 * w)
               ∧ 1000 * (w - 61) < secs * 1000 - now res <= 1000 * (w - 60))
     ∧ (headers res !! "x-ratelimit-reset" = None → delay = None))
  ∧ (∀ o tr rest,
       makeRequest cfg u options (Replied res :: net) = (o, tr, rest) →
       o ≠ Pending →
       ∃ limited x,
         Replied res :: net = (Replied <$> limited) ++ x :: rest
         ∧ Forall (fun r => statusCode r = 403
                            ∧ headers r !! "x-ratelimit-remaining" = Some "0") limited
         ∧ (∀ r, x = Replied r →
                 ¬ (statusCode r = 403
                    ∧ headers r !! "x-ratelimit-remaining" = Some "0"))
         ∧ makeRequest cfg u options [x] = (o, [Sent (request cfg u options)], [])).
Proof.
  intros Hs Hh.
  assert (Hl : rateLimited res = true) by (by apply rateLimited_inv).
  split.
  - destruct (makeRequest_sends cfg u options net) as (o & tr & rest & Hnet).
    exists o, tr, rest, (Z.mul 1000 <$> waitTime res).
    assert (Hwait : ∀ s secs,
              headers res !! "x-ratelimit-reset" = Some s →
              parseInt s None = Some secs →
              Z.abs (secs * 1000) <= 8640000000000000 →
              ∃ w, Z.mul 1000 <$> waitTime res = Some (1000 * w)
                   ∧ 1000 * (w - 61) < secs * 1000 - now res <= 1000 * (w - 60)).
    { intros s secs Hreset Hp Hrange.
      destruct (waitTime_of_reset res s secs Hreset Hp Hrange) as (w & -> & Hw).
      by exists w. }
    split_and!.
    + done.
    + rewrite makeRequest_limited by done. by rewrite Hnet.
    + intros secs Hreset Hsecs Hrange.
      apply (Hwait (pretty secs) secs Hreset); [by apply parseInt_pretty|lia].
    + done.
    + intros Hnone. by rewrite waitTime_without_reset.
  - intros o tr rest Hrun Ho.
    destruct (makeRequest_decided cfg u options _ o tr rest Hrun Ho)
      as (limited & x & Hnet & Hlim & Hx & Hone).
    exists limited, x. split_and!; [done| |  |done].
    + eapply Forall_impl; [exact Hlim|]. intros r Hr. by apply rateLimited_inv.
    + intros r -> Hr%rateLimited_inv. specialize (Hx r eq_refl). congruence.
Qed.

(** The indices of an array or a string are numerals; [message] is none. *)
Lemma pretty_nat_digit (i : nat) :
  ∃ c s, pretty i = String c s ∧ is_digit c = true.
Proof.
  change (pretty i) with (pretty (N.of_nat i)). unfold pretty, pretty_N.
  case_decide as Hi; [by eexists _, _|].
  destruct (digits_pretty_N_go (N.of_nat i) ltac:(lia)) as [_ Hshape].
  destruct (Hshape EmptyString) as (c & s' & Heq & Hc & _). by exists c, s'.
Qed.

Lemma indexed_no_message (l : list value) : indexed l !! "message" = None.
Proof.
  unfold indexed. apply not_elem_of_list_to_map_1.
  intros ((k & v) & Hk & (i & x & [= -> ->] & _)%elem_of_lookup_imap)%list_elem_of_fmap.
  cbn in Hk. destruct (pretty_nat_digit i) as (c & s' & Heq & Hc).
  rewrite Heq in Hk. injection Hk as <- _. discriminate Hc.
Qed.

(** What the message test of the 403 branch finds in a parsed body. *)
Lemma samlMessage_string (o : gmap string value) (s : string) :
  o !! "message" = Some (VStr s) →
  samlMessage (ParseOk (VObj o)) =
    if includes s "SAML enforcement" then Some s else None.
Proof.
  intros Hm. unfold samlMessage. cbn [get]. rewrite Hm. cbn [default from_option id truthy].
  destruct (String.eqb_spec s EmptyString) as [->|Hne]; [done|]. done.
Qed.

Lemma saml_element (l : list value) :
  existsb (fun x => match x with
                    | VStr s => String.eqb s "SAML enforcement"
                    | _ => false
                    end) l = true
  ↔ VStr "SAML enforcement" ∈ l.
Proof.
  rewrite existsb_exists. split.
  - intros (x & Hin%list_elem_of_In & Hx). destruct x; try done.
    by apply String.eqb_eq in Hx as ->.
  - intros Hin. exists (VStr "SAML enforcement"). split; [by apply list_elem_of_In|done].
Qed.

(** C3.  A 403 reply whose [x-ratelimit-remaining] header is not the string
    0 is fatal and is not retried: one request was sent, the exchanges that
    follow are left untouched and the promise rejects.  It rejects with the
    SAML error made of the message when the body parses to an object whose
    [message] is a string that contains the words SAML enforcement (or an
    array that has them as an element, [includes] being a method of arrays
    too); in every other case, a body that does not parse, that is no
    object, that has no [message], whose [message] is a string without
    those words or a value with no [includes] method, it rejects with the
    HTTP error made of the status code and the body. *)
Theorem forbidden_is_fatal (cfg : Config) (u : string)
    (options : option (gmap string string)) (res : Response) (net : list Exchange) :
  statusCode res = 403 →
  headers res !! "x-ratelimit-remaining" ≠ Some "0" →
  (∀ o a b,
     parsed res = ParseOk (VObj o) →
     o !! "message" = Some (VStr (a +:+ "SAML enforcement" +:+ b)) →
     makeRequest cfg u options (Replied res :: net) =
       (Rejected (SamlEnforcementError (a +:+ "SAML enforcement" +:+ b)),
        [Sent (request cfg u options)], net))
  ∧ (∀ o l,
       parsed res = ParseOk (VObj o) →
       o !! "message" = Some (VArr l) → VStr "SAML enforcement" ∈ l →
       makeRequest cfg u options (Replied res :: net) =
         (Rejected (SamlEnforcementError (ToString (VArr l))),
          [Sent (request cfg u options)], net))
  ∧ (∀ o s,
       parsed res = ParseOk (VObj o) →
       o !! "message" = Some (VStr s) →
       (∀ a b, s ≠ a +:+ "SAML enforcement" +:+ b) →
       makeRequest cfg u options (Replied res :: net) =
         (Rejected (HttpError 403 (body res)), [Sent (request cfg u options)], net))
  ∧ (∀ o l,
       parsed res = ParseOk (VObj o) →
       o !! "message" = Some (VArr l) → VStr "SAML enforcement" ∉ l →
       makeRequest cfg u options (Replied res :: net) =
         (Rejected (HttpError 403 (body res)), [Sent (request cfg u options)], net))
  ∧ (∀ o,
       parsed res = ParseOk (VObj o) →
       (∀ s, o !! "message" ≠ Some (VStr s)) →
       (∀ l, o !! "message" ≠ Some (VArr l)) →
       makeRequest cfg u options (Replied res :: net) =
         (Rejected (HttpError 403 (body res)), [Sent (request cfg u options)], net))
  ∧ (∀ v,
       parsed res = ParseOk v → (∀ o, v ≠ VObj o) →
       makeRequest cfg u options (Replied res :: net) =
         (Rejected (HttpError 403 (body res)), [Sent (request cfg u options)], net))
  ∧ (∀ message,
       parsed res = ParseFail message →
       makeRequest cfg u options (Replied res :: net) =
         (Rejected (HttpError 403 (body res)), [Sent (request cfg u options)], net))
  ∧ (∃ e, makeRequest cfg u options (Replied res :: net) =
            (Rejected e, [Sent (request cfg u options)], net)).
Proof.
  intros Hs Hh.
  assert (Hrun : makeRequest cfg u options (Replied res :: net) =
                 match samlMessage (parsed res) with
                 | Some m => (Rejected (SamlEnforcementError m),
                              [Sent (request cfg u options)], net)
                 | None => (Rejected (HttpError 403 (body res)),
                            [Sent (request cfg u options)], net)
                 end).
  { cbn [makeRequest]. rewrite Hs. cbn.
    rewrite bool_decide_eq_false_2 by done. done. }
  split_and!.
  - intros o a b Hp Hm. rewrite Hrun, Hp, (samlMessage_string o _ Hm).
    by rewrite (proj2 (includes_spec _ _)) by (by exists a, b).
  - intros o l Hp Hm Hin. rewrite Hrun, Hp. unfold samlMessage. cbn [get].
    rewrite Hm. cbn [default from_option id truthy].
    by rewrite (proj2 (saml_element l) Hin).
  - intros o s Hp Hm Hno. rewrite Hrun, Hp, (samlMessage_string o _ Hm).
    destruct (includes s "SAML enforcement") eqn:Hinc; [|done].
    apply includes_spec in Hinc as (a & b & ->). by destruct (Hno a b).
  - intros o l Hp Hm Hnot. rewrite Hrun, Hp. unfold samlMessage. cbn [get].
    rewrite Hm. cbn [default from_option id truthy].
    destruct (existsb _ l) eqn:Hex; [|done]. by apply saml_element in Hex.
  - intros o Hp Hstr Harr. rewrite Hrun, Hp. unfold samlMessage. cbn [get].
    destruct (o !! "message") as [m|] eqn:Hm; [|done]. cbn [default from_option id].
    destruct m as [| |b|n|s|l|o']; cbn [truthy]; try done.
    + by destruct b.
    + by destruct (negb _).
    + by destruct (Hstr s).
    + by destruct (Harr l).
  - intros v Hp Hv. rewrite Hrun, Hp. unfold samlMessage.
    destruct v as [| |b|n|s|l|o]; cbn [get]; try done.
    + case_decide; [done|]. by rewrite indexed_no_message.
    + case_decide; [done|]. by rewrite indexed_no_message.
    + by destruct (Hv o).
  - intros message Hp. by rewrite Hrun, Hp.
  - rewrite Hrun. destruct (samlMessage (parsed res)); by eexists.
Qed.

(** The scenario of the specification: the reset lies five seconds ahead, so
    the wait is 65 seconds, after which the same page request succeeds. *)
Lemma rate_limit_is_retried_witness :
  headers (quota403 5000) !! "x-ratelimit-reset" = Some "1740000000"
  ∧ now (quota403 5000) = 1739999995000
  ∧ ∃ tr,
      makeRequest cfg0 (pageUrl cfg0 1) None [Replied (quota403 5000); page 0 2] =
        (Resolved {| data := VArr (numbered 0 2); replyHeaders := ∅; replyStatus := 200 |},
         Sent (request cfg0 (pageUrl cfg0 1) None) :: Timer (Some 65000)
           :: Sent (request cfg0 (pageUrl cfg0 1) None) :: tr, []).
Proof.
  split; [reflexivity|]. split; [reflexivity|].
  destruct (rate_limit_is_retried cfg0 (pageUrl cfg0 1) None (quota403 5000)
              [page 0 2] eq_refl eq_refl)
    as ((o & tr & rest & delay & Hnet & Hrun & Hdelay & _) & _).
  destruct (Hdelay 1740000000 eq_refl ltac:(lia) ltac:(lia)) as (w & -> & Hw).
  change (now (quota403 5000)) with 1739999995000 in Hw.
  assert (w = 65) as -> by lia.
  exists tr. rewrite Hrun.
  injection Hnet as <- _ <-. reflexivity.
Defined.

Lemma bad_credentials_names_no_saml (a b : string) :
  "Bad credentials" ≠ a +:+ "SAML enforcement" +:+ b.
Proof.
  intros Heq.
  assert (Hinc : includes "Bad credentials" "SAML enforcement" = true)
    by (apply includes_spec; by exists a, b).
  discriminate Hinc.
Qed.

(** A 403 whose message names SAML enforcement, one whose body is not JSON
    and one whose message is about something else. *)
Lemma forbidden_is_fatal_witness :
  makeRequest cfg0 (pageUrl cfg0 1) None [Replied saml403; page 0 2] =
    (Rejected (Error ("SAML enforcement: Resource protected by organization "
                      +:+ "SAML enforcement. You must grant your token access.")),
     [Sent (request cfg0 (pageUrl cfg0 1) None)], [page 0 2])
  ∧ makeRequest cfg0 (pageUrl cfg0 1) None [Replied plain403; page 0 2] =
    (Rejected (Error "HTTP 403: Forbidden"),
     [Sent (request cfg0 (pageUrl cfg0 1) None)], [page 0 2])
  ∧ makeRequest cfg0 (pageUrl cfg0 1) None [Replied badCredentials403; page 0 2] =
    (Rejected (Error "HTTP 403: (json with message)"),
     [Sent (request cfg0 (pageUrl cfg0 1) None)], [page 0 2]).
Proof.
  split_and!.
  - destruct (forbidden_is_fatal cfg0 (pageUrl cfg0 1) None saml403 [page 0 2]
                eq_refl ltac:(vm_compute; discriminate)) as (Hsaml & _).
    apply (Hsaml (list_to_map [("message", VStr samlText)])
             "Resource protected by organization "
             ". You must grant your token access."); reflexivity.
  - destruct (forbidden_is_fatal cfg0 (pageUrl cfg0 1) None plain403 [page 0 2]
                eq_refl ltac:(vm_compute; discriminate))
      as (_ & _ & _ & _ & _ & _ & Hfail & _).
    eapply Hfail. reflexivity.
  - destruct (forbidden_is_fatal cfg0 (pageUrl cfg0 1) None badCredentials403 [page 0 2]
                eq_refl ltac:(vm_compute; discriminate))
      as (_ & _ & Hother & _).
    apply (Hother (list_to_map [("message", VStr "Bad credentials")]) "Bad credentials");
      [reflexivity|reflexivity|apply bad_credentials_names_no_saml].
Defined.

(** ** The pagination driver *)

Section Driver.
Context (cfg : Config).

Lemma makeRequest_2xx u options res v net :
  200 <= statusCode res < 300 →
  parsed res = ParseOk v →
  makeRequest cfg u options (Replied res :: net) =
    (Resolved {| data := v; replyHeaders := headers res; replyStatus := statusCode res |},
     [Sent (request cfg u options)], net).
Proof.
  intros Hs Hp. cbn [makeRequest].
  replace ((200 <=? statusCode res) && (statusCode res <? 300)) with true
    by (symmetry; apply andb_true_iff; lia).
  by rewrite Hp.
Qed.

(** An empty page ends the loop with what has been collected. *)
Lemma pages_empty fuel limit all page res net :
  emptyPage res →
  pages (S fuel) cfg limit all page (Replied res :: net) =
    (Resolved all, [Sent (request cfg (pageUrl cfg page) None)], net).
Proof.
  intros [Hs Hp]. cbn [pages]. by rewrite (makeRequest_2xx _ _ _ _ _ Hs Hp).
Qed.

Lemma pages_good fuel limit all page res stargazers net :
  goodPage res stargazers →
  pages (S fuel) cfg limit all page (Replied res :: net) =
    if limitReached limit (all ++ stargazers) then
      (Resolved (if default 0 limit <? Z.of_nat (length (all ++ stargazers))
                 then slice0 (default 0 limit) (all ++ stargazers)
                 else all ++ stargazers),
       [Sent (request cfg (pageUrl cfg page) None)], net)
    else
      let '(o, tr, rest) := pages fuel cfg limit (all ++ stargazers) (page + 1) net in
      (o, Sent (request cfg (pageUrl cfg page) None) :: Timer (Some 1000) :: tr, rest).
Proof.
  intros (Hs & items & Hp & Hne & Hflat). cbn [pages].
  rewrite (makeRequest_2xx _ _ _ _ _ Hs Hp). cbn [data].
  destruct items as [|i items]; [done|].
  cbn [get flattenPage]. rewrite decide_True by done. cbn [length Z.of_nat].
  rewrite Hflat. destruct (limitReached limit (all ++ stargazers)); [done|].
  by destruct (pages fuel cfg limit (all ++ stargazers) (page + 1) net) as [[o tr] rest].
Qed.

Lemma limitReached_below n all :
  Z.of_nat (length all) < n → limitReached (Some n) all = false.
Proof.
  intros Hlt. unfold limitReached. apply andb_false_iff. right.
  apply Z.leb_gt. lia.
Qed.

Lemma unlimited_not_reached limit total (all : list record) :
  unlimited limit total → (length all <= total)%nat → limitReached limit all = false.
Proof.
  intros [->|(n & -> & Hn)] Hle; [done|]. apply limitReached_below. lia.
Qed.

(** Pages below the limit followed by an empty page: everything is
    collected, in order, and one request per page went out. *)
Lemma pages_until_empty rs recs last net limit :
  Forall2 goodPage rs recs →
  emptyPage last →
  ∀ fuel all page,
    unlimited limit (length (all ++ concat recs)) →
    (length rs < fuel)%nat →
    pages fuel cfg limit all page ((Replied <$> rs) ++ Replied last :: net) =
      (Resolved (all ++ concat recs), pageRequests cfg page (S (length rs)), net).
Proof.
  intros Hgood Hlast. induction Hgood as [|res r rs recs Hres _ IH];
    intros fuel all page Hlim Hfuel.
  - destruct fuel as [|fuel]; [simpl in Hfuel; lia|].
    cbn [fmap list_fmap app concat]. rewrite app_nil_r. by apply pages_empty.
  - destruct fuel as [|fuel]; [simpl in Hfuel; lia|].
    cbn [fmap list_fmap app concat] in *. change (list_fmap _ _ Replied rs) with (Replied <$> rs).
    rewrite (pages_good _ _ _ _ _ _ _ Hres).
    rewrite (unlimited_not_reached limit _ _ Hlim)
      by (rewrite !length_app; lia).
    rewrite IH; [|by rewrite <- app_assoc|simpl in Hfuel; lia].
    rewrite <- app_assoc. cbn [length pageRequests]. done.
Qed.

(** Pages below the limit followed by the page that reaches it: the
    collection is cut to the limit and nothing further is requested. *)
Lemma pages_until_limit rs recs last lastrecs net n :
  Forall2 goodPage rs recs →
  goodPage last lastrecs →
  0 < n →
  ∀ fuel all page,
    Z.of_nat (length (all ++ concat recs)) < n →
    n <= Z.of_nat (length (all ++ concat recs ++ lastrecs)) →
    (length rs < fuel)%nat →
    pages fuel cfg (Some n) all page ((Replied <$> rs) ++ Replied last :: net) =
      (Resolved (take (Z.to_nat n) (all ++ concat recs ++ lastrecs)),
       pageRequests cfg page (S (length rs)), net).
Proof.
  intros Hgood Hlast Hn. induction Hgood as [|res r rs recs Hres _ IH];
    intros fuel all page Hlt Hle Hfuel.
  - destruct fuel as [|fuel]; [simpl in Hfuel; lia|].
    cbn [fmap list_fmap app concat] in *.
    rewrite (pages_good _ _ _ _ _ _ _ Hlast).
    replace (limitReached (Some n) (all ++ lastrecs)) with true.
    2:{ symmetry. unfold limitReached. apply andb_true_iff. split.
        - apply negb_true_iff, Z.eqb_neq. lia.
        - apply Z.leb_le. lia. }
    change (default 0 (Some n)) with n. cbn [pageRequests length].
    f_equal. f_equal. f_equal.
    destruct (n <? Z.of_nat (length (all ++ lastrecs))) eqn:Hcmp.
    + unfold slice0. replace (n <? 0) with false by (symmetry; apply Z.ltb_ge; lia).
      f_equal. apply Z.ltb_lt in Hcmp. lia.
    + apply Z.ltb_ge in Hcmp. rewrite take_ge; [done|lia].
  - destruct fuel as [|fuel]; [simpl in Hfuel; lia|].
    cbn [fmap list_fmap app concat] in *. change (list_fmap _ _ Replied rs) with (Replied <$> rs).
    rewrite (pages_good _ _ _ _ _ _ _ Hres).
    rewrite limitReached_below by (revert Hlt; rewrite !length_app; lia).
    rewrite IH; [|by rewrite <- app_assoc| by rewrite <- !app_assoc in * |simpl in Hfuel; lia].
    rewrite <- !app_assoc. cbn [length pageRequests]. done.
Qed.

End Driver.

(** A request that settles has used up at least one exchange, so the loop
    of [getStargazers] cannot run out of iterations: any number of them above
    the number of exchanges gives the same run. *)
Lemma makeRequest_consumes (cfg : Config) (u : string)
    (options : option (gmap string string)) (net : list Exchange)
    (o : Outcome Reply) (tr : list Event) (rest : list Exchange) :
  makeRequest cfg u options net = (o, tr, rest) → o ≠ Pending →
  (length rest < length net)%nat.
Proof.
  intros Hrun Ho.
  destruct (makeRequest_decided cfg u options net o tr rest Hrun Ho)
    as (limited & x & -> & _).
  rewrite length_app. cbn. lia.
Qed.

Lemma pages_fuel_enough (cfg : Config) (limit : option Z) (fuel1 : nat) :
  ∀ fuel2 all page net,
    (length net < fuel1)%nat → (length net < fuel2)%nat →
    pages fuel1 cfg limit all page net = pages fuel2 cfg limit all page net.
Proof.
  induction fuel1 as [|fuel1 IH]; intros fuel2 all page net H1 H2; [lia|].
  destruct fuel2 as [|fuel2]; [lia|]. cbn [pages].
  destruct (makeRequest cfg (pageUrl cfg page) None net) as [[o tr] rest] eqn:Hreq.
  destruct o as [response|e|]; [|done|done].
  pose proof (makeRequest_consumes _ _ _ _ _ _ _ Hreq ltac:(done)) as Hlen.
  assert (Hnext : ∀ stargazers,
             pages fuel1 cfg limit (all ++ stargazers) (page + 1) rest =
             pages fuel2 cfg limit (all ++ stargazers) (page + 1) rest)
    by (intros; apply IH; lia).
  repeat case_match; simplify_eq; try done; rewrite Hnext in *; congruence.
Qed.

Lemma requestsOf_pageRequests (cfg : Config) (n : nat) :
  ∀ page,
    requestsOf (pageRequests cfg page n)
    = (fun k => request cfg (pageUrl cfg (page + Z.of_nat k)) None) <$> seq 0 n.
Proof.
  induction n as [|n IH]; intros page; [done|].
  cbn [pageRequests seq fmap list_fmap]. rewrite Z.add_0_r.
  destruct n as [|n]; [done|].
  change (requestsOf (Sent ?r :: Timer ?t :: ?tr)) with (r :: requestsOf tr).
  rewrite IH. f_equal. rewrite <- seq_shift, <- list_fmap_compose.
  apply list_fmap_ext. intros _ k _. cbn. do 2 f_equal. lia.
Qed.

(** C1.  [getStargazers] asks for page 1, 2, ... with 100 items per page:
    request number [k] goes to the stargazers URL of the repository with
    the query [?page=k&per_page=100].  When the pages collected stay below
    the limit (or no limit is set) and an empty page follows, it resolves
    with all their records in order, having requested one page more than it
    collected.  When a positive limit is reached with some page, it resolves
    with exactly the first [limit] records and requests nothing after that
    page. *)
Theorem pagination_collects_and_limits (cfg : Config) (rs : list Response)
    (recs : list (list record)) (last : Response) (net : list Exchange) :
  Forall2 goodPage rs recs →
  (∀ limit,
     emptyPage last →
     unlimited limit (length (concat recs)) →
     getStargazers cfg limit ((Replied <$> rs) ++ Replied last :: net) =
       (Resolved (concat recs), pageRequests cfg 1 (S (length rs)), net))
  ∧ (∀ n lastrecs,
       goodPage last lastrecs →
       0 < n →
       Z.of_nat (length (concat recs)) < n <= Z.of_nat (length (concat recs ++ lastrecs)) →
       getStargazers cfg (Some n) ((Replied <$> rs) ++ Replied last :: net) =
         (Resolved (take (Z.to_nat n) (concat recs ++ lastrecs)),
          pageRequests cfg 1 (S (length rs)), net)
       ∧ Z.of_nat (length (take (Z.to_nat n) (concat recs ++ lastrecs))) = n)
  ∧ url <$> requestsOf (pageRequests cfg 1 (S (length rs))) =
      (fun k : nat =>
         ("https://api.github.com/repos/"
            +:+ env_or (STARGAZERS_REPO_OWNER cfg) "SolaceLabs" +:+ "/"
            +:+ env_or (STARGAZERS_REPO_NAME cfg) "solace-agent-mesh" +:+ "/stargazers")
           +:+ "?page=" +:+ pretty (1 + Z.of_nat k) +:+ "&per_page=100")
        <$> seq 0 (S (length rs)).
Proof.
  intros Hgood. split_and!.
  - intros limit Hlast Hlim. unfold getStargazers.
    apply (pages_until_empty cfg rs recs last net limit Hgood Hlast _ [] 1); [done|].
    rewrite length_app, length_fmap. simpl. lia.
  - intros n lastrecs Hlast Hn [Hlt Hle]. split.
    + unfold getStargazers.
      apply (pages_until_limit cfg rs recs last lastrecs net n Hgood Hlast Hn _ [] 1);
        [done|done|].
      rewrite length_app, length_fmap. simpl. lia.
    + rewrite length_take. lia.
  - rewrite requestsOf_pageRequests, <- list_fmap_compose. by apply list_fmap_ext.
Qed.

Lemma flatten_item (name : string) (id : Z) (t : string) :
  flatten (item name id t) = Some (starRecord name id t).
Proof. reflexivity. Qed.

Lemma mapM_flatten_numbered (first n : nat) :
  mapM flatten (numbered first n) = Some (numberedRecords first n).
Proof.
  revert first. induction n as [|n IH]; intros first; [done|].
  unfold numbered, numberedRecords in *. cbn [seq fmap list_fmap mapM].
  rewrite flatten_item. cbn.
  specialize (IH (S first)). cbn [fmap] in IH. by rewrite IH.
Qed.

Lemma goodPage_pageOf (first n : nat) :
  goodPage (pageOf first (S n)) (numberedRecords first (S n)).
Proof.
  split; [cbn; lia|]. exists (numbered first (S n)).
  split_and!; [reflexivity|discriminate|apply mapM_flatten_numbered].
Qed.

Lemma emptyPage_pageOf (first : nat) : emptyPage (pageOf first 0).
Proof. split; [cbn; lia|reflexivity]. Qed.

Lemma numberedRecords_length (first n : nat) : length (numberedRecords first n) = n.
Proof. unfold numberedRecords. by rewrite length_fmap, length_seq. Qed.

(** The two scenarios of the specification: pages of 100, 100 and 37 items
    without a limit give 237 records after four requests, for the pages 1
    to 4 with 100 items each; a limit of 150 over pages of 100 and 100
    stops after the second request with exactly 150 records, the rest of
    the network untouched. *)
Lemma pagination_collects_and_limits_witness :
  (∃ all tr,
     getStargazers cfg0 None [page 0 100; page 100 100; page 200 37; page 0 0] =
       (Resolved all, tr, [])
     ∧ length all = 237%nat
     ∧ url <$> requestsOf tr =
         ["https://api.github.com/repos/SolaceLabs/solace-agent-mesh/stargazers?page=1&per_page=100";
          "https://api.github.com/repos/SolaceLabs/solace-agent-mesh/stargazers?page=2&per_page=100";
          "https://api.github.com/repos/SolaceLabs/solace-agent-mesh/stargazers?page=3&per_page=100";
          "https://api.github.com/repos/SolaceLabs/solace-agent-mesh/stargazers?page=4&per_page=100"])
  ∧ (∃ all tr,
       getStargazers cfg0 (Some 150) [page 0 100; page 100 100; page 200 37; page 0 0] =
         (Resolved all, tr, [page 200 37; page 0 0])
       ∧ Z.of_nat (length all) = 150
       ∧ url <$> requestsOf tr =
           ["https://api.github.com/repos/SolaceLabs/solace-agent-mesh/stargazers?page=1&per_page=100";
            "https://api.github.com/repos/SolaceLabs/solace-agent-mesh/stargazers?page=2&per_page=100"]).
Proof.
  split.
  - destruct (pagination_collects_and_limits cfg0
                [pageOf 0 100; pageOf 100 100; pageOf 200 37]
                [numberedRecords 0 100; numberedRecords 100 100; numberedRecords 200 37]
                (pageOf 0 0) []) as (Hall & _ & Hurls).
    { repeat (apply List.Forall2_cons; [apply goodPage_pageOf|]). apply List.Forall2_nil. }
    exists (concat [numberedRecords 0 100; numberedRecords 100 100; numberedRecords 200 37]).
    eexists. split_and!.
    + exact (Hall None (emptyPage_pageOf 0) (or_introl eq_refl)).
    + cbn [concat]. rewrite !length_app, !numberedRecords_length. reflexivity.
    + rewrite Hurls. reflexivity.
  - destruct (pagination_collects_and_limits cfg0
                [pageOf 0 100] [numberedRecords 0 100]
                (pageOf 100 100) [page 200 37; page 0 0]) as (_ & Hcut & Hurls).
    { repeat (apply List.Forall2_cons; [apply goodPage_pageOf|]). apply List.Forall2_nil. }
    destruct (Hcut 150 (numberedRecords 100 100)) as [Hrun Hlen].
    { apply goodPage_pageOf. }
    { lia. }
    { cbn [concat]. rewrite !length_app, !numberedRecords_length. cbn. lia. }
    eexists _, _. split_and!; [exact Hrun | exact Hlen |].
    rewrite Hurls. reflexivity.
Defined.

(** The login of a record is the login of the user object of its item. *)
Lemma flatten_login (item : gmap string value) (user : gmap string value) (r : record) :
  item !! "user" = Some (VObj user) →
  flatten (VObj item) = Some r →
  login r = prop user "login".
Proof.
  intros Hu Hf. unfold flatten in Hf. cbn in Hf. rewrite Hu in Hf. cbn in Hf.
  injection Hf as <-. unfold login, prop.
  rewrite lookup_insert_ne by done. unfold spread. cbn [ownProps].
  by rewrite (right_id_L ∅ (∪)).
Qed.

(** C4, as the code has it.  [getStargazers] does not deduplicate: for every
    sequence of page responses that ends with an empty page it returns one
    record per item received, in the order received, so the logins of the
    result are exactly the logins of the pages one after the other, and they
    are pairwise distinct only when no login occurs twice in the pages. *)
Theorem accumulator_keeps_every_item (cfg : Config) (rs : list Response)
    (recs : list (list record)) (last : Response) (net : list Exchange) :
  Forall2 goodPage rs recs →
  emptyPage last →
  ∃ all,
    getStargazers cfg None ((Replied <$> rs) ++ Replied last :: net) =
      (Resolved all, pageRequests cfg 1 (S (length rs)), net)
    ∧ logins all = concat (logins <$> recs)
    ∧ length all = sum_list (length <$> recs)
    ∧ (NoDup (logins all) ↔ NoDup (concat (logins <$> recs))).
Proof.
  intros Hgood Hlast. exists (concat recs).
  assert (Hlog : logins (concat recs) = concat (logins <$> recs)).
  { clear. induction recs as [|r recs IH]; [done|].
    cbn [concat fmap list_fmap]. unfold logins at 1. rewrite fmap_app. by f_equal. }
  split_and!.
  - unfold getStargazers.
    apply (pages_until_empty cfg rs recs last net None Hgood Hlast _ [] 1); [by left|].
    rewrite length_app, length_fmap. simpl. lia.
  - done.
  - clear. induction recs as [|r recs IH]; [done|].
    cbn [concat fmap list_fmap sum_list sum_list_with]. rewrite length_app. by f_equal.
  - by rewrite Hlog.
Qed.

Lemma goodPage_ok (items : list value) (stargazers : list record) :
  items ≠ [] →
  mapM flatten items = Some stargazers →
  goodPage {| statusCode := 200; headers := ∅; body := "(json)";
              parsed := ParseOk (VArr items); now := 0 |} stargazers.
Proof. intros Hne Hflat. split; [cbn; lia|]. by exists items. Qed.

Lemma shifted_pages :
  Forall2 goodPage
    [ {| statusCode := 200; headers := ∅; body := "(json)";
         parsed := ParseOk (VArr [item "alice" 1 "2025-02-26T10:00:00Z";
                                  item "octocat" 2 "2025-02-26T11:00:00Z"]);
         now := 0 |};
      {| statusCode := 200; headers := ∅; body := "(json)";
         parsed := ParseOk (VArr [item "octocat" 2 "2025-02-26T11:00:00Z";
                                  item "bob" 3 "2025-02-26T12:00:00Z"]);
         now := 0 |} ]
    [ [starRecord "alice" 1 "2025-02-26T10:00:00Z";
       starRecord "octocat" 2 "2025-02-26T11:00:00Z"];
      [starRecord "octocat" 2 "2025-02-26T11:00:00Z";
       starRecord "bob" 3 "2025-02-26T12:00:00Z"] ].
Proof.
  repeat (apply List.Forall2_cons;
          [apply goodPage_ok;
           [discriminate|cbn [mapM]; rewrite !flatten_item; reflexivity]|]).
  apply List.Forall2_nil.
Qed.

Lemma login_starRecord (name : string) (id : Z) (t : string) :
  login (starRecord name id t) = VStr name.
Proof. reflexivity. Qed.

Lemma accumulator_keeps_every_item_witness :
  ∃ all tr,
    getStargazers cfg0 None shifted = (Resolved all, tr, [])
    ∧ logins all = [VStr "alice"; VStr "octocat"; VStr "octocat"; VStr "bob"].
Proof.
  destruct (accumulator_keeps_every_item cfg0 _ _
              {| statusCode := 200; headers := ∅; body := "(json)";
                 parsed := ParseOk (VArr []); now := 0 |} [] shifted_pages)
    as (all & Hrun & Hlog & _).
  { split; [cbn; lia|reflexivity]. }
  exists all, (pageRequests cfg0 1 3). split; [exact Hrun|].
  rewrite Hlog. reflexivity.
Defined.

(** C4 as stated fails: when the same user appears on two pages, the
    returned list holds two records with that login. *)
Lemma duplicate_login_is_returned :
  ∃ all tr rest,
    getStargazers cfg0 None shifted = (Resolved all, tr, rest)
    ∧ ¬ NoDup (logins all).
Proof.
  eexists _, _, _. split.
  - unfold getStargazers.
    apply (pages_until_empty cfg0 _ _
             {| statusCode := 200; headers := ∅; body := "(json)";
                parsed := ParseOk (VArr []); now := 0 |} [] None shifted_pages).
    + split; [cbn; lia|reflexivity].
    + by left.
    + cbn. lia.
  - cbn [app concat logins fmap list_fmap]. rewrite !login_starRecord.
    intros Hnd. apply NoDup_cons in Hnd as [_ Hnd].
    apply NoDup_cons in Hnd as [Hin _]. apply Hin. left.
Qed.

(** ** Command-line options *)

(** Induction along the way the loop consumes its arguments: one at a time,
    or two when an option takes a value. *)
Lemma args_ind (P : list string → Prop) :
  P [] →
  (∀ arg rest, P rest → (∀ v rest', rest = v :: rest' → P rest') → P (arg :: rest)) →
  ∀ args, P args.
Proof.
  intros Hnil Hcons args.
  enough (P args ∧ ∀ v rest', args = v :: rest' → P rest') as [? _] by done.
  induction args as [|arg rest [IH1 IH2]]; [by split|].
  split; [by apply Hcons|]. by intros v rest' [= _ <-].
Qed.

Lemma parseArgs_limit args :
  ∀ options, limitIsPositive options → limitIsPositive (parseArgs args options).1.
Proof.
  induction args as [|arg rest IH1 IH2] using args_ind; intros options Hpos; [done|].
  cbn [parseArgs].
  repeat case_match; simplify_eq; cbn [fst]; try done;
    try (apply IH1; done);
    try (eapply IH2; [done|done]).
  eapply IH2; [done|]. right. eexists. split; [done|].
  match goal with H : _ && _ = true |- _ => apply andb_prop in H as [_ H%Z.ltb_lt] end.
  done.
Qed.

Lemma parseArgs_printed args :
  ∀ options, (parseArgs args options).2 ≠ [] → optHelp (parseArgs args options).1 = true.
Proof.
  induction args as [|arg rest IH1 IH2] using args_ind; intros options; [done|].
  cbn [parseArgs].
  repeat case_match; simplify_eq; cbn [fst snd]; try done;
    try (apply IH1); try (eapply IH2; done).
Qed.

Lemma validate_limit (p : Options * list Line) :
  optLimit (validate p).1 = optLimit p.1.
Proof.
  destruct p as [o out]. unfold validate.
  destruct ((given (optFrom o) || given (optTo o)) && negb (given (optDate o)));
    cbn [optFrom optTo withHelp];
    destruct ((given (optFrom o) && negb (given (optTo o))) ||
              (negb (given (optFrom o)) && given (optTo o))); done.
Qed.

Lemma validate_printed (p : Options * list Line) :
  (optHelp p.1 = true ∨ p.2 = []) →
  (validate p).2 ≠ [] → optHelp (validate p).1 = true.
Proof.
  destruct p as [o out]. unfold validate. cbn [fst snd].
  intros Hp.
  destruct ((given (optFrom o) || given (optTo o)) && negb (given (optDate o)));
    cbn [optFrom optTo withHelp];
    destruct ((given (optFrom o) && negb (given (optTo o))) ||
              (negb (given (optFrom o)) && given (optTo o)));
    cbn [fst snd optHelp withHelp]; try done.
  destruct Hp as [Hh| ->]; done.
Qed.

Lemma parseArgs_limit_option (opt v : string) (rest : list string) (options : Options) :
  opt = "--limit" ∨ opt = "-l" →
  parseArgs (opt :: v :: rest) options =
    match parseInt v None with
    | Some limitValue =>
        if negb (limitValue =? 0) && (0 <? limitValue)
        then parseArgs rest (withLimit limitValue options)
        else (withHelp options, [InvalidLimit (Some v)])
    | None => (withHelp options, [InvalidLimit (Some v)])
    end.
Proof. intros [-> | ->]; reflexivity. Qed.

Lemma parseOptions_printed (args : list string) :
  (parseOptions args).2 ≠ [] → optHelp (parseOptions args).1 = true.
Proof.
  unfold parseOptions. apply validate_printed.
  destruct (parseArgs args defaults).2 eqn:Hout; [by right|].
  left. apply parseArgs_printed. by rewrite Hout.
Qed.

(** C7, as the code has it.  Every validation failure prints its error line
    and the usage message and ends the process before [main] runs, with exit
    status 0, the status of the help path.  A [--limit] value that does not
    read as a positive number is such a failure wherever the loop meets it,
    so [getStargazers] is only ever called with a null or a positive
    limit. *)
Theorem invalid_options_exit_before_main (rt : Runtime) (proceed : bool)
    (args : list string) :
  (∀ options printed,
     parseOptions args = (options, printed) → printed ≠ [] →
     script rt proceed args = Exit 0 (printed ++ [Usage]))
  ∧ (∀ opt v rest options,
       opt = "--limit" ∨ opt = "-l" →
       (∀ n, parseInt v None = Some n → n <= 0) →
       parseArgs (opt :: v :: rest) options = (withHelp options, [InvalidLimit (Some v)])
       ∧ script rt proceed (opt :: v :: rest) = Exit 0 [InvalidLimit (Some v); Usage])
  ∧ (∀ limit options,
       script rt proceed args = CallsGetStargazers limit options →
       limit = None ∨ ∃ n, limit = Some n ∧ 0 < n).
Proof.
  split_and!.
  - intros options printed Hparse Hne. unfold script. rewrite Hparse.
    pose proof (parseOptions_printed args) as Hhelp. rewrite Hparse in Hhelp.
    cbn [fst snd] in Hhelp. by rewrite (Hhelp Hne).
  - intros opt v rest options Hopt Hbad.
    assert (Hstep : ∀ o, parseArgs (opt :: v :: rest) o = (withHelp o, [InvalidLimit (Some v)])).
    { intros o. rewrite parseArgs_limit_option by done.
      destruct (parseInt v None) as [n|] eqn:Hn; [|done].
      specialize (Hbad n eq_refl).
      replace (0 <? n) with false by (symmetry; apply Z.ltb_ge; lia).
      by rewrite andb_false_r. }
    split; [apply Hstep|].
    unfold script, parseOptions. by rewrite Hstep.
  - intros limit options Hrun. unfold script in Hrun.
    destruct (parseOptions args) as [o printed] eqn:Hparse.
    assert (Hpos : limitIsPositive o).
    { pose proof (parseArgs_limit args defaults (or_introl eq_refl)) as Hpos.
      unfold limitIsPositive in *. unfold parseOptions in Hparse.
      rewrite <- (validate_limit (parseArgs args defaults)), Hparse in Hpos. done. }
    repeat case_match; simplify_eq. done.
Qed.

Lemma invalid_options_exit_before_main_witness :
  script hostUTC false ["--sort"; "asc"; "--limit"; "-5"] =
    Exit 0 [InvalidLimit (Some "-5"); Usage]
  ∧ script hostUTC false ["-l"; "abc"; "--sort"; "asc"] =
    Exit 0 [InvalidLimit (Some "abc"); Usage].
Proof.
  split.
  - destruct (invalid_options_exit_before_main hostUTC false
                ["--sort"; "asc"; "--limit"; "-5"]) as (Hexit & _ & _).
    apply (Hexit (withHelp (withSort "asc" defaults)) [InvalidLimit (Some "-5")]);
      [reflexivity|discriminate].
  - destruct (invalid_options_exit_before_main hostUTC false []) as (_ & Hlimit & _).
    apply (Hlimit "-l" "abc" ["--sort"; "asc"] defaults); [by right|].
    intros n Hn. discriminate Hn.
Defined.

(** C7 as stated fails: [--limit 0] is rejected and the usage is printed,
    but the process exits with status 0, not with a non-zero status. *)
Lemma limit_zero_exits_with_status_zero :
  script hostUTC false ["--limit"; "0"] = Exit 0 [InvalidLimit (Some "0"); Usage]
  ∧ ¬ ∃ code printed,
        code ≠ 0 ∧ script hostUTC false ["--limit"; "0"] = Exit code printed.
Proof.
  split; [reflexivity|]. intros (code & printed & Hcode & Hrun).
  change (script hostUTC false ["--limit"; "0"])
    with (Exit 0 [InvalidLimit (Some "0"); Usage]) in Hrun.
  injection Hrun as <- _. done.
Qed.

(** ** The enrichment batcher *)

Section Enrichment.
Context (cfg : Config).

Lemma getDetailedUserInfo_cases username net :
  match (makeRequest cfg (userUrl username) None net).1.1 with
  | Resolved response => getDetailedUserInfo cfg username net = Resolved (data response)
  | Rejected _ => getDetailedUserInfo cfg username net = Resolved VNull
  | Pending => getDetailedUserInfo cfg username net = Pending
  end.
Proof.
  unfold getDetailedUserInfo.
  by destruct (makeRequest cfg (userUrl username) None net) as [[[r|e|] tr] rest].
Qed.

Lemma getDetailedUserInfo_not_rejected username net e :
  getDetailedUserInfo cfg username net ≠ Rejected e.
Proof.
  unfold getDetailedUserInfo.
  by destruct (makeRequest cfg (userUrl username) None net) as [[[r|e'|] tr] rest].
Qed.

(** Spreading null or undefined over a copy of a record gives the record. *)
Lemma spread_nothing (stargazer : record) (v : value) :
  ownProps v = ∅ → spread (spread ∅ (VObj stargazer)) v = stargazer.
Proof.
  intros Hv. unfold spread. rewrite Hv. cbn [ownProps].
  by rewrite (left_id_L ∅ (∪)), (right_id_L ∅ (∪)).
Qed.

Lemma spread_copy (stargazer : record) (v : value) :
  spread (spread ∅ (VObj stargazer)) v = spread stargazer v.
Proof. unfold spread. cbn [ownProps]. by rewrite (right_id_L ∅ (∪)). Qed.

Lemma enrichOne_cases stargazer net :
  match (makeRequest cfg (userUrl (prop stargazer "login")) None net).1.1 with
  | Resolved response =>
      enrichOne cfg stargazer net = Resolved (spread stargazer (data response), TryBlock)
  | Rejected _ => enrichOne cfg stargazer net = Resolved (stargazer, TryBlock)
  | Pending => enrichOne cfg stargazer net = Pending
  end.
Proof.
  unfold enrichOne.
  pose proof (getDetailedUserInfo_cases (prop stargazer "login") net) as Hinfo.
  destruct ((makeRequest cfg (userUrl (prop stargazer "login")) None net).1.1);
    rewrite Hinfo; [by rewrite spread_copy| by rewrite spread_nothing |done].
Qed.

Lemma enrichOne_settles stargazer net :
  settles cfg stargazer net →
  enrichOne cfg stargazer net = Resolved (enrichedRecord cfg stargazer net, TryBlock).
Proof.
  unfold settles, enrichedRecord. intros Hs.
  pose proof (enrichOne_cases stargazer net) as Hc.
  destruct ((makeRequest cfg (userUrl (prop stargazer "login")) None net).1.1);
    [by rewrite Hc|by rewrite Hc|done].
Qed.

Lemma fst_pair_fmap {A B} (b : B) (l : list A) :
  fst <$> ((fun r => (r, b)) <$> l) = l.
Proof. induction l as [|x l IH]; [done|]. cbn. by rewrite IH. Qed.

Lemma Promise_all_resolved {A} (ps : list (Outcome A)) (l : list A) :
  Forall2 (fun p a => p = Resolved a) ps l → Promise_all ps = Resolved l.
Proof.
  induction 1 as [|p a ps l -> _ IH]; [done|]. cbn [Promise_all]. by rewrite IH.
Qed.

Context (stargazers : list record) (net : nat -> list Exchange).
Hypothesis all_settle :
  ∀ k s, stargazers !! k = Some s → settles cfg s (net k).

(** What the batcher returns: each record enriched in place. *)
Let outputs : list record :=
  imap (fun k s => enrichedRecord cfg s (net k)) stargazers.

Lemma batch_resolves i :
  Promise_all (imap (fun batchIndex stargazer =>
                       enrichOne cfg stargazer (net (i + batchIndex)%nat))
                    (batchAt stargazers i)) =
  Resolved ((fun r => (r, TryBlock)) <$> take batchSize (drop i outputs)).
Proof.
  apply Promise_all_resolved. apply Forall2_same_length_lookup_2.
  { unfold batchAt, outputs.
    by rewrite length_imap, length_fmap, !length_take, !length_drop,
      length_imap. }
  intros j p a Hp Ha. rewrite list_lookup_imap in Hp.
  unfold batchAt in Hp. rewrite list_lookup_fmap in Ha.
  destruct (take batchSize (drop i stargazers) !! j) as [s|] eqn:Hs; [|done].
  cbn in Hp. injection Hp as <-.
  apply lookup_take_Some in Hs as [Hs Hj]. rewrite lookup_drop in Hs.
  rewrite lookup_take_lt, lookup_drop in Ha by done.
  unfold outputs in Ha. rewrite list_lookup_imap, Hs in Ha. cbn in Ha.
  injection Ha as <-. apply enrichOne_settles. by apply all_settle.
Qed.

Lemma batches_run fuel :
  ∀ i enriched,
    (0 < fuel)%nat → (length stargazers < fuel + i)%nat →
    (batches fuel cfg stargazers net i enriched).1 = Resolved (enriched ++ drop i outputs).
Proof.
  induction fuel as [|fuel IH]; intros i enriched Hpos Hfuel; [lia|].
  cbn [batches]. destruct (i <? length stargazers)%nat eqn:Hi.
  - rewrite batch_resolves.
    destruct (batches fuel cfg stargazers net (i + batchSize)%nat _) as [o steps] eqn:Hrec.
    cbn [fst]. change o with (o, steps).1. rewrite <- Hrec.
    apply Nat.ltb_lt in Hi.
    destruct fuel as [|fuel']; [lia|].
    rewrite IH by (unfold batchSize; lia).
    rewrite <- app_assoc. f_equal.
    rewrite fst_pair_fmap.
    by rewrite <- drop_drop, take_drop.
  - cbn [fst]. apply Nat.ltb_ge in Hi.
    rewrite drop_ge; [by rewrite app_nil_r|].
    unfold outputs. by rewrite length_imap.
Qed.

Lemma batches_steps fuel :
  ∀ i enriched j,
    (0 < fuel)%nat → (length stargazers < fuel + i)%nat →
    batchesOf (batches fuel cfg stargazers net i enriched).2 !! j =
      if (i + j * batchSize <? length stargazers)%nat
      then Some (batchAt stargazers (i + j * batchSize)) else None.
Proof.
  induction fuel as [|fuel IH]; intros i enriched j Hpos Hfuel; [lia|].
  cbn [batches]. destruct (i <? length stargazers)%nat eqn:Hi.
  - rewrite batch_resolves.
    destruct (batches fuel cfg stargazers net (i + batchSize)%nat _) as [o steps] eqn:Hrec.
    cbn [snd]. apply Nat.ltb_lt in Hi.
    destruct fuel as [|fuel']; [lia|].
    assert (Hb : batchesOf (Batch (batchAt stargazers i) ::
                            (if (i + batchSize <? length stargazers)%nat
                             then [Pause 2000] else []) ++ steps) =
                 batchAt stargazers i :: batchesOf steps).
    { unfold batchesOf. cbn [omap list_omap]. f_equal.
      by destruct (i + batchSize <? length stargazers)%nat. }
    rewrite Hb. destruct j as [|j].
    + cbn [lookup list_lookup]. rewrite Nat.add_0_r.
      by rewrite (proj2 (Nat.ltb_lt _ _) Hi).
    + cbn [lookup list_lookup]. change steps with (o, steps).2. rewrite <- Hrec.
      rewrite IH by (unfold batchSize; lia).
      by replace (i + batchSize + j * batchSize)%nat with (i + S j * batchSize)%nat by lia.
  - cbn [snd]. apply Nat.ltb_ge in Hi.
    replace (i + j * batchSize <? length stargazers)%nat with false
      by (symmetry; apply Nat.ltb_ge; lia).
    by destruct j.
Qed.

End Enrichment.

(** C8.  When every per-user request gets an answer, good or bad,
    [enrichStargazersData] resolves with a list as long as its input in
    which the entry at each index comes from the record at that index: the
    record itself when its fetch failed, the record with the profile spread
    over it when the fetch succeeded.  The work is done in batches of 50:
    batch number [j] is the slice of the input from index [50 j] to
    [50 j + 50]. *)
Theorem enrichment_keeps_length_and_order (cfg : Config) (stargazers : list record)
    (net : nat -> list Exchange) :
  (∀ k s, stargazers !! k = Some s → settles cfg s (net k)) →
  ∃ enriched steps,
    enrichStargazersData cfg stargazers net = (Resolved enriched, steps)
    ∧ length enriched = length stargazers
    ∧ (∀ k s, stargazers !! k = Some s →
         (fetchFails cfg s (net k) → enriched !! k = Some s)
         ∧ (∀ info, fetchGives cfg s (net k) info →
              enriched !! k = Some (spread s info)))
    ∧ (∀ j, batchesOf steps !! j =
            if (j * 50 <? length stargazers)%nat
            then Some (take 50 (drop (j * 50) stargazers)) else None).
Proof.
  intros Hsettle.
  pose proof (batches_run cfg stargazers net Hsettle (S (length stargazers)) 0%nat []
                ltac:(lia) ltac:(lia)) as Hrun.
  pose proof (fun j => batches_steps cfg stargazers net Hsettle (S (length stargazers))
                         0%nat [] j ltac:(lia) ltac:(lia)) as Hsteps.
  unfold enrichStargazersData.
  destruct (batches (S (length stargazers)) cfg stargazers net 0 []) as [o steps].
  cbn [fst snd] in Hrun, Hsteps. subst o. rewrite drop_0, app_nil_l.
  eexists _, steps. split_and!; [done| by rewrite length_imap | |].
  - intros k s Hk. rewrite list_lookup_imap, Hk. cbn.
    pose proof (enrichOne_cases cfg s (net k)) as Hc. unfold enrichedRecord. split.
    + intros (e & tr & rest & Hreq). rewrite Hreq in Hc. cbn in Hc. by rewrite Hc.
    + intros info (r & tr & rest & Hreq & <-). rewrite Hreq in Hc. cbn in Hc.
      by rewrite Hc.
  - intros j. by rewrite Hsteps.
Qed.

Lemma fifty_lookup (k : nat) :
  (k < 50)%nat →
  fifty !! k = Some (starRecord ("user" +:+ pretty k) (Z.of_nat k) "2025-02-26T12:00:00Z").
Proof.
  intros Hk. unfold fifty, numberedRecords.
  rewrite list_lookup_fmap, lookup_seq_lt by done. done.
Qed.

Lemma notFound_rejects (u : string) :
  makeRequest cfg0 u None [notFound] =
    (Rejected (HttpError 404 "Not Found"), [Sent (request cfg0 u None)], []).
Proof. reflexivity. Qed.

Lemma profile_resolves (u : string) (k : nat) :
  makeRequest cfg0 u None [ok (profile k)] =
    (Resolved {| data := profile k; replyHeaders := ∅; replyStatus := 200 |},
     [Sent (request cfg0 u None)], []).
Proof. reflexivity. Qed.

Lemma profile_adds_name (name : string) (id : Z) (t : string) (k : nat) :
  spread (starRecord name id t) (profile k) ≠ starRecord name id t.
Proof.
  intros Heq. apply (f_equal (fun r : record => r !! "name")) in Heq.
  discriminate Heq.
Qed.

(** The scenario of the specification: a batch of 50 in which three fetches
    fail gives 50 entries, of which exactly those three equal their base
    records. *)
Lemma enrichment_keeps_length_and_order_witness :
  ∃ enriched steps,
    enrichStargazersData cfg0 fifty fiftyNet = (Resolved enriched, steps)
    ∧ length enriched = 50%nat
    ∧ batchesOf steps = [fifty]
    ∧ ∀ k, (k < 50)%nat → (enriched !! k = fifty !! k ↔ k ∈ [3; 17; 42]%nat).
Proof.
  destruct (enrichment_keeps_length_and_order cfg0 fifty fiftyNet)
    as (enriched & steps & Hrun & Hlen & Hitems & Hbatches).
  { intros k s _. unfold settles, fiftyNet.
    destruct (bool_decide (k ∈ [3; 17; 42]%nat));
      [by rewrite notFound_rejects | by rewrite profile_resolves]. }
  exists enriched, steps. split_and!; [done|done| |].
  - apply list_eq. intros [|j].
    + rewrite (Hbatches 0%nat). reflexivity.
    + rewrite (Hbatches (S j)). cbn [lookup list_lookup].
      replace (S j * 50 <? length fifty)%nat with false; [by destruct j|].
      symmetry. apply Nat.ltb_ge. cbn. lia.
  - intros k Hk. rewrite (fifty_lookup k Hk).
    destruct (Hitems k _ (fifty_lookup k Hk)) as [Hfail Hgive].
    unfold fetchFails, fetchGives, fiftyNet in Hfail, Hgive.
    destruct (bool_decide (k ∈ [3; 17; 42]%nat)) eqn:Hin.
    + apply bool_decide_eq_true in Hin. split; [done|]. intros _.
      apply Hfail. eexists _, _, _. apply notFound_rejects.
    + apply bool_decide_eq_false in Hin. split; [|done]. intros Heq.
      rewrite (Hgive (profile k)) in Heq.
      2:{ eexists _, _, _. split; [apply profile_resolves|done]. }
      apply (inj Some) in Heq. by apply profile_adds_name in Heq.
Defined.

(** C10.  [getDetailedUserInfo] never rejects: it resolves with the data of
    the reply, resolves with null when the request fails, and stays pending
    only while the request does.  So the callback of the batcher always
    returns from its try block, never from its catch block, and a failed
    fetch leaves the record as it was, because spreading null adds
    nothing. *)
Theorem detailed_info_never_rejects (cfg : Config) (username : value)
    (stargazer : record) (net : list Exchange) :
  (∀ e, getDetailedUserInfo cfg username net ≠ Rejected e)
  ∧ (∀ e tr rest,
       makeRequest cfg (userUrl username) None net = (Rejected e, tr, rest) →
       getDetailedUserInfo cfg username net = Resolved VNull)
  ∧ (∀ e, enrichOne cfg stargazer net ≠ Rejected e)
  ∧ (∀ r branch, enrichOne cfg stargazer net = Resolved (r, branch) → branch = TryBlock)
  ∧ spread (spread ∅ (VObj stargazer)) VNull = stargazer
  ∧ (fetchFails cfg stargazer net →
       enrichOne cfg stargazer net = Resolved (stargazer, TryBlock)).
Proof.
  pose proof (enrichOne_cases cfg stargazer net) as Hc.
  split_and!.
  - intros e. apply getDetailedUserInfo_not_rejected.
  - intros e tr rest Hreq.
    pose proof (getDetailedUserInfo_cases cfg username net) as Hi.
    rewrite Hreq in Hi. done.
  - intros e.
    destruct ((makeRequest cfg (userUrl (prop stargazer "login")) None net).1.1);
      by rewrite Hc.
  - intros r branch.
    destruct ((makeRequest cfg (userUrl (prop stargazer "login")) None net).1.1);
      rewrite Hc; congruence.
  - by apply spread_nothing.
  - intros (e & tr & rest & Hreq). rewrite Hreq in Hc. done.
Qed.

Lemma detailed_info_never_rejects_witness :
  getDetailedUserInfo cfg0 (VStr "ghost") [notFound] = Resolved VNull
  ∧ enrichOne cfg0 (starRecord "ghost" 9 "2025-02-26T12:00:00Z") [notFound] =
      Resolved (starRecord "ghost" 9 "2025-02-26T12:00:00Z", TryBlock).
Proof.
  destruct (detailed_info_never_rejects cfg0 (VStr "ghost")
              (starRecord "ghost" 9 "2025-02-26T12:00:00Z") [notFound])
    as (_ & Hnull & _ & _ & _ & Hbase).
  split.
  - exact (Hnull _ _ _ (notFound_rejects (userUrl (VStr "ghost")))).
  - apply Hbase. eexists _, _, _. apply notFound_rejects.
Defined.

(** ** Sorting *)

Lemma sort_insert_perm {A} (cmp : A → A → option Z) (x : A) (l : list A) :
  sort_insert cmp x l ≡ₚ x :: l.
Proof.
  induction l as [|y l IH]; [done|]. cbn [sort_insert].
  destruct (0 <? default 0 (cmp x y)); [|done].
  rewrite IH. apply Permutation_swap.
Qed.

Lemma sort_perm {A} (cmp : A → A → option Z) (l : list A) : JS.sort cmp l ≡ₚ l.
Proof.
  induction l as [|x l IH]; [done|]. cbn [JS.sort].
  by rewrite sort_insert_perm, IH.
Qed.

(** ** The filter and sort stage *)

Section FilterStage.
Context (rt : Runtime).

(** A record that passes the date filter has a valid date, and so a time
    of day. *)
Lemma onDate_valid date stargazer :
  onDate rt date stargazer = true → ∃ t, starredDate rt stargazer = Some t.
Proof.
  unfold onDate, num_ge. intros [H _]%andb_prop.
  destruct (starredDate rt stargazer) as [t|]; [by exists t|done].
Qed.

Lemma totalSeconds_valid t timezone :
  ∃ secs, totalSeconds (getTimeInTimezone rt (Some t) timezone) = Some secs.
Proof.
  unfold getTimeInTimezone. destruct (given timezone); [|by eexists].
  destruct (negb _); [by eexists|]. cbn.
  destruct (Intl_hms rt _ t) as [[[h m] s]|]; by eexists.
Qed.

Lemma inWindow_bounds options stargazer f u t :
  bound (optFrom options) = Some (Some f) →
  bound (optTo options) = Some (Some u) →
  starredTime rt options stargazer = Some t →
  inWindow rt options stargazer = (f <=? t) && (t <=? u).
Proof.
  intros Hf Hu Ht. unfold inWindow. rewrite Hf, Hu, Ht. unfold num_gt, num_lt.
  by rewrite !Z.ltb_antisym, !negb_involutive.
Qed.

Lemma filter_ext_in {A} (P Q : A → bool) (l : list A) :
  (∀ x, x ∈ l → P x = Q x) → List.filter P l = List.filter Q l.
Proof.
  induction l as [|x l IH]; intros H; [done|]. cbn.
  rewrite (H x) by left. rewrite IH; [done|]. intros y Hy. apply H. by right.
Qed.

Lemma filter_filter {A} (P Q : A → bool) (l : list A) :
  List.filter Q (List.filter P l) = List.filter (fun x => P x && Q x) l.
Proof.
  induction l as [|x l IH]; [done|]. cbn.
  destruct (P x); cbn; [|done]. destruct (Q x); by rewrite IH.
Qed.

(** With a date and both bounds, the stage is the sort of one filter. *)
Lemma filterAndSort_window stargazers options date f u :
  optDate options = Some date → given (Some date) = true →
  bound (optFrom options) = Some (Some f) →
  bound (optTo options) = Some (Some u) →
  filterAndSortStargazers rt stargazers options =
    JS.sort (byStarredAt rt options)
      (List.filter (onDateInWindow rt options date f u) stargazers).
Proof.
  intros Hd Hg Hf Hu. unfold filterAndSortStargazers. rewrite Hd, Hg.
  assert (Hfrom : given (optFrom options) = true).
  { unfold bound in Hf. by destruct (given (optFrom options)). }
  rewrite Hfrom. cbn [orb default from_option id]. f_equal.
  rewrite filter_filter. apply filter_ext_in. intros s _.
  unfold onDateInWindow. destruct (onDate rt date s) eqn:Hon; [|done]. cbn.
  destruct (onDate_valid _ _ Hon) as [t Ht].
  destruct (totalSeconds_valid t (optTimezone options)) as [secs Hsecs].
  assert (Hst : starredTime rt options s = Some secs).
  { unfold starredTime. by rewrite Ht. }
  by rewrite (inWindow_bounds _ _ _ _ _ Hf Hu Hst), Hst.
Qed.

(** With a date and no bound, the stage is the sort of the date filter. *)
Lemma filterAndSort_date stargazers options date :
  optDate options = Some date → given (Some date) = true →
  given (optFrom options) = false → given (optTo options) = false →
  filterAndSortStargazers rt stargazers options =
    JS.sort (byStarredAt rt options) (List.filter (onDate rt date) stargazers).
Proof.
  intros Hd Hg Hf Hu. unfold filterAndSortStargazers.
  by rewrite Hd, Hg, Hf, Hu.
Qed.

(** The window of the date filter: from the start of the local day of the
    parsed date to the same time a day later. *)
Lemma onDate_window date stargazer t0 :
  Date_parse rt date = Some t0 →
  onDate rt date stargazer = true ↔
  ∃ t, starredDate rt stargazer = Some t
       ∧ setHours0 rt t0 <= t < setHours0 rt t0 + msPerDay.
Proof.
  intros Hp. unfold onDate, targetDate, nextDate, targetDate. cbn [new_Date].
  rewrite Hp. cbn. unfold num_ge, num_lt, nextDay.
  destruct (starredDate rt stargazer) as [t|].
  - rewrite andb_true_iff, Z.leb_le, Z.ltb_lt. split.
    + intros [? ?]. exists t. by split.
    + intros (t' & [= <-] & ? & ?). done.
  - split; [done|]. by intros (t' & ? & _).
Qed.

(** Where the local zone is at or ahead of UTC, the day of a date parsed
    as midnight UTC starts at the local midnight of that date. *)
Lemma setHours0_east t0 :
  t0 mod msPerDay = 0 → 0 <= tzOffset rt < msPerDay →
  setHours0 rt t0 = t0 - tzOffset rt.
Proof.
  intros Hmid Hoff. unfold setHours0.
  assert (Hmod : (t0 + tzOffset rt) mod msPerDay = tzOffset rt).
  { rewrite <- Z.add_mod_idemp_l, Hmid by (unfold msPerDay; lia).
    apply Z.mod_small. lia. }
  rewrite Hmod. lia.
Qed.

(** Where the local zone is behind UTC, it starts at the local midnight of
    the day before. *)
Lemma setHours0_west t0 :
  t0 mod msPerDay = 0 → - msPerDay < tzOffset rt < 0 →
  setHours0 rt t0 = t0 - msPerDay - tzOffset rt.
Proof.
  intros Hmid Hoff. unfold setHours0.
  assert (Hmod : (t0 + tzOffset rt) mod msPerDay = tzOffset rt + msPerDay).
  { replace (t0 + tzOffset rt) with ((tzOffset rt + msPerDay) + (t0 / msPerDay - 1) * msPerDay).
    - rewrite Z.mod_add by (unfold msPerDay; lia). apply Z.mod_small. lia.
    - pose proof (Z.div_mod t0 msPerDay ltac:(unfold msPerDay; lia)). lia. }
  rewrite Hmod. lia.
Qed.

End FilterStage.

Lemma elem_of_List_filter {A} (P : A → bool) (l : list A) (x : A) :
  x ∈ List.filter P l ↔ x ∈ l ∧ P x = true.
Proof. rewrite !list_elem_of_In. apply filter_In. Qed.

(** C5.  With both bounds present, and the date they come with, the stage
    turns the starred_at of each record of that day into seconds since
    midnight on the wall clock of the target zone (of the local zone when no
    zone is given) and keeps exactly those whose time lies between
    [fromTime] and [toTime]; both bounds are included, so a record that
    falls exactly on one of them is kept. *)
Theorem time_window_is_closed (rt : Runtime) (stargazers : list record)
    (options : Options) (date : string) (f u : Z) :
  optDate options = Some date → given (Some date) = true →
  bound (optFrom options) = Some (Some f) →
  bound (optTo options) = Some (Some u) →
  filterAndSortStargazers rt stargazers options ≡ₚ
    List.filter (onDateInWindow rt options date f u) stargazers
  ∧ (∀ s, s ∈ filterAndSortStargazers rt stargazers options ↔
          s ∈ stargazers ∧ onDate rt date s = true
          ∧ ∃ t, starredTime rt options s = Some t ∧ f <= t <= u)
  ∧ (∀ s t, s ∈ stargazers → onDate rt date s = true →
            starredTime rt options s = Some t → f <= u → t = f ∨ t = u →
            s ∈ filterAndSortStargazers rt stargazers options)
  ∧ (∀ s t tz h m sec,
       starredDate rt s = Some t →
       optTimezone options = Some tz → given (Some tz) = true →
       Intl_supported rt tz = true → Intl_hms rt tz t = Some (h, m, sec) →
       starredTime rt options s = Some (h * 3600 + m * 60 + sec))
  ∧ (∀ s t,
       starredDate rt s = Some t → optTimezone options = None →
       starredTime rt options s =
         Some (getHours rt t * 3600 + getMinutes rt t * 60 + getSeconds rt t)).
Proof.
  intros Hd Hg Hf Hu.
  assert (Hmem : ∀ s, s ∈ filterAndSortStargazers rt stargazers options ↔
                      s ∈ stargazers ∧ onDate rt date s = true
                      ∧ ∃ t, starredTime rt options s = Some t ∧ f <= t <= u).
  { intros s. rewrite (filterAndSort_window rt _ _ _ _ _ Hd Hg Hf Hu).
    rewrite sort_perm, elem_of_List_filter. unfold onDateInWindow.
    rewrite andb_true_iff. split.
    - intros (Hin & Hon & Hw). split_and!; [done|done|].
      destruct (starredTime rt options s) as [t|]; [|done].
      exists t. split; [done|]. apply andb_prop in Hw as [?%Z.leb_le ?%Z.leb_le]. lia.
    - intros (Hin & Hon & t & Ht & Hft & Htu). split_and!; [done|done|].
      rewrite Ht. apply andb_true_iff. split; apply Z.leb_le; lia. }
  split_and!.
  - rewrite (filterAndSort_window rt _ _ _ _ _ Hd Hg Hf Hu). apply sort_perm.
  - done.
  - intros s t Hin Hon Ht Hfu Hb. apply Hmem. split_and!; [done|done|].
    exists t. split; [done|]. lia.
  - intros s t tz h m sec Ht Htz Hgz Hsup Hhms. unfold starredTime, getTimeInTimezone.
    rewrite Ht, Htz, Hgz. cbn [default from_option id]. unfold validateTimezone.
    rewrite Hsup. cbn. by rewrite Hhms.
  - intros s t Ht Htz. unfold starredTime, getTimeInTimezone. by rewrite Ht, Htz.
Qed.

(** With [--date 2025-02-26 --from 09:00 --to 17:00 --timezone UTC], the
    stars of 09:00:00 and of 17:00:00 are kept and the star of 17:00:01 is
    not. *)
Lemma time_window_is_closed_witness :
  atNine ∈ filterAndSortStargazers hostUTC [atNine; atFive; pastFive; nextMorning] officeHours
  ∧ atFive ∈ filterAndSortStargazers hostUTC [atNine; atFive; pastFive; nextMorning] officeHours
  ∧ pastFive ∉ filterAndSortStargazers hostUTC [atNine; atFive; pastFive; nextMorning] officeHours.
Proof.
  destruct (time_window_is_closed hostUTC [atNine; atFive; pastFive; nextMorning]
              officeHours "2025-02-26" 32400 61200 eq_refl eq_refl eq_refl eq_refl)
    as (_ & Hmem & Hedge & _ & _).
  split_and!.
  - apply (Hedge atNine 32400); [left|reflexivity|reflexivity|lia|by left].
  - apply (Hedge atFive 61200);
      [right; left|reflexivity|reflexivity|lia|by right].
  - intros (_ & _ & t & Ht & Hle)%Hmem.
    change (starredTime hostUTC officeHours pastFive) with (Some 61201) in Ht.
    injection Ht as <-. lia.
Defined.

(** What the date filter keeps when no time window is asked for: the
    records whose instant lies in the day that starts at
    [setHours(0, 0, 0, 0)] of the parsed date. *)
Lemma date_filter_window (rt : Runtime) (stargazers : list record)
    (options : Options) (date : string) (t0 : Z) :
  optDate options = Some date → given (Some date) = true →
  given (optFrom options) = false → given (optTo options) = false →
  Date_parse rt date = Some t0 →
  ∀ s, s ∈ filterAndSortStargazers rt stargazers options ↔
       s ∈ stargazers
       ∧ ∃ t, starredDate rt s = Some t
              ∧ setHours0 rt t0 <= t < setHours0 rt t0 + msPerDay.
Proof.
  intros Hd Hg Hf Hu Hp s.
  rewrite (filterAndSort_date rt _ _ _ Hd Hg Hf Hu), sort_perm, elem_of_List_filter.
  by rewrite (onDate_window rt date s t0 Hp).
Qed.

(** On a machine five and a half hours ahead of UTC the same option keeps
    the local 26 February: the star of 06:30 UTC, local noon, is kept, and
    the star of 20:00 UTC, already 27 February there, is not. *)
Lemma date_filter_ahead_of_utc_keeps_the_day :
  targetDate hostKolkata "2025-02-26" = Some (1740528000000 - 19800000)
  ∧ filterAndSortStargazers hostKolkata
      [starRecord "ivan" 11 "2025-02-26T06:30:00Z";
       starRecord "judy" 12 "2025-02-26T20:00:00Z"] onlyDate =
    [starRecord "ivan" 11 "2025-02-26T06:30:00Z"].
Proof. split; reflexivity. Qed.

(** C6 at the failing input.  On a machine five hours behind UTC,
    [--date 2025-02-26] sets the window from 2025-02-25T05:00:00Z to
    2025-02-26T05:00:00Z, the local 25 February: the star given at noon
    local time on 26 February is dropped and the star given at noon on
    25 February is kept. *)
Theorem date_filter_behind_utc_keeps_the_day_before :
  Date_parse hostBogota "2025-02-26" = Some 1740528000000
  ∧ targetDate hostBogota "2025-02-26" = Some 1740459600000
  ∧ nextDate hostBogota "2025-02-26" = Some 1740546000000
  ∧ starredDate hostBogota noon25 = Some 1740502800000
  ∧ starredDate hostBogota noon26 = Some 1740589200000
  ∧ filterAndSortStargazers hostBogota [noon25; noon26] onlyDate = [noon25].
Proof. split_and!; reflexivity. Qed.

(** ** The report assembler *)

Section Reporting.
Context (rt : Runtime).

Lemma countType_other counts stargazer type :
  typeName stargazer ≠ type →
  countType counts stargazer !! type = counts !! type.
Proof.
  intros Hne. unfold countType. fold (typeName stargazer). cbn zeta.
  destruct (counts !! typeName stargazer) as [[n|s]|];
    [by rewrite lookup_insert_ne..|].
  destruct (Object_prototype (typeName stargazer)) as [[name|]|];
    [by rewrite lookup_insert_ne|done|by rewrite lookup_insert_ne].
Qed.

(** Under a name that [Object.prototype] does not have, a record adds one
    to the number found, or starts the count at one. *)
Lemma countType_same counts stargazer n0 :
  Object_prototype (typeName stargazer) = None →
  counts !! typeName stargazer = None ∧ n0 = 0
  ∨ counts !! typeName stargazer = Some (Number n0) →
  countType counts stargazer !! typeName stargazer = Some (Number (n0 + 1)).
Proof.
  intros Hown Hcount. unfold countType. fold (typeName stargazer). cbn zeta.
  destruct Hcount as [[-> ->]| ->].
  - rewrite Hown. by rewrite lookup_insert_eq.
  - by rewrite lookup_insert_eq.
Qed.

Lemma foldl_countType stargazers :
  ∀ counts type n0,
    Object_prototype type = None →
    counts !! type = None ∧ n0 = 0 ∨ counts !! type = Some (Number n0) →
    foldl countType counts stargazers !! type =
      if countOf type stargazers =? 0 then counts !! type
      else Some (Number (n0 + countOf type stargazers)).
Proof.
  induction stargazers as [|s l IH]; intros counts type n0 Hown Hcount; [done|].
  cbn [foldl]. unfold countOf. cbn [List.filter].
  case_bool_decide as Heq; cbn [length].
  - subst type.
    rewrite (IH _ _ (n0 + 1) Hown) by (right; by apply countType_same).
    fold (countOf (typeName s) l).
    replace (Z.of_nat (S _) =? 0) with false by (symmetry; apply Z.eqb_neq; lia).
    rewrite (countType_same _ _ n0) by done.
    destruct (countOf (typeName s) l =? 0) eqn:Hz.
    + apply Z.eqb_eq in Hz. do 2 f_equal. unfold countOf in Hz. lia.
    + do 2 f_equal. unfold countOf. lia.
  - rewrite (IH _ _ n0 Hown) by (by rewrite countType_other).
    by rewrite countType_other.
Qed.

Lemma newestFirst_some a b ta tb :
  starredDate rt a = Some ta → starredDate rt b = Some tb →
  newestFirst rt a b = Some (tb - ta).
Proof. intros Ha Hb. unfold newestFirst, num_sub. by rewrite Ha, Hb. Qed.

Lemma notOlder_trans a b c : notOlder rt a b → notOlder rt b c → notOlder rt a c.
Proof.
  intros (ta & tb & Ha & Hb & Hab) (tb' & tc & Hb' & Hc & Hbc).
  exists ta, tc. split_and!; [done|done|]. simplify_eq. lia.
Qed.

Lemma sort_insert_sorted x l :
  is_Some (starredDate rt x) →
  Forall (fun s => is_Some (starredDate rt s)) l →
  StronglySorted (notOlder rt) l →
  StronglySorted (notOlder rt) (sort_insert (newestFirst rt) x l).
Proof.
  intros [tx Hx] Hvalid Hsorted.
  induction Hsorted as [|y l Hl IH Hy]; cbn [sort_insert].
  { repeat constructor. }
  apply Forall_cons in Hvalid as [[ty Hty] Hvalid].
  rewrite (newestFirst_some x y tx ty Hx Hty). cbn [default from_option id].
  destruct (0 <? ty - tx) eqn:Hcmp.
  - apply Z.ltb_lt in Hcmp. constructor; [by apply IH|].
    rewrite sort_insert_perm. constructor; [|done].
    exists ty, tx. split_and!; [done|done|lia].
  - apply Z.ltb_ge in Hcmp.
    assert (Hxy : notOlder rt x y) by (exists tx, ty; split_and!; [done|done|lia]).
    constructor; [by constructor|]. constructor; [done|].
    eapply Forall_impl; [exact Hy|]. intros z Hz. by eapply notOlder_trans.
Qed.

Lemma sort_sorted l :
  Forall (fun s => is_Some (starredDate rt s)) l →
  StronglySorted (notOlder rt) (JS.sort (newestFirst rt) l).
Proof.
  induction l as [|x l IH]; intros Hvalid; [constructor|].
  apply Forall_cons in Hvalid as [Hx Hvalid]. cbn [JS.sort].
  apply sort_insert_sorted; [done| by rewrite sort_perm | by apply IH].
Qed.

(** The re-sort does not depend on the order its input comes in. *)
Lemma sort_order_independent l1 l2 :
  l1 ≡ₚ l2 → datedApart rt l2 →
  JS.sort (newestFirst rt) l1 = JS.sort (newestFirst rt) l2.
Proof.
  intros Hperm [Hvalid Hapart].
  apply (StronglySorted_unique_strong (notOlder rt)).
  - intros a b Ha Hb (ta & tb & Hta & Htb & Hab) (tb' & ta' & Htb' & Hta' & Hba).
    rewrite sort_perm in Ha, Hb. rewrite Hperm in Ha.
    apply Hapart; [done|done|]. simplify_eq. rewrite Hta, Htb. f_equal. lia.
  - apply sort_sorted. by rewrite Hperm.
  - by apply sort_sorted.
  - by rewrite !sort_perm.
Qed.

End Reporting.

Lemma slice0_take {A} (n : Z) (l : list A) :
  0 <= n → slice0 n l = take (Z.to_nat n) l.
Proof.
  intros Hn. unfold slice0.
  replace (n <? 0) with false by (symmetry; apply Z.ltb_ge; lia).
  destruct (decide (n <= Z.of_nat (length l))).
  - f_equal. lia.
  - rewrite !take_ge by lia. done.
Qed.

(** C9, as the code has it.  The report is computed from the list and the
    clock alone, and the clock shows only in [report_generated_at]: two
    invocations on the same list agree on the statistics, on the list of
    stargazers and on the rest of the summary.  Under every type name that
    plain objects do not inherit, the count is the number of records of that
    type.  The top list is made of the first 20 records in the order given,
    and the list of stargazers of all of them, a missing type reading User.
    The two date lists come from a sort of its own, whatever order the
    caller chose: with valid dates, the most recent list holds the first ten
    records of the input put newest first, and the oldest list the first ten
    of the same order read backwards, so oldest first. *)
Theorem report_is_determined_up_to_its_timestamp (rt : Runtime) (cfg : Config)
    (clock1 clock2 : Z) (stargazers : list record) :
  statistics (generateStargazersReport rt cfg clock1 stargazers) =
    statistics (generateStargazersReport rt cfg clock2 stargazers)
  ∧ stargazers_list (generateStargazersReport rt cfg clock1 stargazers) =
      stargazers_list (generateStargazersReport rt cfg clock2 stargazers)
  ∧ repository (summary (generateStargazersReport rt cfg clock1 stargazers)) =
      repository (summary (generateStargazersReport rt cfg clock2 stargazers))
  ∧ repository (summary (generateStargazersReport rt cfg clock1 stargazers)) =
      env_or (STARGAZERS_REPO_OWNER cfg) "SolaceLabs" +:+ "/"
        +:+ env_or (STARGAZERS_REPO_NAME cfg) "solace-agent-mesh"
  ∧ total_stargazers (summary (generateStargazersReport rt cfg clock1 stargazers)) =
      Z.of_nat (length stargazers)
  ∧ report_generated_at (summary (generateStargazersReport rt cfg clock1 stargazers)) = clock1
  ∧ (∀ type,
       Object_prototype type = None →
       user_types (statistics (generateStargazersReport rt cfg clock1 stargazers)) !! type =
         if countOf type stargazers =? 0 then None
         else Some (Number (countOf type stargazers)))
  ∧ top_stargazers (statistics (generateStargazersReport rt cfg clock1 stargazers)) =
      (fun s : record =>
         list_to_map [("login", prop s "login"); ("id", prop s "id");
                      ("profile_url", prop s "html_url");
                      ("starred_at", prop s "starred_at")])
        <$> take 20 stargazers
  ∧ stargazers_list (generateStargazersReport rt cfg clock1 stargazers) =
      (fun s : record =>
         list_to_map [("login", prop s "login"); ("id", prop s "id");
                      ("profile_url", prop s "html_url");
                      ("starred_at", prop s "starred_at");
                      ("type", if truthy (prop s "type") then prop s "type"
                               else VStr "User")])
        <$> stargazers
  ∧ (Forall (fun s => is_Some (starredDate rt s)) stargazers →
     ∃ byDate,
       byDate ≡ₚ stargazers
       ∧ StronglySorted (notOlder rt) byDate
       ∧ recent_stargazers (statistics (generateStargazersReport rt cfg clock1 stargazers)) =
           (fun s : record =>
              list_to_map [("login", prop s "login"); ("starred_at", prop s "starred_at")])
             <$> take 10 byDate
       ∧ oldest_stargazers (statistics (generateStargazersReport rt cfg clock1 stargazers)) =
           (fun s : record =>
              list_to_map [("login", prop s "login"); ("starred_at", prop s "starred_at")])
             <$> take 10 (reverse byDate))
  ∧ (∀ reordered,
       reordered ≡ₚ stargazers → datedApart rt stargazers →
       recent_stargazers (statistics (generateStargazersReport rt cfg clock1 reordered)) =
         recent_stargazers (statistics (generateStargazersReport rt cfg clock2 stargazers))
       ∧ oldest_stargazers (statistics (generateStargazersReport rt cfg clock1 reordered)) =
           oldest_stargazers (statistics (generateStargazersReport rt cfg clock2 stargazers))).
Proof.
  split_and!; try reflexivity.
  - intros type Hown. cbn.
    rewrite (foldl_countType stargazers ∅ type 0 Hown) by (left; by rewrite lookup_empty).
    by rewrite lookup_empty.
  - cbn. by rewrite slice0_take.
  - intros Hvalid. exists (JS.sort (newestFirst rt) stargazers).
    split_and!; [apply sort_perm|by apply sort_sorted| |].
    + cbn. by rewrite slice0_take.
    + cbn. unfold slice_last. by rewrite take_reverse.
  - intros reordered Hperm Hdated. cbn.
    by rewrite (sort_order_independent rt reordered stargazers Hperm Hdated).
Qed.

Lemma datedApart_nine_five : datedApart hostUTC [atNine; atFive].
Proof.
  split.
  - repeat (apply Forall_cons; split; [by eexists|]). apply Forall_nil_2.
  - intros a b Ha Hb Heq.
    apply list_elem_of_In in Ha, Hb. cbn [In] in Ha, Hb.
    destruct Ha as [<-|[<-|[]]], Hb as [<-|[<-|[]]];
      first [reflexivity | discriminate Heq].
Qed.

(** Two stars, handed over newest first or oldest first, at two different
    times: the same two counted as users, the later star first in the most
    recent list and the earlier one first in the oldest list. *)
Lemma report_is_determined_up_to_its_timestamp_witness :
  user_types (statistics (generateStargazersReport hostUTC cfg0 5 [atNine; atFive])) !! "User"
    = Some (Number 2)
  ∧ recent_stargazers (statistics (generateStargazersReport hostUTC cfg0 5 [atFive; atNine])) =
      recent_stargazers (statistics (generateStargazersReport hostUTC cfg0 9 [atNine; atFive]))
  ∧ oldest_stargazers (statistics (generateStargazersReport hostUTC cfg0 5 [atFive; atNine])) =
      oldest_stargazers (statistics (generateStargazersReport hostUTC cfg0 9 [atNine; atFive]))
  ∧ recent_stargazers (statistics (generateStargazersReport hostUTC cfg0 9 [atNine; atFive])) =
      [list_to_map [("login", VStr "frank"); ("starred_at", VStr "2025-02-26T17:00:00Z")];
       list_to_map [("login", VStr "erin"); ("starred_at", VStr "2025-02-26T09:00:00Z")]]
  ∧ oldest_stargazers (statistics (generateStargazersReport hostUTC cfg0 9 [atNine; atFive])) =
      [list_to_map [("login", VStr "erin"); ("starred_at", VStr "2025-02-26T09:00:00Z")];
       list_to_map [("login", VStr "frank"); ("starred_at", VStr "2025-02-26T17:00:00Z")]].
Proof.
  destruct (report_is_determined_up_to_its_timestamp hostUTC cfg0 5 9 [atNine; atFive])
    as (_ & _ & _ & _ & _ & _ & Hcount & _ & _ & _ & Hsort).
  split_and!.
  - rewrite (Hcount "User" eq_refl). reflexivity.
  - by destruct (Hsort [atFive; atNine] (Permutation_swap _ _ _) datedApart_nine_five).
  - by destruct (Hsort [atFive; atNine] (Permutation_swap _ _ _) datedApart_nine_five).
  - reflexivity.
  - reflexivity.
Defined.

(** A type named as a member that every object inherits is not counted:
    the first record of type constructor stores the source text of the
    function found there with the character 1 behind it, and every further
    one adds another 1; records of type [__proto__] store nothing. *)
Lemma inherited_names_are_not_counted (stargazer other : record) :
  typeName stargazer = "constructor" → typeName other = "__proto__" →
  foldl countType ∅ [stargazer; other; stargazer]
  = {[ "constructor" := Text "function Object() { [native code] }11" ]}.
Proof.
  intros Hc Hp. cbn [foldl]. unfold countType. fold (typeName stargazer) (typeName other).
  rewrite Hc, Hp. cbn zeta. rewrite lookup_empty.
  change (Object_prototype "constructor") with (Some (NativeFunction "Object")).
  cbn iota. rewrite lookup_insert_ne by done. rewrite lookup_empty.
  change (Object_prototype "__proto__") with (Some ProtoAccessor). cbn iota.
  rewrite lookup_insert_eq. cbn iota.
  change (String.eqb _ EmptyString) with false. cbn iota.
  by rewrite insert_insert_eq.
Qed.

(** C9 as stated fails: two invocations on the same list at two different
    times give two different reports. *)
Lemma reports_at_two_times_differ :
  generateStargazersReport hostUTC cfg0 0 [atNine; atFive] ≠
  generateStargazersReport hostUTC cfg0 1000 [atNine; atFive].
Proof.
  intros Heq.
  apply (f_equal (fun r => report_generated_at (summary r))) in Heq.
  discriminate Heq.
Qed.

(** * Further properties of the fetcher *)

(** ** The request executor *)

Lemma makeRequest_resolved_inv (cfg : Config) (u : string)
    (options : option (gmap string string)) (net : list Exchange)
    (reply : Reply) (tr : list Event) (rest : list Exchange) :
  makeRequest cfg u options net = (Resolved reply, tr, rest) →
  ∃ limited res,
    net = (Replied <$> limited) ++ Replied res :: rest
    ∧ Forall (fun r => rateLimited r = true) limited
    ∧ 200 <= statusCode res < 300
    ∧ parsed res = ParseOk (data reply)
    ∧ replyHeaders reply = headers res
    ∧ replyStatus reply = statusCode res.
Proof.
  intros Hrun.
  destruct (makeRequest_decided cfg u options net _ _ _ Hrun ltac:(done))
    as (limited & x & -> & Hlim & Hx & Hone).
  destruct x as [e|res]; [done|]. exists limited, res.
  split; [done|]. split; [done|].
  cbn [makeRequest] in Hone.
  destruct ((200 <=? statusCode res) && (statusCode res <? 300)) eqn:H2xx.
  - apply andb_prop in H2xx as [?%Z.leb_le ?%Z.ltb_lt].
    destruct (parsed res) as [v|m] eqn:Hp; [|done].
    injection Hone as <-. by split_and!; [lia|lia|..].
  - by repeat case_match.
Qed.

(** X1.  [makeRequest] resolves only with a 2xx reply whose body parses:
    the value it resolves with carries the parsed body, the headers and the
    status of the reply that settled it, and that status lies between 200
    and 299.  A 2xx reply whose body does not parse rejects with the parse
    error, a status outside 2xx other than 403 rejects with the HTTP error
    of that status and body, and a transport error rejects with the error
    itself; none of these is retried. *)
Theorem makeRequest_resolves_only_on_2xx (cfg : Config) (u : string)
    (options : option (gmap string string)) (net : list Exchange) :
  (∀ reply tr rest,
     makeRequest cfg u options net = (Resolved reply, tr, rest) →
     ∃ limited res,
       net = (Replied <$> limited) ++ Replied res :: rest
       ∧ Forall (fun r => rateLimited r = true) limited
       ∧ 200 <= statusCode res < 300
       ∧ parsed res = ParseOk (data reply)
       ∧ replyHeaders reply = headers res
       ∧ replyStatus reply = statusCode res)
  ∧ (∀ res message rest,
       200 <= statusCode res < 300 → parsed res = ParseFail message →
       makeRequest cfg u options (Replied res :: rest) =
         (Rejected (ParseError message), [Sent (request cfg u options)], rest))
  ∧ (∀ res rest,
       ¬ 200 <= statusCode res < 300 → statusCode res ≠ 403 →
       makeRequest cfg u options (Replied res :: rest) =
         (Rejected (HttpError (statusCode res) (body res)),
          [Sent (request cfg u options)], rest))
  ∧ (∀ e rest,
       makeRequest cfg u options (NetError e :: rest) =
         (Rejected (SystemError e), [Sent (request cfg u options)], rest)).
Proof.
  split_and!.
  - intros reply tr rest Hrun. by eapply makeRequest_resolved_inv.
  - intros res message rest Hs Hp. cbn [makeRequest].
    replace ((200 <=? statusCode res) && (statusCode res <? 300)) with true
      by (symmetry; apply andb_true_iff; lia).
    by rewrite Hp.
  - intros res rest Hs H403. cbn [makeRequest].
    replace ((200 <=? statusCode res) && (statusCode res <? 300)) with false.
    2:{ symmetry. apply andb_false_iff.
        destruct (decide (200 <= statusCode res));
          [right; apply Z.ltb_ge; lia | left; apply Z.leb_gt; lia]. }
    by rewrite (proj2 (Z.eqb_neq _ _) H403).
  - done.
Qed.

Lemma makeRequest_resolves_only_on_2xx_witness :
  makeRequest cfg0 (pageUrl cfg0 1) None [notFound; page 0 2] =
    (Rejected (HttpError 404 "Not Found"),
     [Sent (request cfg0 (pageUrl cfg0 1) None)], [page 0 2]).
Proof.
  destruct (makeRequest_resolves_only_on_2xx cfg0 (pageUrl cfg0 1) None [])
    as (_ & _ & Hhttp & _).
  apply (Hhttp {| statusCode := 404; headers := ∅; body := "Not Found";
                  parsed := ParseFail "Unexpected token N in JSON at position 0";
                  now := 0 |} [page 0 2]); cbn; lia.
Defined.

(** ** The pagination driver *)

Lemma makeRequest_withoutRateLimits (cfg : Config) (u : string)
    (options : option (gmap string string)) (net : list Exchange) :
  ∃ tr,
    makeRequest cfg u options (withoutRateLimits net) =
      ((makeRequest cfg u options net).1.1, tr,
       withoutRateLimits (makeRequest cfg u options net).2).
Proof.
  induction net as [|x net IH]; [by eexists|].
  destruct (settling x) eqn:Hx.
  - assert (Hs : ∀ res, x = Replied res → rateLimited res = false).
    { intros res ->. cbn in Hx. by destruct (rateLimited res). }
    destruct (makeRequest_settles cfg u options x Hs) as (o & _ & Hall).
    unfold withoutRateLimits. cbn [List.filter]. rewrite Hx, !Hall. by eexists.
  - destruct x as [e|res]; [done|]. cbn in Hx. apply negb_false_iff in Hx.
    rewrite (makeRequest_limited cfg u options res net Hx).
    unfold withoutRateLimits in *. cbn [List.filter settling]. rewrite Hx. cbn [negb].
    destruct IH as [tr IH]. rewrite IH.
    destruct (makeRequest cfg u options net) as [[o tr'] rest]. by eexists.
Qed.

Lemma withoutRateLimits_length (net : list Exchange) :
  (length (withoutRateLimits net) <= length net)%nat.
Proof.
  induction net as [|x net IH]; [done|]. unfold withoutRateLimits in *.
  cbn [List.filter]. destruct (settling x); cbn [length]; lia.
Qed.

Lemma pages_withoutRateLimits (cfg : Config) (limit : option Z) (fuel : nat) :
  ∀ all page net,
    (length net < fuel)%nat →
    outcome (pages fuel cfg limit all page (withoutRateLimits net)) =
    outcome (pages fuel cfg limit all page net).
Proof.
  induction fuel as [|fuel IH]; intros all page net Hfuel; [lia|].
  cbn [pages].
  destruct (makeRequest_withoutRateLimits cfg (pageUrl cfg page) None net) as [tr' Hw].
  rewrite Hw.
  destruct (makeRequest cfg (pageUrl cfg page) None net) as [[o tr] rest] eqn:Hreq.
  cbn [fst snd]. destruct o as [response|e|]; [|done|done].
  pose proof (makeRequest_consumes _ _ _ _ _ _ _ Hreq ltac:(done)) as Hlen.
  assert (Hnext : ∀ stargazers,
             outcome (pages fuel cfg limit (all ++ stargazers) (page + 1)
                        (withoutRateLimits rest)) =
             outcome (pages fuel cfg limit (all ++ stargazers) (page + 1) rest))
    by (intros; apply IH; lia).
  unfold outcome in *.
  repeat case_match; simplify_eq; try done;
    match goal with
    | H1 : pages _ _ _ (_ ++ ?l) _ (withoutRateLimits _) = _,
      H2 : pages _ _ _ (_ ++ ?l) _ rest = _ |- _ =>
        specialize (Hnext l); rewrite H1, H2 in Hnext; cbn in Hnext; by subst
    end.
Qed.

(** X2.  Rate limiting does not change what [getStargazers] returns: on any
    network, the promise settles exactly as it would on the same network
    with the rate-limited replies taken out. *)
Theorem rate_limits_do_not_change_the_result (cfg : Config) (limit : option Z)
    (net : list Exchange) :
  outcome (getStargazers cfg limit net) =
  outcome (getStargazers cfg limit (withoutRateLimits net)).
Proof.
  unfold getStargazers.
  rewrite (pages_fuel_enough cfg limit (S (length (withoutRateLimits net)))
             (S (length net)) [] 1 (withoutRateLimits net))
    by (pose proof (withoutRateLimits_length net); lia).
  symmetry. apply pages_withoutRateLimits. lia.
Qed.

(** Pages below the limit, then any network: the loop goes on from there
    with the records of those pages collected. *)
Lemma pages_prefix (cfg : Config) (limit : option Z) (rs : list Response)
    (recs : list (list record)) (net : list Exchange) :
  Forall2 goodPage rs recs →
  ∀ fuel all page,
    unlimited limit (length (all ++ concat recs)) →
    ∃ tr,
      pages (length rs + fuel) cfg limit all page ((Replied <$> rs) ++ net) =
        ((pages fuel cfg limit (all ++ concat recs) (page + Z.of_nat (length rs)) net).1.1,
         tr ++ (pages fuel cfg limit (all ++ concat recs)
                  (page + Z.of_nat (length rs)) net).1.2,
         (pages fuel cfg limit (all ++ concat recs) (page + Z.of_nat (length rs)) net).2)
      ∧ requestsOf tr =
          (fun k => request cfg (pageUrl cfg (page + Z.of_nat k)) None) <$> seq 0 (length rs).
Proof.
  induction 1 as [|res r rs recs Hres _ IH]; intros fuel all page Hlim.
  - exists []. cbn [length concat fmap list_fmap app Nat.add seq].
    rewrite app_nil_r, Z.add_0_r.
    by destruct (pages fuel cfg limit all page net) as [[o tr] rest].
  - cbn [length concat fmap list_fmap app Nat.add] in *.
    change (list_fmap _ _ Replied rs) with (Replied <$> rs).
    rewrite (pages_good cfg _ _ _ _ _ _ _ Hres).
    rewrite (unlimited_not_reached limit _ _ Hlim) by (rewrite !length_app; lia).
    destruct (IH fuel (all ++ r) (page + 1)) as (tr & Hrun & Hreq).
    { by rewrite <- app_assoc. }
    rewrite Hrun. rewrite <- !app_assoc.
    replace (page + 1 + Z.of_nat (length rs)) with (page + Z.of_nat (S (length rs))) by lia.
    exists (Sent (request cfg (pageUrl cfg page) None) :: Timer (Some 1000) :: tr).
    split; [done|].
    change (requestsOf (?a :: ?b :: tr)) with (request cfg (pageUrl cfg page) None :: requestsOf tr).
    rewrite Hreq. cbn [seq fmap list_fmap]. rewrite Z.add_0_r. f_equal.
    rewrite <- fmap_S_seq, <- list_fmap_compose. apply list_fmap_ext.
    intros i k _. cbn. do 2 f_equal. lia.
Qed.

(** X3.  A failure aborts the whole fetch: when pages below the limit are
    followed by an exchange that makes the next request fail, [getStargazers]
    rejects with that very error, returns none of the records collected so
    far, has asked for the pages 1, 2, ... up to the failing one, and leaves
    the rest of the network untouched. *)
Theorem failure_aborts_the_fetch (cfg : Config) (limit : option Z)
    (rs : list Response) (recs : list (list record)) (x : Exchange) (e : JsError)
    (net : list Exchange) :
  Forall2 goodPage rs recs →
  unlimited limit (length (concat recs)) →
  settling x = true →
  outcome (makeRequest cfg (pageUrl cfg (1 + Z.of_nat (length rs))) None [x]) = Rejected e →
  ∃ tr,
    getStargazers cfg limit ((Replied <$> rs) ++ x :: net) = (Rejected e, tr, net)
    ∧ requestsOf tr =
        (fun k => request cfg (pageUrl cfg (1 + Z.of_nat k)) None) <$> seq 0 (S (length rs)).
Proof.
  intros Hgood Hlim Hx Hfail. unfold getStargazers.
  destruct (pages_prefix cfg limit rs recs (x :: net) Hgood (S (S (length net))) [] 1 Hlim)
    as (tr & Hrun & Hreq).
  replace (S (length ((Replied <$> rs) ++ x :: net)))
    with (length rs + S (S (length net)))%nat
    by (rewrite length_app, length_fmap; cbn; lia).
  rewrite Hrun. clear Hrun.
  assert (Hs : ∀ res, x = Replied res → rateLimited res = false).
  { intros res ->. cbn in Hx. by destruct (rateLimited res). }
  destruct (makeRequest_settles cfg (pageUrl cfg (1 + Z.of_nat (length rs))) None x Hs)
    as (o & _ & Hall).
  rewrite Hall in Hfail. cbn in Hfail. subst o.
  cbn [pages app]. rewrite Hall. cbn [fst snd].
  eexists. split; [reflexivity|].
  unfold requestsOf in *. rewrite omap_app, Hreq. cbn [omap list_omap].
  rewrite seq_S, fmap_app. done.
Qed.

Lemma failure_aborts_the_fetch_witness :
  ∃ tr,
    getStargazers cfg0 None [page 0 100; notFound; page 100 100] =
      (Rejected (HttpError 404 "Not Found"), tr, [page 100 100]).
Proof.
  destruct (failure_aborts_the_fetch cfg0 None [pageOf 0 100] [numberedRecords 0 100]
              notFound (HttpError 404 "Not Found") [page 100 100])
    as (tr & Hrun & _).
  - apply List.Forall2_cons; [apply goodPage_pageOf|apply List.Forall2_nil].
  - by left.
  - reflexivity.
  - reflexivity.
  - exists tr. exact Hrun.
Defined.

Lemma slice0_length_le {A} (n : Z) (l : list A) :
  0 <= n → Z.of_nat (length (slice0 n l)) <= n.
Proof. intros Hn. rewrite slice0_take by done. rewrite length_take. lia. Qed.

Lemma pages_at_most_limit (cfg : Config) (n : Z) (fuel : nat) :
  0 < n →
  ∀ all page net result tr rest,
    Z.of_nat (length all) < n →
    pages fuel cfg (Some n) all page net = (Resolved result, tr, rest) →
    Z.of_nat (length result) <= n.
Proof.
  intros Hn. induction fuel as [|fuel IH]; intros all page net result tr rest Hall Hrun;
    [done|].
  cbn [pages] in Hrun.
  destruct (makeRequest cfg (pageUrl cfg page) None net) as [[o tr0] rest0].
  destruct o as [response|e|]; [|done|done].
  destruct (get (data response) "length") as [len|]; [|done].
  repeat case_match; simplify_eq; try lia.
  all: try (apply slice0_length_le; lia).
  all: try (match goal with
            | H : (default 0 (Some _) <? _) = false |- _ =>
                apply Z.ltb_ge in H; cbn in H; lia
            end).
  all: eapply IH; [|eassumption];
    match goal with
    | H : limitReached _ _ = false |- _ =>
        unfold limitReached in H; apply andb_false_iff in H as [Hz|Hle];
        [apply negb_false_iff, Z.eqb_eq in Hz; lia | by apply Z.leb_gt in Hle]
    end.
Qed.

(** X4.  With a positive limit, [getStargazers] never returns more records
    than the limit, whatever the network answers. *)
Theorem never_more_than_the_limit (cfg : Config) (n : Z) (net : list Exchange)
    (result : list record) (tr : list Event) (rest : list Exchange) :
  0 < n →
  getStargazers cfg (Some n) net = (Resolved result, tr, rest) →
  Z.of_nat (length result) <= n.
Proof.
  intros Hn Hrun. by eapply (pages_at_most_limit cfg n _ Hn [] 1 net); [cbn; lia|].
Qed.

(** X5.  A limit of 0 is no limit: [getStargazers(0)] runs exactly as
    [getStargazers(null)] and collects every page. *)
Theorem limit_zero_is_no_limit (cfg : Config) (net : list Exchange) :
  getStargazers cfg (Some 0) net = getStargazers cfg None net.
Proof.
  unfold getStargazers. generalize (S (length net)) (@nil record) 1.
  intros fuel. revert net. induction fuel as [|fuel IH]; intros net all page; [done|].
  cbn [pages].
  destruct (makeRequest cfg (pageUrl cfg page) None net) as [[o tr0] rest0].
  destruct o as [response|e|]; [|done|done].
  change (limitReached (Some 0) ?l) with false.
  change (limitReached None ?l) with false.
  repeat case_match; simplify_eq; try done; rewrite IH in *; congruence.
Qed.

Lemma never_more_than_the_limit_witness :
  ∃ result tr rest,
    getStargazers cfg0 (Some 2) [page 0 3; page 3 3] = (Resolved result, tr, rest)
    ∧ Z.of_nat (length result) <= 2.
Proof.
  assert (Hrun : getStargazers cfg0 (Some 2) [page 0 3; page 3 3] =
                 (Resolved (take (Z.to_nat 2) ([] ++ concat [] ++ numberedRecords 0 3)),
                  pageRequests cfg0 1 1, [page 3 3])).
  { unfold getStargazers.
    apply (pages_until_limit cfg0 [] [] (pageOf 0 3) (numberedRecords 0 3) [page 3 3] 2
             (List.Forall2_nil _) (goodPage_pageOf 0 2)); cbn; lia. }
  eexists _, _, _. split; [exact Hrun|].
  exact (never_more_than_the_limit cfg0 2 _ _ _ _ ltac:(lia) Hrun).
Defined.

Lemma flatten_fields (item user : gmap string value) (r : record) :
  item !! "user" = Some (VObj user) →
  flatten (VObj item) = Some r →
  r !! "starred_at" = Some (prop item "starred_at")
  ∧ ∀ k, k ≠ "starred_at" → r !! k = user !! k.
Proof.
  intros Hu Hf. unfold flatten in Hf. cbn in Hf. rewrite Hu in Hf. cbn in Hf.
  injection Hf as <-. split.
  - by rewrite lookup_insert_eq.
  - intros k Hk. rewrite lookup_insert_ne by done. unfold spread. cbn [ownProps].
    by rewrite (right_id_L ∅ (∪)).
Qed.

Lemma flatten_has_starred_at (item : value) (r : record) :
  flatten item = Some r → is_Some (r !! "starred_at").
Proof.
  unfold flatten. intros Hf.
  destruct (get item "user") as [u|]; [|done]. cbn in Hf.
  destruct (get item "starred_at") as [t|]; [|done]. cbn in Hf.
  injection Hf as <-. rewrite lookup_insert_eq. by eexists.
Qed.

Lemma slice0_sublist {A} (P : A → Prop) (n : Z) (l : list A) :
  Forall P l → Forall P (slice0 n l).
Proof. intros Hl. unfold slice0. by apply Forall_take. Qed.

Lemma pages_provenance (cfg : Config) (limit : option Z) (net0 : list Exchange)
    (fuel : nat) :
  ∀ all page net result tr rest,
    (∀ x, x ∈ net → x ∈ net0) →
    Forall (fromPage net0) all →
    pages fuel cfg limit all page net = (Resolved result, tr, rest) →
    Forall (fromPage net0) result.
Proof.
  induction fuel as [|fuel IH]; intros all page net result tr rest Hsub Hall Hrun;
    [done|].
  cbn [pages] in Hrun.
  destruct (makeRequest cfg (pageUrl cfg page) None net) as [[o tr0] rest0] eqn:Hreq.
  destruct o as [response|e|]; [|done|done].
  destruct (makeRequest_resolved_inv _ _ _ _ _ _ _ Hreq)
    as (limited & res & -> & _ & Hs & Hp & _).
  assert (Hres : Replied res ∈ net0).
  { apply Hsub. apply elem_of_app. right. left. }
  assert (Hsub' : ∀ x, x ∈ rest0 → x ∈ net0).
  { intros x Hx. apply Hsub. apply elem_of_app. right. by right. }
  assert (Hnew : ∀ stargazers,
             flattenPage (data response) = Some stargazers →
             Forall (fromPage net0) (all ++ stargazers)).
  { intros stargazers Hflat. apply Forall_app. split; [done|].
    unfold flattenPage in Hflat.
    destruct (data response) as [| | | | |items|] eqn:Hd; try done.
    change (mapM flatten items = Some stargazers) in Hflat.
    apply mapM_Some_1 in Hflat. apply Forall_forall. intros r Hr.
    apply list_elem_of_lookup in Hr as [i Hi].
    destruct (Forall2_lookup_r _ _ _ _ _ Hflat Hi) as (item & Hitem & Hf).
    exists res, items, item.
    split; [done|]. split; [done|]. split; [done|].
    split; [by eapply list_elem_of_lookup_2|done]. }
  repeat case_match; simplify_eq; try done.
  all: try (apply slice0_sublist; by apply Hnew).
  all: try (by apply Hnew).
  all: eapply IH; [exact Hsub'| |eassumption]; by apply Hnew.
Qed.

(** X6.  [getStargazers] invents nothing: on any network, every record it
    returns is the flattening of an item of a 2xx page reply of that
    network, so it has a [starred_at] property; and the flattening of an
    item with a user object keeps every field of the user, [starred_at]
    being that of the item. *)
Theorem records_come_from_pages (cfg : Config) (limit : option Z)
    (net : list Exchange) (result : list record) (tr : list Event)
    (rest : list Exchange) :
  getStargazers cfg limit net = (Resolved result, tr, rest) →
  Forall (fun r => fromPage net r ∧ is_Some (r !! "starred_at")) result
  ∧ (∀ item user r,
       item !! "user" = Some (VObj user) → flatten (VObj item) = Some r →
       r !! "starred_at" = Some (prop item "starred_at")
       ∧ ∀ k, k ≠ "starred_at" → r !! k = user !! k).
Proof.
  intros Hrun. split; [|apply flatten_fields].
  pose proof (pages_provenance cfg limit net _ [] 1 net result tr rest
                (fun _ H => H) (Forall_nil_2 _) Hrun) as Hall.
  eapply Forall_impl; [exact Hall|]. intros r Hr. split; [done|].
  destruct Hr as (res & items & item & _ & _ & _ & _ & Hf).
  by eapply flatten_has_starred_at.
Qed.

Lemma records_come_from_pages_witness :
  ∃ result tr rest,
    getStargazers cfg0 None shifted = (Resolved result, tr, rest)
    ∧ Forall (fun r => is_Some (r !! "starred_at")) result.
Proof.
  assert (Hrun : getStargazers cfg0 None shifted =
                 (Resolved ([] ++ concat [ [starRecord "alice" 1 "2025-02-26T10:00:00Z";
                                            starRecord "octocat" 2 "2025-02-26T11:00:00Z"];
                                           [starRecord "octocat" 2 "2025-02-26T11:00:00Z";
                                            starRecord "bob" 3 "2025-02-26T12:00:00Z"] ]),
                  pageRequests cfg0 1 3, [])).
  { unfold getStargazers.
    apply (pages_until_empty cfg0 _ _
             {| statusCode := 200; headers := ∅; body := "(json)";
                parsed := ParseOk (VArr []); now := 0 |} [] None shifted_pages).
    - split; [cbn; lia|reflexivity].
    - by left.
    - cbn. lia. }
  eexists _, _, _. split; [exact Hrun|].
  destruct (records_come_from_pages cfg0 None shifted _ _ _ Hrun) as [Hall _].
  eapply Forall_impl; [exact Hall|]. by intros r [_ ?].
Defined.

(** ** Command-line options *)

Lemma parseArgs_wellFormed args :
  ∀ options, wellFormed options → wellFormed (parseArgs args options).1.
Proof.
  induction args as [|arg rest IH1 IH2] using args_ind; intros options Hwf; [done|].
  cbn [parseArgs].
  repeat case_match; simplify_eq; cbn [fst]; try done;
    try (apply IH1; done);
    try (eapply IH2; [done|done]).
  all: eapply IH2; [done|]; destruct Hwf as (Hs & Hd & Hf & Ht & Hz);
    unfold wellFormed;
    cbn [optSort optDate optFrom optTo optTimezone
         withSort withDate withFrom withTo withTimezone withLimit];
    split_and!; try done.
  all: try (intros ? [= <-]).
  all: repeat match goal with
         | H : _ && _ = true |- _ => apply andb_prop in H as [? ?]
         | H : _ || _ = true |- _ => apply orb_prop in H as [H|H]
         | H : String.eqb _ _ = true |- _ => apply String.eqb_eq in H; subst
         end;
       try done; try (by left); try (by right).
  all: match goal with
       | H : given (Some ?z) = true |- ?z ≠ _ => intros ->; discriminate H
       end.
Qed.

Lemma validate_wellFormed (p : Options * list Line) :
  wellFormed p.1 → wellFormed (validate p).1.
Proof.
  destruct p as [o out]. unfold validate. cbn [fst].
  destruct ((given (optFrom o) || given (optTo o)) && negb (given (optDate o)));
    cbn [optFrom optTo withHelp];
    destruct ((given (optFrom o) && negb (given (optTo o))) ||
              (negb (given (optFrom o)) && given (optTo o))); done.
Qed.

Lemma validate_pairs (p : Options * list Line) :
  optHelp (validate p).1 = false →
  (validate p).1 = p.1
  ∧ given (optFrom p.1) = given (optTo p.1)
  ∧ (given (optFrom p.1) = true → given (optDate p.1) = true).
Proof.
  destruct p as [o out]. unfold validate. cbn [fst].
  destruct (given (optFrom o)) eqn:Hf, (given (optTo o)) eqn:Ht,
    (given (optDate o)) eqn:Hd;
    cbn [orb andb negb optFrom optTo optDate withHelp fst optHelp];
    rewrite ?Hf, ?Ht; cbn [orb andb negb optFrom optTo optDate withHelp fst optHelp];
    try done.
Qed.

(** X7.  The options that reach [main] are well formed: the sort order is
    asc or desc, the date has the form YYYY-MM-DD, the two times have the
    form HH:MM or HH:MM:SS, the timezone is not empty, the two times are
    given together or not at all and only with a date, and an unknown
    timezone has been confirmed by the user. *)
Theorem options_reaching_main_are_well_formed (rt : Runtime) (proceed : bool)
    (args : list string) (limit : option Z) (options : Options) :
  script rt proceed args = CallsGetStargazers limit options →
  wellFormed options
  ∧ limit = optLimit options
  ∧ optHelp options = false
  ∧ given (optFrom options) = given (optTo options)
  ∧ (given (optFrom options) = true → given (optDate options) = true)
  ∧ (∀ z, optTimezone options = Some z → Intl_supported rt z = false → proceed = true).
Proof.
  unfold script. destruct (parseOptions args) as [o printed] eqn:Hparse.
  destruct (optHelp o) eqn:Hhelp; [done|].
  destruct (given (optTimezone o) &&
            negb (Intl_supported rt (default EmptyString (optTimezone o))) &&
            negb proceed) eqn:Htz; [done|].
  intros [= <- <-].
  assert (Hwf0 : wellFormed defaults).
  { split_and!; [by right|done..]. }
  pose proof (validate_wellFormed _ (parseArgs_wellFormed args defaults Hwf0)) as Hwf.
  pose proof (validate_pairs (parseArgs args defaults)) as Hpairs.
  unfold parseOptions in Hparse. rewrite Hparse in Hwf, Hpairs. cbn [fst] in Hwf, Hpairs.
  destruct (Hpairs Hhelp) as (Heq & Hft & Hdate). rewrite <- Heq in Hft, Hdate.
  split_and!; try done.
  intros z Hz Hsup. rewrite Hz in Htz. cbn [default from_option id] in Htz.
  rewrite Hsup in Htz.
  destruct Hwf as (_ & _ & _ & _ & Hne).
  pose proof (Hne _ Hz) as Hz0. apply String.eqb_neq in Hz0.
  unfold given in Htz. rewrite Hz0 in Htz. cbn in Htz. by destruct proceed.
Qed.

Lemma options_reaching_main_are_well_formed_witness :
  wellFormed officeHours
  ∧ given (optFrom officeHours) = given (optTo officeHours).
Proof.
  destruct (options_reaching_main_are_well_formed hostUTC false
              ["--date"; "2025-02-26"; "--from"; "09:00"; "--to"; "17:00";
               "--timezone"; "UTC"] None officeHours eq_refl)
    as (Hwf & _ & _ & Hpair & _).
  by split.
Defined.

(** ** Times of day *)

(** The value of a digit character. *)
Lemma digit_of_digit (c : ascii) :
  is_digit c = true →
  ∃ d, 0 <= d <= 9 ∧ digit_of 10 c = Some d ∧ Z.of_nat (nat_of_ascii c) = 48 + d.
Proof.
  unfold is_digit, digit_of. intros [H1 H2]%andb_prop.
  apply Nat.leb_le in H1, H2.
  exists (Z.of_nat (nat_of_ascii c) - 48).
  replace ((48 <=? Z.of_nat (nat_of_ascii c)) && (Z.of_nat (nat_of_ascii c) <=? 57)) with true
    by (symmetry; apply andb_true_iff; split; apply Z.leb_le; lia).
  replace (Z.of_nat (nat_of_ascii c) - 48 <? 10) with true
    by (symmetry; apply Z.ltb_lt; lia).
  split_and!; [lia|lia|done|lia].
Qed.

Lemma between_bounds (lo hi c : ascii) :
  between lo hi c = true →
  (nat_of_ascii lo <= nat_of_ascii c <= nat_of_ascii hi)%nat.
Proof. unfold between. intros [H1 H2]%andb_prop. apply Nat.leb_le in H1, H2. lia. Qed.

Lemma between_digit (hi c : ascii) :
  (nat_of_ascii hi <= 57)%nat → between "0" hi c = true → is_digit c = true.
Proof.
  intros Hhi Hb. apply between_bounds in Hb.
  change (nat_of_ascii "0") with 48%nat in Hb. unfold is_digit.
  apply andb_true_iff. split; apply Nat.leb_le; lia.
Qed.

(** How [parseInt(_, 10)] reads a string of one or two digits. *)
Lemma parseInt_digits (cs : list ascii) (acc : Z) :
  Forall (fun c => is_digit c = true) cs →
  ∃ v, digits 10 (Some acc) cs = Some v
       ∧ acc * 10 ^ Z.of_nat (length cs) <= v < (acc + 1) * 10 ^ Z.of_nat (length cs).
Proof.
  intros Hcs. revert acc. induction Hcs as [|c cs Hc _ IH]; intros acc.
  - exists acc. cbn. split; [done|]. lia.
  - destruct (digit_of_digit c Hc) as (d & Hd & Hdig & _).
    cbn [digits]. rewrite Hdig. cbn [default from_option id].
    destruct (IH (acc * 10 + d)) as (v & Hv & Hle). exists v. split; [done|].
    cbn [length]. rewrite Nat2Z.inj_succ, Z.pow_succ_r by lia. nia.
Qed.

Lemma digit_not_special (c : ascii) :
  is_digit c = true →
  is_white c = false ∧ c ≠ "-"%char ∧ c ≠ "+"%char ∧ Ascii.eqb c ":" = false.
Proof. intros H. split_ascii c; done. Qed.

Lemma minSecRe_inv (r : list ascii) :
  minSecRe r = true →
  ∃ m1 m2 rest,
    r = ":"%char :: m1 :: m2 :: rest
    ∧ between "0" "5" m1 = true ∧ is_digit m2 = true
    ∧ (rest = []
       ∨ ∃ s1 s2, rest = [":"%char; s1; s2]
                  ∧ between "0" "5" s1 = true ∧ is_digit s2 = true).
Proof.
  destruct r as [|c0 r]; [done|].
  destruct (Ascii.eqb_spec c0 ":") as [->|Hne].
  - destruct r as [|m1 [|m2 [|c3 rest]]]; try done.
    + intros [H1 H2]%andb_prop. exists m1, m2, []. by split_and!; [| | |left].
    + destruct (Ascii.eqb_spec c3 ":") as [->|Hne3].
      * destruct rest as [|s1 [|s2 [|]]]; try done.
        intros [[[H1 H2]%andb_prop H3]%andb_prop H4]%andb_prop.
        exists m1, m2, [":"%char; s1; s2]. split_and!; [done..|].
        right. by exists s1, s2.
      * intros H. exfalso. revert H.
        destruct c3 as [[] [] [] [] [] [] [] []]; try congruence;
          destruct rest as [|? [|? [|]]]; done.
  - intros H. exfalso. revert H.
    destruct c0 as [[] [] [] [] [] [] [] []]; try congruence; done.
Qed.

Lemma timeRe_inv (s : string) :
  timeRe s = true →
  ∃ hh v r,
    String.list_ascii_of_string s = hh ++ r
    ∧ hh ≠ [] ∧ Forall (fun c => is_digit c = true) hh
    ∧ digits 10 None hh = Some v ∧ 0 <= v <= 23
    ∧ minSecRe r = true ∧ (length hh <= 2)%nat.
Proof.
  unfold timeRe. destruct (String.list_ascii_of_string s) as [|h1 [|c r]]; try done.
  destruct (Ascii.eqb_spec c ":") as [->|Hne].
  - intros [Hh Hr]%andb_prop. destruct (digit_of_digit h1 Hh) as (d & Hd & Hdig & _).
    exists [h1], d, (":"%char :: r). split_and!; try done; try lia; try (cbn; lia).
    + by repeat constructor.
    + cbn. by rewrite Hdig.
  - assert ((((between "0" "1" h1 && is_digit c) ||
              (Ascii.eqb h1 "2" && between "0" "3" c)) && minSecRe r) = true →
            ∃ hh v r0, h1 :: c :: r = hh ++ r0 ∧ hh ≠ [] ∧
              Forall (fun c => is_digit c = true) hh ∧
              digits 10 None hh = Some v ∧ 0 <= v <= 23 ∧ minSecRe r0 = true ∧
              (length hh <= 2)%nat) as Hgo.
    { intros [Hh Hr]%andb_prop. exists [h1; c]. 
      apply orb_prop in Hh as [[H1 H2]%andb_prop|[H1 H2]%andb_prop].
      - pose proof (between_digit "1" h1 ltac:(vm_compute; lia) H1) as Hd1.
        destruct (digit_of_digit h1 Hd1) as (d1 & Hb1 & Hdig1 & Hn1).
        destruct (digit_of_digit c H2) as (d2 & Hb2 & Hdig2 & Hn2).
        apply between_bounds in H1. change (nat_of_ascii "1") with 49%nat in H1.
        exists (d1 * 10 + d2), r. split_and!; try done; try lia; try (cbn; lia).
        + by repeat constructor.
        + cbn. rewrite Hdig1. cbn. by rewrite Hdig2.
      - apply Ascii.eqb_eq in H1 as ->.
        pose proof (between_digit "3" c ltac:(vm_compute; lia) H2) as Hd2.
        destruct (digit_of_digit c Hd2) as (d2 & Hb2 & Hdig2 & Hn2).
        apply between_bounds in H2. change (nat_of_ascii "3") with 51%nat in H2.
        exists (2 * 10 + d2), r. split_and!; try done; try lia; try (cbn; lia).
        + by repeat constructor.
        + cbn. by rewrite Hdig2. }
    revert Hgo. destruct c as [[] [] [] [] [] [] [] []]; try congruence; intros Hgo; exact Hgo.
Qed.

Lemma parseInt_digit_string (c : ascii) (s : string) :
  is_digit c = true →
  parseInt (String c s) (Some 10)
  = Z.mul 1 <$> digits 10 None (c :: String.list_ascii_of_string s).
Proof. intros H. split_ascii c; reflexivity. Qed.

Lemma parseInt_two (c1 c2 : ascii) :
  is_digit c1 = true → is_digit c2 = true →
  ∃ d1 d2, parseInt (String c1 (String c2 EmptyString)) (Some 10) = Some (d1 * 10 + d2)
           ∧ Z.of_nat (nat_of_ascii c1) = 48 + d1 ∧ Z.of_nat (nat_of_ascii c2) = 48 + d2
           ∧ 0 <= d1 <= 9 ∧ 0 <= d2 <= 9.
Proof.
  intros H1 H2. rewrite parseInt_digit_string by done.
  destruct (digit_of_digit c1 H1) as (d1 & Hb1 & Hdig1 & Hn1).
  destruct (digit_of_digit c2 H2) as (d2 & Hb2 & Hdig2 & Hn2).
  exists d1, d2. cbn. rewrite Hdig1. cbn. rewrite Hdig2. cbn.
  split_and!; try done; try lia. f_equal. lia.
Qed.

Lemma splitColon_digit (c : ascii) (cur : string) (cs : list ascii) :
  is_digit c = true → splitColon cur (c :: cs) = splitColon (String c cur) cs.
Proof. intros (_ & _ & _ & H)%digit_not_special. cbn [splitColon]. by rewrite H. Qed.

Lemma splitColon_colon (cur : string) (cs : list ascii) :
  splitColon cur (":"%char :: cs) = String.rev cur :: splitColon EmptyString cs.
Proof. reflexivity. Qed.

Lemma rev_one (c : ascii) : String.rev (String c EmptyString) = String c EmptyString.
Proof. reflexivity. Qed.

Lemma rev_two (c1 c2 : ascii) :
  String.rev (String c2 (String c1 EmptyString)) = String c1 (String c2 EmptyString).
Proof. reflexivity. Qed.

Lemma parseInt_one (c : ascii) (d : Z) :
  is_digit c = true → digits 10 None [c] = Some d →
  parseInt (String c EmptyString) (Some 10) = Some d.
Proof.
  intros H Hd. rewrite parseInt_digit_string by done.
  change (String.list_ascii_of_string EmptyString) with (@nil ascii).
  rewrite Hd. cbn. f_equal. lia.
Qed.

Lemma parseInt_pair (c1 c2 : ascii) (d : Z) :
  is_digit c1 = true → digits 10 None [c1; c2] = Some d →
  parseInt (String c1 (String c2 EmptyString)) (Some 10) = Some d.
Proof.
  intros H Hd. rewrite parseInt_digit_string by done.
  change (String.list_ascii_of_string (String c2 EmptyString)) with [c2].
  rewrite Hd. cbn. f_equal. lia.
Qed.

Lemma minutes_value (c1 c2 : ascii) :
  between "0" "5" c1 = true → is_digit c2 = true →
  ∃ m, parseInt (String c1 (String c2 EmptyString)) (Some 10) = Some m ∧ 0 <= m <= 59.
Proof.
  intros H1 H2. pose proof (between_digit "5" c1 ltac:(vm_compute; lia) H1) as Hd1.
  destruct (parseInt_two c1 c2 Hd1 H2) as (d1 & d2 & Hp & Hn1 & Hn2 & Hb1 & Hb2).
  apply between_bounds in H1. change (nat_of_ascii "5") with 53%nat in H1.
  exists (d1 * 10 + d2). split; [done|lia].
Qed.

(** X8.  A time the option parser accepts for [--from] or [--to] is always
    read by [parseTime] as a number, never as NaN, and the number is a
    count of seconds within one day. *)
Theorem accepted_time_parses (s : string) :
  timeRe s = true → ∃ t, parseTime s = Some t ∧ 0 <= t < 86400.
Proof.
  intros H. destruct (timeRe_inv s H) as (hh & v & r & Hs & Hne & Hdig & Hv & Hb & Hr & Hlen).
  destruct (minSecRe_inv r Hr) as (m1 & m2 & rest & -> & Hm1 & Hm2 & Hrest).
  destruct (minutes_value m1 m2 Hm1 Hm2) as (m & Hm & Hmb).
  pose proof (between_digit "5" m1 ltac:(vm_compute; lia) Hm1) as Hd1.
  unfold parseTime, split. rewrite Hs.
  assert (∃ hs, (∀ cs, splitColon EmptyString (hh ++ ":"%char :: cs)
                       = hs :: splitColon EmptyString cs)
                ∧ parseInt hs (Some 10) = Some v) as (hs & Hsplit & Hhs).
  { destruct hh as [|h1 [|h2 [|]]]; [done| | |cbn in Hlen; lia].
    - apply Forall_cons in Hdig as [Hh1 _]. exists (String h1 EmptyString). split.
      + intros cs. cbn [app]. rewrite splitColon_digit by done.
        by rewrite splitColon_colon, rev_one.
      + by apply parseInt_one.
    - apply Forall_cons in Hdig as [Hh1 [Hh2 _]%Forall_cons].
      exists (String h1 (String h2 EmptyString)). split.
      + intros cs. cbn [app].
        rewrite !splitColon_digit by done.
        by rewrite splitColon_colon, rev_two.
      + by apply parseInt_pair. }
  rewrite Hsplit. rewrite !splitColon_digit by done.
  destruct Hrest as [->|(s1 & s2 & -> & Hs1 & Hs2)].
  - cbn [splitColon]. rewrite rev_two.
    cbn [lookup list_lookup default from_option id given]. rewrite Hhs, Hm.
    cbn. eexists. split; [done|]. lia.
  - destruct (minutes_value s1 s2 Hs1 Hs2) as (sec & Hsec & Hsecb).
    pose proof (between_digit "5" s1 ltac:(vm_compute; lia) Hs1) as Hds1.
    rewrite splitColon_colon. rewrite !splitColon_digit by done.
    cbn [splitColon]. rewrite !rev_two.
    cbn [lookup list_lookup default from_option id given]. rewrite Hhs, Hm.
    change (String s1 (String s2 EmptyString) =? EmptyString)%string with false.
    cbn [negb]. rewrite Hsec.
    cbn. eexists. split; [done|]. lia.
Qed.

(** X9.  Without a timezone, with one the formatter does not know, or when
    formatting fails, the time of day of a valid date is the one of the
    machine's zone: hours below 24, minutes and seconds below 60, and a
    total that is the number of whole seconds since local midnight, so the
    milliseconds of the instant are dropped. *)
Theorem local_time_of_day (rt : Runtime) (t : Z) (timezone : option string) :
  (∀ z, timezone = Some z → z ≠ EmptyString →
        Intl_supported rt z = false ∨ Intl_hms rt z t = None) →
  ∃ h m s,
    getTimeInTimezone rt (Some t) timezone
    = {| hours := Some h; minutes := Some m; seconds := Some s;
         totalSeconds := Some (((t + tzOffset rt) mod msPerDay) / 1000) |}
    ∧ 0 <= h < 24 ∧ 0 <= m < 60 ∧ 0 <= s < 60
    ∧ ((t + tzOffset rt) mod msPerDay) / 1000 = h * 3600 + m * 60 + s
    ∧ 0 <= ((t + tzOffset rt) mod msPerDay) / 1000 < 86400.
Proof.
  intros Hzone.
  assert (Hlocal : getTimeInTimezone rt (Some t) timezone = localTime rt (Some t)).
  { unfold getTimeInTimezone. destruct (given timezone) eqn:Hg; [|done].
    destruct timezone as [z|]; [|done]. cbn [default from_option id].
    assert (z ≠ EmptyString) as Hz.
    { intros ->. by cbn in Hg. }
    unfold validateTimezone.
    destruct (Hzone z eq_refl Hz) as [Hs|Hi].
    - by rewrite Hs.
    - destruct (Intl_supported rt z); [|done]. cbn [negb mbind option_bind]. by rewrite Hi. }
  rewrite Hlocal. unfold localTime, getHours, getMinutes, getSeconds, msPerDay. cbn [fmap option_fmap option_map].
  set (l := t + tzOffset rt).
  exists (l mod 86400000 / 3600000), (l mod 3600000 / 60000), (l mod 60000 / 1000).
  pose proof (Z.mod_pos_bound l 86400000 ltac:(lia)) as Hd.
  pose proof (Z.mod_pos_bound l 3600000 ltac:(lia)) as Hh.
  pose proof (Z.mod_pos_bound l 60000 ltac:(lia)) as Hm.
  assert (Hsum : l mod 86400000 / 1000
                 = l mod 86400000 / 3600000 * 3600 + l mod 3600000 / 60000 * 60
                   + l mod 60000 / 1000).
  { pose proof (Z.div_mod l 86400000 ltac:(lia)) as E1.
    pose proof (Z.div_mod l 3600000 ltac:(lia)) as E2.
    pose proof (Z.div_mod l 60000 ltac:(lia)) as E3.
    pose proof (Z.div_mod (l mod 86400000) 3600000 ltac:(lia)) as E4.
    pose proof (Z.div_mod (l mod 3600000) 60000 ltac:(lia)) as E5.
    pose proof (Z.div_mod (l mod 60000) 1000 ltac:(lia)) as E6.
    pose proof (Z.mod_pos_bound (l mod 86400000) 3600000 ltac:(lia)) as B4.
    pose proof (Z.mod_pos_bound (l mod 3600000) 60000 ltac:(lia)) as B5.
    pose proof (Z.mod_pos_bound (l mod 60000) 1000 ltac:(lia)) as B6.
    assert (M1 : (l mod 86400000) mod 3600000 = l mod 3600000).
    { apply Z.mod_mod_divide. by exists 24. }
    assert (M2 : (l mod 3600000) mod 60000 = l mod 60000).
    { apply Z.mod_mod_divide. by exists 60. }
    rewrite M1 in E4, B4. rewrite M2 in E5, B5.
    symmetry. apply Z.div_unique with (r := (l mod 60000) mod 1000); lia. }
  split_and!.
  - by rewrite Hsum.
  - apply Z.div_pos; lia.
  - apply Z.div_lt_upper_bound; lia.
  - apply Z.div_pos; lia.
  - apply Z.div_lt_upper_bound; lia.
  - apply Z.div_pos; lia.
  - apply Z.div_lt_upper_bound; lia.
  - done.
  - apply Z.div_pos; lia.
  - apply Z.div_lt_upper_bound; lia.
Qed.

(** ** What the filter and sort stage keeps, and in which order *)

Lemma List_filter_sublist {A} (P : A → bool) (l : list A) :
  List.filter P l `sublist_of` l.
Proof.
  induction l as [|x l IH]; [done|]. cbn. destruct (P x); by constructor.
Qed.

Lemma kept_sublist (rt : Runtime) (stargazers : list record) (options : Options) :
  ∃ kept, kept `sublist_of` stargazers
          ∧ filterAndSortStargazers rt stargazers options
            = JS.sort (byStarredAt rt options) kept
          ∧ (given (optDate options) = false → kept = stargazers)
          ∧ (∀ d, optDate options = Some d → given (optDate options) = true →
                  Forall (fun s => onDate rt d s = true) kept)
          ∧ (given (optDate options) = true →
             given (optFrom options) || given (optTo options) = true →
             Forall (fun s => inWindow rt options s = true) kept).
Proof.
  unfold filterAndSortStargazers. destruct (given (optDate options)) eqn:Hd.
  - destruct (given (optFrom options) || given (optTo options)) eqn:Hw.
    + eexists. split_and!; [|done|done| |].
      * etrans; apply List_filter_sublist.
      * intros d Hd' _. rewrite Hd'. cbn [default from_option id].
        apply Forall_forall. intros s [[_ Hs]%elem_of_List_filter _]%elem_of_List_filter.
        done.
      * intros _ _. apply Forall_forall. intros s Hs%elem_of_List_filter. tauto.
    + eexists. split_and!; [|done|done| |done].
      * apply List_filter_sublist.
      * intros d Hd' _. rewrite Hd'. cbn [default from_option id].
        apply Forall_forall. intros s Hs%elem_of_List_filter. tauto.
  - exists stargazers. by split_and!.
Qed.

(** X10.  The stage returns only records it was given, each at most as
    often as it was given; without a date nothing is filtered out, whatever
    [from] and [to] are: the result is the input in another order. *)
Theorem filter_keeps_only_input_records (rt : Runtime) (stargazers : list record)
    (options : Options) :
  filterAndSortStargazers rt stargazers options ⊆+ stargazers
  ∧ (given (optDate options) = false →
     filterAndSortStargazers rt stargazers options ≡ₚ stargazers).
Proof.
  destruct (kept_sublist rt stargazers options) as (kept & Hsub & -> & Hall & _).
  split.
  - rewrite sort_perm. by apply sublist_submseteq.
  - intros Hd. rewrite sort_perm. by rewrite (Hall Hd).
Qed.

Lemma Forall_true_nil {A} (P : A → Prop) (l : list A) :
  Forall P l → (∀ x, P x → False) → l = [].
Proof. intros [|x l' Hx _] Hno; [done|]. destruct (Hno x Hx). Qed.

(** X11.  A date that has the form YYYY-MM-DD but is no date (a month 13,
    say) makes [new Date(options.date)] invalid; every comparison with it
    fails and the stage returns no record at all. *)
Theorem unparsable_date_gives_nothing (rt : Runtime) (stargazers : list record)
    (options : Options) (date : string) :
  optDate options = Some date → date ≠ EmptyString →
  Date_parse rt date = None →
  filterAndSortStargazers rt stargazers options = [].
Proof.
  intros Hd Hne Hparse.
  assert (Hg : given (optDate options) = true).
  { rewrite Hd. cbn. by apply negb_true_iff, String.eqb_neq. }
  destruct (kept_sublist rt stargazers options) as (kept & _ & -> & _ & Hon & _).
  rewrite (Forall_true_nil _ kept (Hon date Hd Hg)); [done|].
  intros s. unfold onDate, targetDate. cbn [new_Date]. rewrite Hparse.
  cbn. unfold num_ge. by destruct (starredDate rt s).
Qed.

(** X12.  A window whose end lies before its start keeps nothing: the
    window does not wrap around midnight. *)
Theorem inverted_window_gives_nothing (rt : Runtime) (stargazers : list record)
    (options : Options) (f u : Z) :
  given (optDate options) = true →
  bound (optFrom options) = Some (Some f) →
  bound (optTo options) = Some (Some u) →
  u < f →
  filterAndSortStargazers rt stargazers options = [].
Proof.
  intros Hg Hf Hu Hlt.
  destruct (kept_sublist rt stargazers options) as (kept & _ & -> & _ & Hon & Hwin).
  destruct (optDate options) as [date|] eqn:Hd; [|done].
  assert (Hw : given (optFrom options) || given (optTo options) = true).
  { unfold bound in Hf. by destruct (given (optFrom options)). }
  specialize (Hon date eq_refl Hg). specialize (Hwin Hg Hw).
  assert (Hboth : Forall (fun s => onDate rt date s = true ∧ inWindow rt options s = true) kept).
  { apply Forall_and; by split. }
  rewrite (Forall_true_nil _ kept Hboth); [done|].
  intros s [[t Ht]%onDate_valid Hin].
  destruct (totalSeconds_valid rt t (optTimezone options)) as [secs Hsecs].
  rewrite (inWindow_bounds rt options s f u secs) in Hin; [|done|done|].
  - apply andb_prop in Hin as [?%Z.leb_le ?%Z.leb_le]. lia.
  - unfold starredTime. by rewrite Ht.
Qed.

(** *** Order *)

Lemma inOrder_trans (rt : Runtime) (options : Options) (a b c : record) :
  inOrder rt options a b → inOrder rt options b c → inOrder rt options a c.
Proof.
  intros (ta & tb & Ha & Hb & Hab) (tb' & tc & Hb' & Hc & Hbc). simplify_eq.
  exists ta, tc. split_and!; [done..|]. destruct (String.eqb _ _); lia.
Qed.

Lemma byStarredAt_valid (rt : Runtime) (options : Options) (a b : record) (ta tb : Z) :
  starredDate rt a = Some ta → starredDate rt b = Some tb →
  byStarredAt rt options a b
  = Some (if String.eqb (optSort options) "asc" then ta - tb else tb - ta).
Proof. intros Ha Hb. unfold byStarredAt. rewrite Ha, Hb. by destruct (String.eqb _ _). Qed.

Lemma sort_insert_inOrder (rt : Runtime) (options : Options) (x : record) (l : list record) :
  Forall (fun s => is_Some (starredDate rt s)) (x :: l) →
  StronglySorted (inOrder rt options) l →
  StronglySorted (inOrder rt options) (sort_insert (byStarredAt rt options) x l).
Proof.
  intros [[tx Hx] Hl]%Forall_cons Hsorted.
  induction Hsorted as [|y l Hsorted IH Hy]; [by repeat constructor|].
  apply Forall_cons in Hl as [[ty Hty] Hl]. cbn [sort_insert].
  rewrite (byStarredAt_valid rt options x y tx ty) by done. cbn [default from_option id].
  destruct (0 <? _) eqn:Hcmp.
  - apply Z.ltb_lt in Hcmp. constructor; [by apply IH|].
    rewrite sort_insert_perm. constructor; [|done].
    exists ty, tx. split_and!; [done..|]. destruct (String.eqb _ _); lia.
  - apply Z.ltb_ge in Hcmp.
    assert (Hxy : inOrder rt options x y).
    { exists tx, ty. split_and!; [done..|]. destruct (String.eqb _ _); lia. }
    constructor; [by constructor|]. constructor; [done|].
    eapply Forall_impl; [exact Hy|]. intros z Hz. by eapply inOrder_trans.
Qed.

Lemma sort_inOrder (rt : Runtime) (options : Options) (l : list record) :
  Forall (fun s => is_Some (starredDate rt s)) l →
  StronglySorted (inOrder rt options) (JS.sort (byStarredAt rt options) l).
Proof.
  induction l as [|x l IH]; intros Hvalid; [constructor|].
  cbn [JS.sort]. apply sort_insert_inOrder.
  - apply Forall_cons in Hvalid as [Hx Hl]. constructor; [done|]. by rewrite sort_perm.
  - apply IH. by apply Forall_cons in Hvalid as [_ ?].
Qed.

Lemma kept_valid (rt : Runtime) (stargazers kept : list record) (options : Options) :
  (given (optDate options) = false →
   Forall (fun s => is_Some (starredDate rt s)) stargazers) →
  (given (optDate options) = false → kept = stargazers) →
  (∀ d, optDate options = Some d → given (optDate options) = true →
        Forall (fun s => onDate rt d s = true) kept) →
  Forall (fun s => is_Some (starredDate rt s)) kept.
Proof.
  intros Hvalid Hall Hon. destruct (given (optDate options)) eqn:Hg.
  - destruct (optDate options) as [d|] eqn:Hd; [|done].
    eapply Forall_impl; [exact (Hon d eq_refl eq_refl)|].
    intros s [t Ht]%onDate_valid. by exists t.
  - rewrite Hall by done. by apply Hvalid.
Qed.

(** X13.  The result is in the order asked for, oldest first for [asc] and
    newest first otherwise, whenever the records that are sorted have valid
    dates; those that passed a date filter always have. *)
Theorem result_is_in_the_order_asked_for (rt : Runtime) (stargazers : list record)
    (options : Options) :
  (given (optDate options) = false →
   Forall (fun s => is_Some (starredDate rt s)) stargazers) →
  StronglySorted (inOrder rt options) (filterAndSortStargazers rt stargazers options).
Proof.
  intros Hvalid.
  destruct (kept_sublist rt stargazers options) as (kept & _ & -> & Hall & Hon & _).
  apply sort_inOrder. by eapply kept_valid.
Qed.

(** *** Ties *)

Lemma sort_insert_ties (rt : Runtime) (options : Options) (t : Z) (x : record)
    (l : list record) :
  List.filter (starredAt rt t) (sort_insert (byStarredAt rt options) x l)
  = List.filter (starredAt rt t) (x :: l).
Proof.
  induction l as [|y l IH]; [done|]. cbn [sort_insert].
  destruct (0 <? _) eqn:Hcmp; [|done].
  cbn [List.filter] in *. rewrite IH.
  destruct (starredAt rt t x) eqn:Hx, (starredAt rt t y) eqn:Hy; try done.
  exfalso. unfold starredAt in Hx, Hy.
  apply bool_decide_eq_true in Hx, Hy.
  rewrite (byStarredAt_valid rt options x y t t) in Hcmp by done.
  cbn in Hcmp. apply Z.ltb_lt in Hcmp. destruct (String.eqb _ _); lia.
Qed.

Lemma sort_ties (rt : Runtime) (options : Options) (t : Z) (l : list record) :
  List.filter (starredAt rt t) (JS.sort (byStarredAt rt options) l)
  = List.filter (starredAt rt t) l.
Proof.
  induction l as [|x l IH]; [done|]. cbn [JS.sort].
  rewrite sort_insert_ties. cbn [List.filter]. by rewrite IH.
Qed.

(** X14.  The sort is stable: the records of the result that were starred
    at one same instant come in the order in which the input had them. *)
Theorem ties_keep_the_order_of_the_fetch (rt : Runtime) (stargazers : list record)
    (options : Options) (t : Z) :
  (given (optDate options) = false →
   Forall (fun s => is_Some (starredDate rt s)) stargazers) →
  List.filter (starredAt rt t) (filterAndSortStargazers rt stargazers options)
    `sublist_of` stargazers.
Proof.
  intros _.
  destruct (kept_sublist rt stargazers options) as (kept & Hsub & -> & _).
  rewrite sort_ties. etrans; [apply List_filter_sublist|done].
Qed.

(** ** More on the enrichment batcher *)

Lemma Promise_all_not_rejected {A} (ps : list (Outcome A)) :
  Forall (fun p => ∀ e, p ≠ Rejected e) ps → ∀ e, Promise_all ps ≠ Rejected e.
Proof.
  induction 1 as [|p ps Hp _ IH]; intros e; [done|]. cbn [Promise_all].
  destruct p as [a|e'|]; [|by destruct (Hp e')|];
    destruct (Promise_all ps) as [l|e'|] eqn:Hall; try done; by destruct (IH e').
Qed.

Lemma Promise_all_resolved_inv {A} (ps : list (Outcome A)) (l : list A) :
  Promise_all ps = Resolved l → Forall2 (fun p a => p = Resolved a) ps l.
Proof.
  revert l. induction ps as [|p ps IH]; intros l Hall.
  - cbn in Hall. injection Hall as <-. constructor.
  - cbn [Promise_all] in Hall.
    destruct p as [a|e|], (Promise_all ps) as [l'|e'|]; try done.
    injection Hall as <-. constructor; [done|]. by apply IH.
Qed.

Lemma enrichOne_not_rejected (cfg : Config) (stargazer : record) (net : list Exchange) e :
  enrichOne cfg stargazer net ≠ Rejected e.
Proof.
  pose proof (enrichOne_cases cfg stargazer net) as Hc.
  destruct ((makeRequest cfg (userUrl (prop stargazer "login")) None net).1.1);
    by rewrite Hc.
Qed.

Lemma enrichOne_resolved_settles (cfg : Config) (stargazer : record) (net : list Exchange) a :
  enrichOne cfg stargazer net = Resolved a → settles cfg stargazer net.
Proof.
  pose proof (enrichOne_cases cfg stargazer net) as Hc. unfold settles.
  destruct ((makeRequest cfg (userUrl (prop stargazer "login")) None net).1.1);
    [done|done|]. by rewrite Hc.
Qed.

Lemma batches_not_rejected (cfg : Config) (stargazers : list record)
    (net : nat → list Exchange) (fuel : nat) :
  ∀ i enriched e, (batches fuel cfg stargazers net i enriched).1 ≠ Rejected e.
Proof.
  induction fuel as [|fuel IH]; intros i enriched e; [done|].
  cbn [batches]. destruct (i <? length stargazers)%nat; [|done].
  destruct (Promise_all _) as [results|e'|] eqn:Hall; [| |done].
  - destruct (batches fuel cfg stargazers net (i + batchSize) _) as [o steps] eqn:Hrec.
    cbn [fst]. change o with (o, steps).1. rewrite <- Hrec. apply IH.
  - exfalso. revert Hall. apply Promise_all_not_rejected.
    apply Forall_forall. intros p Hp e0.
    apply elem_of_lookup_imap in Hp as (j & s & -> & _). apply enrichOne_not_rejected.
Qed.

Lemma batches_resolved_settle (cfg : Config) (stargazers : list record)
    (net : nat → list Exchange) (fuel : nat) :
  ∀ i enriched out,
    (batches fuel cfg stargazers net i enriched).1 = Resolved out →
    ∀ k s, (i <= k)%nat → stargazers !! k = Some s → settles cfg s (net k).
Proof.
  induction fuel as [|fuel IH]; intros i enriched out Hrun k s Hik Hk; [done|].
  cbn [batches] in Hrun. destruct (i <? length stargazers)%nat eqn:Hi.
  - destruct (Promise_all _) as [results|e'|] eqn:Hall; [|done|done].
    destruct (batches fuel cfg stargazers net (i + batchSize) _) as [o steps] eqn:Hrec.
    cbn [fst] in Hrun. subst o.
    destruct (decide (k < i + batchSize)%nat) as [Hlt|Hge].
    + apply Promise_all_resolved_inv in Hall.
      assert (Hb : batchAt stargazers i !! (k - i)%nat = Some s).
      { unfold batchAt. rewrite lookup_take_lt by lia. rewrite lookup_drop.
        by replace (i + (k - i))%nat with k by lia. }
      assert (Hp : imap (fun batchIndex stargazer =>
                           enrichOne cfg stargazer (net (i + batchIndex)%nat))
                     (batchAt stargazers i) !! (k - i)%nat
                   = Some (enrichOne cfg s (net k))).
      { rewrite list_lookup_imap, Hb. cbn. by replace (i + (k - i))%nat with k by lia. }
      destruct (Forall2_lookup_l _ _ _ _ _ Hall Hp) as (a & _ & Ha).
      by eapply enrichOne_resolved_settles.
    + eapply (IH (i + batchSize)%nat); [by rewrite Hrec| |done]. lia.
  - apply Nat.ltb_ge in Hi. apply lookup_lt_Some in Hk. lia.
Qed.

Lemma enrichment_resolved_length (cfg : Config) (stargazers enriched : list record)
    (net : nat → list Exchange) :
  (enrichStargazersData cfg stargazers net).1 = Resolved enriched →
  length enriched = length stargazers.
Proof.
  intros Hrun.
  assert (Hsettle : ∀ k s, stargazers !! k = Some s → settles cfg s (net k)).
  { intros k s Hk.
    eapply (batches_resolved_settle cfg stargazers net _ 0%nat []); [exact Hrun|lia|done]. }
  pose proof (batches_run cfg stargazers net Hsettle (S (length stargazers)) 0%nat []
                ltac:(lia) ltac:(lia)) as Hout.
  unfold enrichStargazersData in Hrun. rewrite Hrun in Hout.
  injection Hout as ->. cbn [app]. by rewrite drop_0, length_imap.
Qed.

(** X15.  [enrichStargazersData] never rejects, and it resolves only when
    the request of every record got an answer: one request that never
    settles keeps the whole enrichment from returning.  When it resolves,
    the result is as long as the input. *)
Theorem enrichment_needs_every_answer (cfg : Config) (stargazers : list record)
    (net : nat → list Exchange) :
  (∀ e, (enrichStargazersData cfg stargazers net).1 ≠ Rejected e)
  ∧ (∀ enriched,
       (enrichStargazersData cfg stargazers net).1 = Resolved enriched →
       length enriched = length stargazers
       ∧ ∀ k s, stargazers !! k = Some s → settles cfg s (net k)).
Proof.
  split; [intros e; apply batches_not_rejected|].
  intros enriched Hrun. split; [by eapply enrichment_resolved_length|].
  intros k s Hk.
  eapply (batches_resolved_settle cfg stargazers net _ 0%nat []); [exact Hrun|lia|done].
Qed.

Lemma batches_schedule (cfg : Config) (stargazers : list record)
    (net : nat → list Exchange) (fuel : nat) :
  ∀ i enriched,
    (length stargazers < fuel + i)%nat →
    (batches fuel cfg stargazers net i enriched).2
    = withPauses (batchesOf (batches fuel cfg stargazers net i enriched).2)
    ∧ ((i < length stargazers)%nat →
       batchesOf (batches fuel cfg stargazers net i enriched).2 ≠ []).
Proof.
  induction fuel as [|fuel IH]; intros i enriched Hfuel.
  { split; [done|]. cbn in Hfuel. lia. }
  cbn [batches]. destruct (i <? length stargazers)%nat eqn:Hi.
  - destruct (Promise_all _) as [results|e'|] eqn:Hall; [|done|done].
    destruct (IH (i + batchSize)%nat (enriched ++ results.*1)
                ltac:(unfold batchSize; lia)) as [Hsched Hne].
    destruct (batches fuel cfg stargazers net (i + batchSize) _) as [o steps] eqn:Hrec.
    cbn [snd] in *. split; [|done].
    destruct (i + batchSize <? length stargazers)%nat eqn:Hnext.
    + apply Nat.ltb_lt in Hnext. specialize (Hne Hnext).
      change (batchesOf (Batch (batchAt stargazers i) :: [Pause 2000] ++ steps))
        with (batchAt stargazers i :: batchesOf steps).
      destruct (batchesOf steps) as [|b bs] eqn:Hbs; [done|].
      cbn [withPauses app]. by rewrite Hsched at 1.
    + apply Nat.ltb_ge in Hnext.
      assert (steps = []) as ->.
      { apply (f_equal snd) in Hrec. cbn [snd] in Hrec. rewrite <- Hrec.
        destruct fuel as [|fuel']; [done|]. cbn [batches].
        by replace (i + batchSize <? length stargazers)%nat with false
          by (symmetry; apply Nat.ltb_ge; lia). }
      done.
  - split; [done|]. apply Nat.ltb_ge in Hi. lia.
Qed.

(** X16.  The batcher waits two seconds between one batch and the next,
    and neither before the first batch nor after the last one. *)
Theorem pauses_separate_batches (cfg : Config) (stargazers : list record)
    (net : nat → list Exchange) :
  (enrichStargazersData cfg stargazers net).2
  = withPauses (batchesOf (enrichStargazersData cfg stargazers net).2).
Proof. apply batches_schedule. lia. Qed.

(** ** More on the report *)

Lemma sum_insert (m : gmap string Count) (k : string) (c : Count) :
  map_fold (fun _ c acc => counted c + acc) 0 (<[k := c]> m)
  = map_fold (fun _ c acc => counted c + acc) 0 m + counted c
    - default 0 (counted <$> m !! k).
Proof.
  assert (Hcomm : ∀ (m' : gmap string Count) (j1 j2 : string) (z1 z2 : Count) (y : Z),
            j1 ≠ j2 → m' !! j1 = Some z1 → m' !! j2 = Some z2 →
            counted z1 + (counted z2 + y) = counted z2 + (counted z1 + y))
    by (intros; lia).
  destruct (m !! k) as [w|] eqn:Hk; cbn [default from_option id fmap option_fmap option_map].
  - rewrite <- (insert_delete_id m k w Hk) at 2. rewrite <- (insert_delete_eq m).
    rewrite !map_fold_insert_L; [lia|by eauto|by rewrite lookup_delete_eq|by eauto|
                                 by rewrite lookup_delete_eq].
  - rewrite map_fold_insert_L; [lia|by eauto|done].
Qed.

Lemma sum_foldl_countType (stargazers : list record) :
  ∀ counts,
    Forall (fun s => Object_prototype (typeName s) = None) stargazers →
    map_Forall (fun _ c => ∃ n, c = Number n) counts →
    map_Forall (fun _ c => ∃ n, c = Number n) (foldl countType counts stargazers)
    ∧ map_fold (fun _ c acc => counted c + acc) 0 (foldl countType counts stargazers)
      = map_fold (fun _ c acc => counted c + acc) 0 counts + Z.of_nat (length stargazers).
Proof.
  induction stargazers as [|s l IH]; intros counts Hnames Hnum; cbn [foldl length].
  { split; [done|lia]. }
  apply Forall_cons in Hnames as [Hs Hl].
  assert (Hstep : map_Forall (fun _ c => ∃ n, c = Number n) (countType counts s)
                  ∧ map_fold (fun _ c acc => counted c + acc) 0 (countType counts s)
                    = map_fold (fun _ c acc => counted c + acc) 0 counts + 1).
  { unfold countType. fold (typeName s). cbn zeta.
    destruct (counts !! typeName s) as [[n|t]|] eqn:Hk.
    - split; [apply map_Forall_insert_2; by eauto|].
      rewrite sum_insert, Hk. cbn. lia.
    - by destruct (Hnum _ _ Hk).
    - rewrite Hs. split; [apply map_Forall_insert_2; by eauto|].
      rewrite sum_insert, Hk. cbn. lia. }
  destruct Hstep as [Hnum' Hsum'].
  destruct (IH _ Hl Hnum') as [Hall Hsum]. split; [done|]. rewrite Hsum, Hsum'. lia.
Qed.

(** X17.  When no record has a type named as a member that every object
    inherits (constructor, toString, [__proto__] and the like), the
    [user_types] of a report holds numbers only and they add up to its
    total. *)
Theorem type_counts_add_up (rt : Runtime) (cfg : Config) (clock : Z)
    (stargazers : list record) :
  Forall (fun s => Object_prototype (typeName s) = None) stargazers →
  map_Forall (fun _ c => ∃ n, c = Number n)
    (user_types (statistics (generateStargazersReport rt cfg clock stargazers)))
  ∧ map_fold (fun _ c acc => counted c + acc) 0
      (user_types (statistics (generateStargazersReport rt cfg clock stargazers)))
    = total_stargazers (summary (generateStargazersReport rt cfg clock stargazers)).
Proof.
  intros Hnames.
  cbn [generateStargazersReport statistics user_types summary total_stargazers].
  destruct (sum_foldl_countType stargazers ∅ Hnames (map_Forall_empty _)) as [Hall Hsum].
  split; [done|]. rewrite Hsum. by rewrite map_fold_empty.
Qed.

Lemma type_counts_add_up_witness :
  map_Forall (fun _ c => ∃ n, c = Number n)
    (user_types (statistics (generateStargazersReport hostUTC cfg0 0 [atNine; atFive])))
  ∧ map_fold (fun _ c acc => counted c + acc) 0
      (user_types (statistics (generateStargazersReport hostUTC cfg0 0 [atNine; atFive])))
    = total_stargazers (summary (generateStargazersReport hostUTC cfg0 0 [atNine; atFive])).
Proof.
  apply (type_counts_add_up hostUTC cfg0 0 [atNine; atFive]).
  repeat (apply Forall_cons; split; [reflexivity|]). apply Forall_nil_2.
Defined.

Lemma slice_last_all {A} (n : nat) (l : list A) :
  (length l <= n)%nat → slice_last n l = l.
Proof. intros Hn. unfold slice_last. by replace (length l - n)%nat with 0%nat by lia. Qed.

(** X18.  With at most ten records the report names every one of them in
    both date lists: the oldest list is the most recent list read
    backwards, and the top list is the whole input. *)
Theorem few_stargazers_are_listed_twice (rt : Runtime) (cfg : Config) (clock : Z)
    (stargazers : list record) :
  (length stargazers <= 10)%nat →
  let report := generateStargazersReport rt cfg clock stargazers in
  oldest_stargazers (statistics report) = reverse (recent_stargazers (statistics report))
  ∧ recent_stargazers (statistics report) ≡ₚ dateEntry <$> stargazers
  ∧ top_stargazers (statistics report) = topEntry <$> stargazers.
Proof.
  intros Hlen. cbn zeta.
  cbn [generateStargazersReport statistics oldest_stargazers recent_stargazers top_stargazers].
  assert (Hs : length (JS.sort (newestFirst rt) stargazers) = length stargazers)
    by (by rewrite sort_perm).
  rewrite !slice0_take by lia. rewrite slice_last_all by lia.
  rewrite !take_ge by lia. split_and!.
  - by rewrite fmap_reverse.
  - by rewrite sort_perm.
  - done.
Qed.

(** ** The stages in a row *)

(** X19.  The limit bounds every later stage.  [main] hands what
    [getStargazers(options.limit)] returns to the filter and sort stage, its
    result to the enrichment and the enriched list to the report: with a
    positive limit none of the three lists is longer than the limit, and the
    total of the report is at most the limit.  The limit is applied before
    the filters, so the filtered list may well be shorter. *)
Theorem limit_bounds_every_later_stage (rt : Runtime) (cfg : Config) (limit clock : Z)
    (net : list Exchange) (userNet : nat → list Exchange) (options : Options)
    (stargazers enriched : list record) :
  0 < limit →
  outcome (getStargazers cfg (Some limit) net) = Resolved stargazers →
  (enrichStargazersData cfg (filterAndSortStargazers rt stargazers options) userNet).1
    = Resolved enriched →
  Z.of_nat (length (filterAndSortStargazers rt stargazers options)) <= limit
  ∧ length enriched = length (filterAndSortStargazers rt stargazers options)
  ∧ total_stargazers (summary (generateStargazersReport rt cfg clock enriched)) <= limit
  ∧ length (stargazers_list (generateStargazersReport rt cfg clock enriched))
    = length enriched.
Proof.
  intros Hlimit Hfetch Henrich.
  assert (Hstars : Z.of_nat (length stargazers) <= limit).
  { unfold outcome, getStargazers in Hfetch.
    destruct (pages (S (length net)) cfg (Some limit) [] 1 net) as [[o tr] rest] eqn:Hrun.
    cbn [fst] in Hfetch. subst o.
    eapply (pages_at_most_limit cfg limit _ Hlimit [] 1 net); [cbn; lia|exact Hrun]. }
  assert (Hkept : (length (filterAndSortStargazers rt stargazers options)
                   <= length stargazers)%nat).
  { destruct (kept_sublist rt stargazers options) as (kept & Hsub & -> & _).
    rewrite sort_perm. by apply sublist_length. }
  pose proof (enrichment_resolved_length _ _ _ _ Henrich) as Hlen.
  split_and!; [lia|done| |].
  - cbn [generateStargazersReport summary total_stargazers]. lia.
  - cbn [generateStargazersReport stargazers_list]. by rewrite length_fmap.
Qed.

(** *** The stage as one filter and one sort *)

Lemma List_filter_all {A} (P : A → bool) (l : list A) :
  Forall (fun x => P x = true) l → List.filter P l = l.
Proof. induction 1 as [|x l Hx _ IH]; [done|]. cbn. by rewrite Hx, IH. Qed.

Lemma filterAndSort_passes (rt : Runtime) (stargazers : list record) (options : Options) :
  filterAndSortStargazers rt stargazers options
  = JS.sort (byStarredAt rt options) (List.filter (passes rt options) stargazers).
Proof.
  unfold filterAndSortStargazers, passes. destruct (given (optDate options)).
  - destruct (given (optFrom options) || given (optTo options)).
    + by rewrite filter_filter.
    + f_equal. apply filter_ext_in. intros s _. by rewrite andb_true_r.
  - f_equal. symmetry. apply List_filter_all. by apply Forall_forall.
Qed.

Lemma passes_valid (rt : Runtime) (stargazers : list record) (options : Options) :
  (given (optDate options) = false →
   Forall (fun s => is_Some (starredDate rt s)) stargazers) →
  Forall (fun s => is_Some (starredDate rt s)) (List.filter (passes rt options) stargazers).
Proof.
  intros Hvalid. apply Forall_forall. intros s [Hs Hp]%elem_of_List_filter.
  unfold passes in Hp. destruct (given (optDate options)).
  - apply andb_prop in Hp as [[t Ht]%onDate_valid _]. by exists t.
  - by eapply (proj1 (Forall_forall _ _) (Hvalid eq_refl)).
Qed.

Lemma sorted_sort_id (rt : Runtime) (options : Options) (l : list record) :
  StronglySorted (inOrder rt options) l → JS.sort (byStarredAt rt options) l = l.
Proof.
  induction 1 as [|x l _ IH Hx]; [done|]. cbn [JS.sort]. rewrite IH.
  destruct Hx as [|y l (tx & ty & Htx & Hty & Hle) _]; [done|]. cbn [sort_insert].
  rewrite (byStarredAt_valid rt options x y tx ty) by done. cbn [default from_option id].
  replace (0 <? _) with false; [done|].
  symmetry. apply Z.ltb_ge. destruct (String.eqb _ _); lia.
Qed.

(** X20.  Running the stage on its own result changes nothing: what passed
    the filters passes them again, and a list in the order asked for is
    left as it is. *)
Theorem filter_and_sort_twice_is_once (rt : Runtime) (stargazers : list record)
    (options : Options) :
  (given (optDate options) = false →
   Forall (fun s => is_Some (starredDate rt s)) stargazers) →
  filterAndSortStargazers rt (filterAndSortStargazers rt stargazers options) options
  = filterAndSortStargazers rt stargazers options.
Proof.
  intros Hvalid. rewrite (filterAndSort_passes rt (filterAndSortStargazers _ _ _)).
  rewrite filterAndSort_passes.
  set (kept := List.filter (passes rt options) stargazers).
  rewrite (List_filter_all (passes rt options) (JS.sort _ kept)).
  - apply sorted_sort_id, sort_inOrder. by apply passes_valid.
  - rewrite sort_perm. apply Forall_forall. by intros s [_ ?]%elem_of_List_filter.
Qed.

Lemma StronglySorted_reverse {A} (R S : relation A) (l : list A) :
  (∀ a b, R b a → S a b) →
  StronglySorted R l → StronglySorted S (reverse l).
Proof.
  intros HRS. induction 1 as [|x l _ IH Hx]; [constructor|]. rewrite reverse_cons.
  apply StronglySorted_app_2; [|done|by repeat constructor].
  intros x1 x2 Hx1 ->%list_elem_of_singleton. rewrite elem_of_reverse in Hx1.
  by apply HRS, (proj1 (Forall_forall _ _) Hx).
Qed.

Lemma inOrder_flip (rt : Runtime) (options : Options) (a b : record) :
  inOrder rt (withSort "asc" options) b a → inOrder rt (withSort "desc" options) a b.
Proof. intros (tb & ta & Hb & Ha & Hle). by exists ta, tb. Qed.

(** X21.  When the records have valid dates, no two the same, the result
    for [desc] is the result for [asc] read backwards. *)
Theorem newest_first_is_oldest_first_reversed (rt : Runtime) (stargazers : list record)
    (options : Options) :
  datedApart rt stargazers →
  filterAndSortStargazers rt stargazers (withSort "desc" options)
  = reverse (filterAndSortStargazers rt stargazers (withSort "asc" options)).
Proof.
  intros [Hvalid Hapart]. rewrite !filterAndSort_passes.
  change (passes rt (withSort "desc" options)) with (passes rt options).
  change (passes rt (withSort "asc" options)) with (passes rt options).
  set (kept := List.filter (passes rt options) stargazers).
  assert (Hkept : Forall (fun s => is_Some (starredDate rt s)) kept).
  { apply passes_valid. by intros _. }
  apply (StronglySorted_unique_strong (inOrder rt (withSort "desc" options))).
  - intros a b Ha Hb (ta & tb & Hta & Htb & Hab) (tb' & ta' & Htb' & Hta' & Hba).
    rewrite sort_perm in Ha. rewrite elem_of_reverse, sort_perm in Hb.
    apply elem_of_List_filter in Ha as [Ha _], Hb as [Hb _].
    apply Hapart; [done|done|]. simplify_eq. rewrite Hta, Htb. f_equal.
    cbn in Hab, Hba. lia.
  - by apply sort_inOrder.
  - eapply StronglySorted_reverse; [|apply sort_inOrder, Hkept].
    intros a b. apply inOrder_flip.
  - by rewrite reverse_Permutation, !sort_perm.
Qed.

(** *** Instances *)

Lemma accepted_time_parses_witness :
  ∃ t, parseTime "09:30:15" = Some t ∧ 0 <= t < 86400.
Proof. apply (accepted_time_parses "09:30:15"). reflexivity. Defined.

Lemma local_time_of_day_witness :
  ∃ h m s,
    getTimeInTimezone hostKolkata (Some 1740589200500) (Some "Mars/Phobos")
    = {| hours := Some h; minutes := Some m; seconds := Some s;
         totalSeconds :=
           Some (((1740589200500 + tzOffset hostKolkata) mod msPerDay) / 1000) |}
    ∧ 0 <= h < 24 ∧ 0 <= m < 60 ∧ 0 <= s < 60
    ∧ ((1740589200500 + tzOffset hostKolkata) mod msPerDay) / 1000 = h * 3600 + m * 60 + s
    ∧ 0 <= ((1740589200500 + tzOffset hostKolkata) mod msPerDay) / 1000 < 86400.
Proof.
  apply (local_time_of_day hostKolkata 1740589200500 (Some "Mars/Phobos")).
  intros z [= <-] _. left. reflexivity.
Defined.

Lemma unparsable_date_gives_nothing_witness :
  filterAndSortStargazers hostUTC [atNine; atFive] (withDate "2025-13-45" defaults) = [].
Proof.
  apply (unparsable_date_gives_nothing hostUTC _ _ "2025-13-45");
    [reflexivity|discriminate|reflexivity].
Defined.

Lemma inverted_window_gives_nothing_witness :
  filterAndSortStargazers hostUTC [atNine; atFive; pastFive]
    (withTo "09:00" (withFrom "17:00" (withDate "2025-02-26" defaults))) = [].
Proof.
  apply (inverted_window_gives_nothing hostUTC _ _ 61200 32400);
    [reflexivity|reflexivity|reflexivity|lia].
Defined.

Lemma nine_five_valid :
  Forall (fun s => is_Some (starredDate hostUTC s)) [atFive; atNine; pastFive].
Proof. repeat (apply Forall_cons; split; [by eexists|]). apply Forall_nil_2. Qed.

Lemma result_is_in_the_order_asked_for_witness :
  StronglySorted (inOrder hostUTC defaults)
    (filterAndSortStargazers hostUTC [atFive; atNine; pastFive] defaults).
Proof.
  apply (result_is_in_the_order_asked_for hostUTC [atFive; atNine; pastFive] defaults).
  intros _. exact nine_five_valid.
Defined.

Lemma ties_keep_the_order_of_the_fetch_witness :
  List.filter (starredAt hostUTC 1740589200000)
    (filterAndSortStargazers hostUTC
       [atFive; atNine; starRecord "ivan" 11 "2025-02-26T17:00:00Z"] defaults)
    `sublist_of` [atFive; atNine; starRecord "ivan" 11 "2025-02-26T17:00:00Z"].
Proof.
  apply (ties_keep_the_order_of_the_fetch hostUTC _ defaults 1740589200000).
  intros _. repeat (apply Forall_cons; split; [by eexists|]). apply Forall_nil_2.
Defined.

Lemma few_stargazers_are_listed_twice_witness :
  oldest_stargazers (statistics (generateStargazersReport hostUTC cfg0 0 [atNine; atFive]))
  = reverse (recent_stargazers
               (statistics (generateStargazersReport hostUTC cfg0 0 [atNine; atFive])))
  ∧ recent_stargazers (statistics (generateStargazersReport hostUTC cfg0 0 [atNine; atFive]))
    ≡ₚ dateEntry <$> [atNine; atFive]
  ∧ top_stargazers (statistics (generateStargazersReport hostUTC cfg0 0 [atNine; atFive]))
    = topEntry <$> [atNine; atFive].
Proof.
  apply (few_stargazers_are_listed_twice hostUTC cfg0 0 [atNine; atFive]). cbn. lia.
Defined.

Lemma limit_bounds_every_later_stage_witness :
  ∃ stargazers enriched,
    outcome (getStargazers cfg0 (Some 2) [page 0 3; page 3 3]) = Resolved stargazers
    ∧ (enrichStargazersData cfg0 (filterAndSortStargazers hostUTC stargazers onlyDate)
         (fun _ => [notFound])).1 = Resolved enriched
    ∧ Z.of_nat (length (filterAndSortStargazers hostUTC stargazers onlyDate)) <= 2
    ∧ length enriched = length (filterAndSortStargazers hostUTC stargazers onlyDate)
    ∧ total_stargazers (summary (generateStargazersReport hostUTC cfg0 7 enriched)) <= 2
    ∧ length (stargazers_list (generateStargazersReport hostUTC cfg0 7 enriched))
      = length enriched.
Proof.
  assert (Hrun : getStargazers cfg0 (Some 2) [page 0 3; page 3 3] =
                 (Resolved (take (Z.to_nat 2) ([] ++ concat [] ++ numberedRecords 0 3)),
                  pageRequests cfg0 1 1, [page 3 3])).
  { unfold getStargazers.
    apply (pages_until_limit cfg0 [] [] (pageOf 0 3) (numberedRecords 0 3) [page 3 3] 2
             (List.Forall2_nil _) (goodPage_pageOf 0 2)); cbn; lia. }
  set (stargazers := take (Z.to_nat 2) ([] ++ concat [] ++ numberedRecords 0 3)) in *.
  assert (Hfetch : outcome (getStargazers cfg0 (Some 2) [page 0 3; page 3 3])
                   = Resolved stargazers) by (by rewrite Hrun).
  assert (Hsettle : ∀ k s,
            filterAndSortStargazers hostUTC stargazers onlyDate !! k = Some s →
            settles cfg0 s ([notFound])).
  { intros k s _. unfold settles. by rewrite notFound_rejects. }
  pose proof (batches_run cfg0 _ (fun _ => [notFound]) Hsettle
                (S (length (filterAndSortStargazers hostUTC stargazers onlyDate))) 0%nat []
                ltac:(lia) ltac:(lia)) as Henrich.
  eexists stargazers, _. split; [exact Hfetch|]. split; [exact Henrich|].
  exact (limit_bounds_every_later_stage hostUTC cfg0 2 7 _ _ onlyDate _ _
           ltac:(lia) Hfetch Henrich).
Defined.

Lemma filter_and_sort_twice_is_once_witness :
  filterAndSortStargazers hostUTC
    (filterAndSortStargazers hostUTC [atFive; atNine; pastFive] defaults) defaults
  = filterAndSortStargazers hostUTC [atFive; atNine; pastFive] defaults.
Proof.
  apply (filter_and_sort_twice_is_once hostUTC [atFive; atNine; pastFive] defaults).
  intros _. exact nine_five_valid.
Defined.

Lemma newest_first_is_oldest_first_reversed_witness :
  filterAndSortStargazers hostUTC [atNine; atFive] (withSort "desc" onlyDate)
  = reverse (filterAndSortStargazers hostUTC [atNine; atFive] (withSort "asc" onlyDate)).
Proof.
  apply (newest_first_is_oldest_first_reversed hostUTC [atNine; atFive] onlyDate).
  exact datedApart_nine_five.
Defined.
